(** * layman: catalog stores, overlay entities and the remote catalog cache

    A shallow embedding of [layman/overlays/overlay.py], [layman/dbbase.py],
    [layman/db.py] and [layman/overlays/git.py], and the properties of the
    overlay registry proved over it.

    Python values are modelled as follows.
    - text is a [string] of bytes: a text of ASCII characters is a [str]
      (ElementTree hands such text over as [str]), any other text is a
      [unicode] object, kept as its UTF-8 bytes; [None] where the code allows
      it is the [None] of an [option];
    - integers are [Z];
    - a raised exception is a [Raise e] result, a normal return an [Ok v];
    - messages sent to [config['output']] are collected, in order, in a list;
    - a [dict] is a [gmap]; an [xml.etree.ElementTree.Element] is the
      inductive [Element];
    - the file system and the network met by [RemoteDB.cache] are explicit
      state.

    Code of the package that is not part of the embedded files (the source
    backends other than git, [layman.compatibility], [layman.utils]) and the
    Python library (ElementTree's reader and writer, [hashlib], [os.path])
    is the class [Externals]: operations without assumed laws.  A theorem
    that needs a law states it as a hypothesis. *)

From Stdlib Require Import ZArith Ascii String Decimal DecimalString DecimalZ DecimalPos.
From stdpp Require Import gmap strings list fin_maps.

Open Scope string_scope.
Open Scope list_scope.
Open Scope Z_scope.

Set Warnings "-register-all".

(** ** Python basics *)

Module py.

(** Exceptions.  [BaseException] stands for the exceptions that are not
    subclasses of [Exception] ([KeyboardInterrupt], [SystemExit]). *)
Inductive exn : Type :=
| Exception (msg : string)
| AttributeError (msg : string)
| KeyError (key : string)
| TypeError (msg : string)
| ValueError (msg : string)
| UnboundLocalError (var : string)
| NotImplementedError (msg : string)
| IOError (msg : string)
| OSError (msg : string)
| UnknownOverlayException (repo_name : string)
| BrokenOverlayCatalog (msg : string)
| BaseException (msg : string).

Inductive result (A : Type) : Type :=
| Ok (a : A)
| Raise (e : exn).
Arguments Ok {A} a.
Arguments Raise {A} e.

(** [isinstance(e, Exception)], what [except Exception] catches. *)
Definition is_Exception (e : exn) : bool :=
  match e with
  | BaseException _ => false
  | _ => true
  end.

(** The double quote character, and a string made of it. *)
Definition dq_char : ascii := Ascii false true false false false true false false.
Definition dq : string := String dq_char EmptyString.
Definition nl : string := String (Ascii false true false true false false false false) EmptyString.

(** dbbase.py, [UnknownOverlayMessage]. *)
Definition UnknownOverlayMessage (ovl : string) : string :=
  "Exception: Overlay " +:+ dq +:+ ovl +:+ dq +:+ " does not exist.".

(** [str(error)].  A [KeyError] prints the representation of its key. *)
Definition str_exn (e : exn) : string :=
  match e with
  | Exception m | AttributeError m | TypeError m | ValueError m
  | NotImplementedError m | IOError m | OSError m
  | BrokenOverlayCatalog m | BaseException m => m
  | KeyError k => "'" +:+ k +:+ "'"
  | UnboundLocalError v =>
      "local variable '" +:+ v +:+ "' referenced before assignment"
  | UnknownOverlayException n => UnknownOverlayMessage n
  end.

(** Messages to [config['output']]: the method called, the text and the
    verbosity level when one is passed. *)
Inductive message : Type :=
| debug (text : string) (level : option Z)
| info (text : string) (level : option Z)
| warn (text : string) (level : option Z)
| error (text : string).

(** *** Text *)

(** The characters [str.strip()] removes and the class [\s] of [re]
    (compiled without [re.UNICODE]): space, tab, line feed, vertical tab,
    form feed, carriage return. *)
Definition is_space (c : ascii) : bool :=
  let n := nat_of_ascii c in
  (Nat.eqb n 32 || (Nat.leb 9 n && Nat.leb n 13))%bool.

Fixpoint lstrip (s : string) : string :=
  match s with
  | EmptyString => EmptyString
  | String c r => if is_space c then lstrip r else s
  end.

Fixpoint rstrip (s : string) : string :=
  match s with
  | EmptyString => EmptyString
  | String c r =>
      match rstrip r with
      | EmptyString => if is_space c then EmptyString else String c EmptyString
      | r' => String c r'
      end
  end.

(** Every character of [s] is an ASCII character, a byte whose high bit
    is not set: [s] is a [str]. *)
Fixpoint ascii_only (s : string) : bool :=
  match s with
  | EmptyString => true
  | String (Ascii _ _ _ _ _ _ _ high) r => negb high && ascii_only r
  end.

(** The byte [a] is one of the bytes [l]. *)
Definition byte_in (l : list N) (a : ascii) : bool :=
  existsb (fun n => Ascii.eqb a (ascii_of_N n)) l.

(** The white space of [unicode.strip()], by the length of its UTF-8
    encoding: U+0009 to U+000D and U+001C to U+0020 in one byte; U+0085 and
    U+00A0 in two; U+1680, U+180E, U+2000 to U+200A, U+2028, U+2029, U+202F,
    U+205F and U+3000 in three. *)
Definition space_1 (a : ascii) : bool :=
  byte_in [9; 10; 11; 12; 13; 28; 29; 30; 31; 32]%N a.

Definition space_2 (a b : ascii) : bool :=
  byte_in [194]%N a && byte_in [133; 160]%N b.

Definition space_3 (a b c : ascii) : bool :=
  (byte_in [225]%N a && byte_in [154]%N b && byte_in [128]%N c)
  || (byte_in [225]%N a && byte_in [160]%N b && byte_in [142]%N c)
  || (byte_in [226]%N a && byte_in [128]%N b &&
      byte_in [128; 129; 130; 131; 132; 133; 134; 135; 136; 137; 138; 168; 169; 175]%N c)
  || (byte_in [226]%N a && byte_in [129]%N b && byte_in [159]%N c)
  || (byte_in [227]%N a && byte_in [128]%N b && byte_in [128]%N c).

(** The number of bytes of the white-space character at the head of [s],
    0 when [s] does not start with one. *)
Definition space_width (s : string) : nat :=
  match s with
  | EmptyString => 0
  | String a r =>
      if space_1 a then 1
      else
        match r with
        | EmptyString => 0
        | String b r' =>
            if space_2 a b then 2
            else
              match r' with
              | EmptyString => 0
              | String c _ => if space_3 a b c then 3 else 0
              end
        end
  end%nat.

(** [s.lstrip()] for a [unicode] text. *)
Fixpoint ulstrip (s : string) : string :=
  match s with
  | EmptyString => EmptyString
  | String _ r =>
      match space_width s with
      | 1%nat => ulstrip r
      | 2%nat => match r with String _ r2 => ulstrip r2 | _ => s end
      | 3%nat => match r with String _ (String _ r3) => ulstrip r3 | _ => s end
      | _ => s
      end
  end.

(** [s] is made of white space only. *)
Fixpoint all_space (s : string) : bool :=
  match s with
  | EmptyString => true
  | String _ r =>
      match space_width s with
      | 1%nat => all_space r
      | 2%nat => match r with String _ r2 => all_space r2 | _ => false end
      | 3%nat => match r with String _ (String _ r3) => all_space r3 | _ => false end
      | _ => false
      end
  end.

(** [s.rstrip()] for a [unicode] text. *)
Fixpoint urstrip (s : string) : string :=
  match s with
  | EmptyString => EmptyString
  | String c r => if all_space s then EmptyString else String c (urstrip r)
  end.

(** [s.strip()]: on a [str] the six characters of [is_space] are removed
    from both ends, on a [unicode] text the white space of Unicode.  The
    texts the code strips are texts and attributes of parsed elements,
    which are [str] when they are ASCII only and [unicode] otherwise. *)
Definition strip (s : string) : string :=
  if ascii_only s then lstrip (rstrip s) else ulstrip (urstrip s).

(** [WHITESPACE_REGEX.sub(' ', s)] with [WHITESPACE_REGEX = re.compile('\s+')]:
    every maximal run of white space becomes one space.  [in_run] tells that
    the character before was white space. *)
Fixpoint sub_whitespace_from (in_run : bool) (s : string) : string :=
  match s with
  | EmptyString => EmptyString
  | String c r =>
      if is_space c
      then (if in_run then sub_whitespace_from true r
            else String " " (sub_whitespace_from true r))
      else String c (sub_whitespace_from false r)
  end.

Definition sub_whitespace (s : string) : string := sub_whitespace_from false s.

(** [sep.join(l)] *)
Fixpoint join (sep : string) (l : list string) : string :=
  match l with
  | [] => EmptyString
  | [x] => x
  | x :: r => x +:+ sep +:+ join sep r
  end.

(** [s.startswith(p)] *)
Definition startswith (p s : string) : bool := String.prefix p s.

(** *** Integers *)

(** [str(n)] for an integer. *)
Definition str_int (n : Z) : string := NilZero.string_of_int (Z.to_int n).

(** [int(s)] for a string: white space around is dropped, one sign is
    allowed, then decimal digits, at least one.  [None] is the
    [ValueError].  The digits are the ASCII digits: the decimal digits of
    other scripts, which [int] also reads in a [unicode] text, are not
    covered: such a text is taken to be no number. *)
Definition int_of_str (s : string) : option Z :=
  match strip s with
  | String "+" r => Z.of_uint <$> NilZero.uint_of_string r
  | t => Z.of_int <$> NilZero.int_of_string t
  end.

(** *** Dictionaries *)

(** [dict(pairs)]: a later pair replaces an earlier one with the same key. *)
Definition dict {A : Type} (pairs : list (string * A)) : gmap string A :=
  foldl (fun m kv => <[kv.1 := kv.2]> m) ∅ pairs.

(** *** A writer monad with exceptions, for code that only logs or raises *)

Definition Log (A : Type) : Type := list message * result A.

Definition ret {A : Type} (a : A) : Log A := ([], Ok a).
Definition raise {A : Type} (e : exn) : Log A := ([], Raise e).
Definition tell (m : message) : Log unit := ([m], Ok tt).

Definition bind {A B : Type} (c : Log A) (k : A -> Log B) : Log B :=
  match c with
  | (l, Ok a) => let '(l', r) := k a in (l ++ l', r)
  | (l, Raise e) => (l, Raise e)
  end.

(** [[f(e) for e in l]], left to right, stopping at the first exception. *)
Fixpoint mapM {A B : Type} (f : A -> Log B) (l : list A) : Log (list B) :=
  match l with
  | [] => ret []
  | x :: r => bind (f x) (fun y => bind (mapM f r) (fun ys => ret (y :: ys)))
  end.

End py.

Import py.

Notation "'let!' x ':=' c 'in' k" := (py.bind c (fun x => k))
  (at level 10, x name, c at level 100, k at level 200).
Notation "'do!' c 'in' k" := (py.bind c (fun _ => k))
  (at level 10, c at level 100, k at level 200).

(** ** ElementTree *)

Module ET.

(** An [Element]: tag, attribute dictionary, text (or [None]) and children.
    The tail is left out: no code of the package reads it. *)
Inductive Element : Type :=
| Elem (tag : string) (attrib : gmap string string) (text : option string)
       (children : list Element).

Definition tag (e : Element) : string := let 'Elem t _ _ _ := e in t.
Definition attrib (e : Element) : gmap string string := let 'Elem _ a _ _ := e in a.
Definition text (e : Element) : option string := let 'Elem _ _ x _ := e in x.
Definition children (e : Element) : list Element := let 'Elem _ _ _ c := e in c.

Definition has_tag (t : string) (e : Element) : bool := bool_decide (tag e = t).

(** [e.findall(t)] for a plain tag [t]: the direct children with that tag,
    in document order. *)
Definition findall (t : string) (e : Element) : list Element :=
  List.filter (has_tag t) (children e).

(** [e.find(t)]: the first such child, or [None]. *)
Definition find (t : string) (e : Element) : option Element :=
  List.find (has_tag t) (children e).

(** [parent.append(child)] *)
Definition append (child : Element) (parent : Element) : Element :=
  let 'Elem t a x c := parent in Elem t a x (c ++ [child]).

(** What the expat parser reports for a document that is not well formed. *)
Record ExpatError : Type := { lineno : Z; offset : Z }.

End ET.

(** ** Source backends: layman/overlays/git.py and the backend contract *)

Module source.

(** A backend class.  [type_key] is the value of the document's [type]
    attribute, [type] the label shown to the user.  [init_reads_branch]
    tells that the constructor reads [parent.branch], as [GitOverlay.__init__]
    does ([self.branch = parent.branch]). *)
Record SourceClass : Type := {
  type_key : string;
  type : string;
  init_reads_branch : bool
}.

(** git.py, [class GitOverlay]. *)
Definition GitOverlay : SourceClass :=
  {| type_key := "git"; type := "Git"; init_reads_branch := true |}.

(** A source object: its class and its location [src]. *)
Record OverlaySource : Type := {
  class : SourceClass;
  src : string
}.

(** [_class(parent=self, config=self.config, _location=_location,
    ignore=ignore)].  [parent_branch] is [parent.branch], [None] when the
    parent has no such attribute yet. *)
Definition new (c : SourceClass) (parent_branch : option string)
    (_location : string) : result OverlaySource :=
  if init_reads_branch c then
    match parent_branch with
    | Some _ => Ok {| class := c; src := _location |}
    | None => Raise (AttributeError "'Overlay' object has no attribute 'branch'")
    end
  else Ok {| class := c; src := _location |}.

End source.

Import source.

(** ** Definitions given as a mapping *)

Module mapping.

(** The value stored under ['priority'] in a definition given as a
    mapping: [None], an integer or text. *)
Inductive priority_value : Type :=
| PNone
| PInt (n : Z)
| PStr (s : string).

(** The plain key/value mapping [from_dict] reads.  All the keys it looks
    up are present; a value is [None] where the field is an [option].
    A source is the triple [(src, type, sub)]. *)
Record ovl_dict : Type := {
  d_name : option string;
  d_sources : option (list (string * string * string));
  d_owner_name : option string;
  d_owner_email : option string;
  d_description : option string;
  d_status : option string;
  d_quality : option string;
  d_priority : priority_value;
  d_homepage : option string;
  d_feeds : list string;
  d_irc : option string
}.

End mapping.

(** ** What the embedded files import *)

(** - [encode]: [layman.compatibility.encode];
    - [other_backends]: the classes [GCommonOverlay], [CvsOverlay],
      [SvnOverlay], [RsyncOverlay], [TarOverlay], [BzrOverlay],
      [MercurialOverlay], [DarcsOverlay], in this order;
    - [to_xml_hook s repo]: [s.to_xml_hook(repo)], the element [repo] as the
      hook leaves it;
    - [source_eq a b]: [a == b] on source objects;
    - [indent]: [layman.utils.indent];
    - [ET_write]: the text [ElementTree(tree).write(f, encoding='utf-8')]
      writes; [ET_fromstring]: [ET.fromstring];
    - [md5_hexdigest u]: [hashlib.md5(u).hexdigest()];
    - [dirname]: [os.path.dirname];
    - [str_list l]: [str(l)] for a list of texts;
    - [set_list l]: [list(set(l))], the order in which the set built from
      [l] is iterated;
    - [repr_element e]: the text [%s] gives for the element [e], which
      shows its tag and the address of the object; the address is not
      modelled, and no statement below depends on this text;
    - [str_dict d]: [str(d)] for a mapping. *)
Class Externals : Type := {
  encode : string -> string;
  other_backends : list SourceClass;
  to_xml_hook : OverlaySource -> ET.Element -> ET.Element;
  source_eq : OverlaySource -> OverlaySource -> bool;
  indent : ET.Element -> ET.Element;
  ET_write : ET.Element -> string;
  ET_fromstring : string -> ET.ExpatError + ET.Element;
  md5_hexdigest : string -> string;
  dirname : string -> string;
  str_list : list string -> string;
  set_list : list string -> list string;
  repr_element : ET.Element -> string;
  str_dict : mapping.ovl_dict -> string
}.

(** ** The file system *)

Module os.

(** Regular files with their content, directories, and the paths that
    cannot be written: [os.access(p, os.W_OK)] is false for them, opening
    them for writing and creating them as a directory fail. *)
Record FS : Type := {
  files : gmap string string;
  dirs : gset string;
  readonly : gset string
}.

(** [os.path.exists(p)] *)
Definition path_exists (p : string) (fs : FS) : bool :=
  bool_decide (is_Some (files fs !! p)) || bool_decide (p ∈ dirs fs).

(** [os.access(p, os.W_OK)] for an existing path. *)
Definition access_W_OK (p : string) (fs : FS) : bool :=
  negb (bool_decide (p ∈ readonly fs)).

(** [open(p, 'r').read()] *)
Definition read_file (p : string) (fs : FS) : result string :=
  match files fs !! p with
  | Some c => Ok c
  | None => Raise (IOError ("[Errno 2] No such file or directory: '" +:+ p +:+ "'"))
  end.

(** [f = open(p, 'w'); f.write(c); f.close()] *)
Definition write_file (p c : string) (fs : FS) : result FS :=
  if bool_decide (p ∈ readonly fs) || bool_decide (p ∈ dirs fs)
  then Raise (IOError ("[Errno 13] Permission denied: '" +:+ p +:+ "'"))
  else Ok {| files := <[p := c]> (files fs); dirs := dirs fs; readonly := readonly fs |}.

(** [os.makedirs(d)] for a path that does not exist. *)
Definition makedirs (d : string) (fs : FS) : result FS :=
  if bool_decide (d ∈ readonly fs)
  then Raise (OSError ("[Errno 13] Permission denied: '" +:+ d +:+ "'"))
  else Ok {| files := files fs; dirs := {[ d ]} ∪ dirs fs; readonly := readonly fs |}.

End os.

(** ** layman/overlays/overlay.py *)

Module overlay.

Import ET.
Export mapping.

Section Overlay.

Context `{Externals}.

(** [OVERLAY_TYPES = dict((e.type_key, e) for e in (GitOverlay, ...))] *)
Definition OVERLAY_TYPES : gmap string SourceClass :=
  dict ((fun e => (type_key e, e)) <$> (GitOverlay :: other_backends)).

Definition QUALITY_LEVELS : list string :=
  ["core"; "stable"; "testing"; "experimental"; "graveyard"].

(** The attributes of an [Overlay] object.  [branch] and [subpath] are
    [None] while the attribute does not exist ([from_dict] never sets them);
    for the other optional fields [None] is Python's [None]. *)
Record Overlay : Type := {
  name : string;
  branch : option string;
  subpath : option string;
  sources : list OverlaySource;
  owner_email : option string;
  owner_name : option string;
  description : string;
  status : option string;
  quality : string;
  priority : Z;
  homepage : option string;
  feeds : list string;
  irc : option string
}.

(** [from_xml], local [strip_text]. *)
Definition strip_text (node : Element) : string :=
  match text node with
  | None => ""
  | Some res => strip res
  end.

(** [encode(node.text.strip())]: an [AttributeError] when the text is
    [None]. *)
Definition text_strip (node : Element) : Log string :=
  match text node with
  | None => raise (AttributeError "'NoneType' object has no attribute 'strip'")
  | Some t => ret (encode (strip t))
  end.

(** Reading [self.name] before it is assigned. *)
Definition no_name : exn :=
  AttributeError "'Overlay' object has no attribute 'name'".

(** [from_xml], local [create_overlay_source]. *)
Definition create_overlay_source (self_name : string) (self_branch : option string)
    (source_elem : Element) : Log OverlaySource :=
  match attrib source_elem !! "type" with
  | None => raise (KeyError "type")
  | Some _type =>
      match OVERLAY_TYPES !! _type with
      | None =>
          raise (Exception ("Overlay from_xml(), " +:+ dq +:+ self_name +:+
                            "Unknown overlay type " +:+ dq +:+ _type +:+ dq +:+ "!"))
      | Some _class =>
          let _location := encode (strip_text source_elem) in
          ([], source.new _class self_branch _location)
      end
  end.

(** The check on a missing recommended field: [not ignore] raises,
    [ignore == 1] warns, any other level is silent. *)
Definition missing_field (ignore : Z) (raised warned : string) : Log unit :=
  if bool_decide (ignore = 0) then raise (Exception raised)
  else if bool_decide (ignore = 1) then tell (warn warned (Some 4))
  else ret tt.

(** The blocks of [from_xml], in the order of the method. *)

(** [self.name]: the text of the [name] child, else the [name] attribute. *)
Definition read_name (xml : Element) : Log string :=
  match find "name" xml with
  | Some _name => ret (encode (strip_text _name))
  | None =>
      match attrib xml !! "name" with
      | Some n => ret (encode n)
      | None => raise no_name
      end
  end.

(** [_sources]: the [source] children that carry a [type], or, when there
    is no [source] child, one element made of the attributes [src] and
    [type]. *)
Definition source_elems (xml : Element) : list Element :=
  match findall "source" xml with
  | [] =>
      match attrib xml !! "src", attrib xml !! "type" with
      | Some s, Some t => [Elem "source" {[ "type" := t ]} (Some s) []]
      | _, _ => []
      end
  | found => List.filter (fun e => bool_decide (is_Some (attrib e !! "type"))) found
  end.

(** [self.branch] and [self.subpath]: the text of the child [t], else the
    attribute [t], else the empty text. *)
Definition read_hint (t : string) (xml : Element) : Log string :=
  match find t xml with
  | Some node => text_strip node
  | None =>
      match attrib xml !! t with
      | Some v => ret (encode v)
      | None => ret ""
      end
  end.

(** [self.owner_email] and [self.owner_name]. *)
Definition read_owner (xml : Element) (ignore : Z) (self_name : string)
    : Log (string * option string) :=
  match find "owner" xml ≫= (fun _owner => (fun e => (_owner, e)) <$> find "email" _owner) with
  | Some (_owner, _email) =>
      ret (encode (strip_text _email),
           (fun _name => encode (strip_text _name)) <$> find "name" _owner)
  | None =>
      match attrib xml !! "contact" with
      | Some c => ret (encode c, None)
      | None =>
          do! missing_field ignore
                ("Overlay  from_xml(), " +:+ dq +:+ self_name +:+ dq +:+
                 " is missing an " +:+ dq +:+ "owner.email" +:+ dq +:+ " entry!")
                ("Overlay " +:+ dq +:+ self_name +:+ dq +:+
                 " is missing a " +:+ dq +:+ "owner.email" +:+ dq +:+ " entry!") in
          ret ("", None)
      end
  end.

(** [self.description] *)
Definition read_description (xml : Element) (ignore : Z) (self_name : string) : Log string :=
  match find "description" xml with
  | Some _desc => ret (encode (sub_whitespace (strip_text _desc)))
  | None =>
      do! missing_field ignore
            ("Overlay  from_xml(), " +:+ dq +:+ self_name +:+ dq +:+
             " is missing a description" +:+ dq +:+ " entry!")
            ("Overlay " +:+ dq +:+ self_name +:+ dq +:+
             " is missing a " +:+ dq +:+ "description" +:+ dq +:+ " entry!") in
      ret ""
  end.

(** [self.quality] *)
Definition read_quality (xml : Element) : string :=
  match attrib xml !! "quality" with
  | Some q => if bool_decide (q ∈ QUALITY_LEVELS) then encode q else "experimental"
  | None => "experimental"
  end.

(** [self.priority] *)
Definition read_priority (xml : Element) : Log Z :=
  match attrib xml !! "priority" with
  | Some p =>
      match int_of_str p with
      | Some n => ret n
      | None => raise (ValueError ("invalid literal for int() with base 10: '" +:+ p +:+ "'"))
      end
  | None => ret 50
  end.

(** [self.homepage]: the [homepage] child, else the [link] child. *)
Definition read_homepage (xml : Element) : option string :=
  match find "homepage" xml, find "link" xml with
  | Some h, _ => Some (encode (strip_text h))
  | None, Some l => Some (encode (strip_text l))
  | None, None => None
  end.

(** [Overlay.from_xml(xml, ignore)] on a fresh object: the messages sent
    and the object built, or the exception raised. *)
Definition from_xml (xml : Element) (ignore : Z) : Log Overlay :=
  let! self_name := read_name xml in
  let _sources := source_elems xml in
  do! (if bool_decide (length _sources = 0%nat)
       then raise (Exception ("Overlay from_xml(), " +:+ dq +:+ self_name +:+ dq +:+
                              " is missing a " +:+ dq +:+ "source" +:+ dq +:+ " entry!"))
       else ret tt) in
  let! self_branch := read_hint "branch" xml in
  let! self_sources :=
    mapM (create_overlay_source self_name (Some self_branch)) _sources in
  let! self_subpath := read_hint "subpath" xml in
  let! owner := read_owner xml ignore self_name in
  let! self_description := read_description xml ignore self_name in
  let self_status := encode <$> (attrib xml !! "status") in
  let self_quality := read_quality xml in
  let! self_priority := read_priority xml in
  let self_homepage := read_homepage xml in
  let self_feeds := (fun e => encode (strip_text e)) <$> findall "feed" xml in
  let self_irc := (fun e => encode (strip_text e)) <$> find "irc" xml in
  ret {| name := self_name; branch := Some self_branch;
         subpath := Some self_subpath; sources := self_sources;
         owner_email := Some (owner.1); owner_name := owner.2;
         description := self_description; status := self_status;
         quality := self_quality; priority := self_priority;
         homepage := self_homepage; feeds := self_feeds; irc := self_irc |}.

(** [from_dict], local [create_dict_overlay_source]. *)
Definition create_dict_overlay_source (self_name : string)
    (self_branch : option string) (source_ : string * string * string)
    : Log OverlaySource :=
  let '(_src, _type, _sub) := source_ in
  match OVERLAY_TYPES !! _type with
  | None =>
      raise (Exception ("Overlay from_dict(), " +:+ dq +:+ self_name +:+
                        "Unknown overlay type " +:+ dq +:+ _type +:+ dq +:+ "!"))
  | Some _class => ([], source.new _class self_branch (encode _src))
  end.

(** [bool(v)] and [int(v)] for the value of ['priority']. *)
Definition priority_truth (v : priority_value) : bool :=
  match v with
  | PNone => false
  | PInt n => negb (n =? 0)
  | PStr s => negb (bool_decide (s = ""))
  end.

(** [Overlay.from_dict(overlay, ignore)] on a fresh object.  The first
    statement sends the mapping's representation as a debug message. *)
Definition from_dict (overlay : ovl_dict) (ignore : Z) : Log Overlay :=
  do! tell (debug ("Overlay from_dict(); overlay" +:+ str_dict overlay) None) in
  let! self_name :=
    match d_name overlay with
    | Some _name => ret (encode _name)
    | None => raise no_name
    end in
  let! _sources :=
    match d_sources overlay with
    | Some l => ret l
    | None =>
        raise (Exception ("Overlay from_dict(), " +:+ dq +:+ self_name +:+ dq +:+
                          " is missing a " +:+ dq +:+ "source" +:+ dq +:+ " entry!"))
    end in
  let! self_sources := mapM (create_dict_overlay_source self_name None) _sources in
  let self_owner_name := encode <$> d_owner_name overlay in
  let _email :=
    match d_owner_name overlay with
    | None => None
    | Some _ => d_owner_email overlay
    end in
  let! self_owner_email :=
    match _email with
    | Some e => ret (Some (encode e))
    | None =>
        let text := "Overlay from_dict(), " +:+ dq +:+ self_name +:+ dq +:+
                    " is missing an " +:+ dq +:+ "owner.email" +:+ dq +:+ " entry!" in
        do! missing_field ignore text text in
        ret None
    end in
  let! self_description :=
    match d_description overlay with
    | Some _desc => ret (encode (sub_whitespace _desc))
    | None =>
        let text := "Overlay from_dict(), " +:+ dq +:+ self_name +:+ dq +:+
                    " is missing a " +:+ dq +:+ "description" +:+ dq +:+ " entry!" in
        do! missing_field ignore text text in
        ret ""
    end in
  let self_status :=
    match d_status overlay with
    | Some s => if bool_decide (s = "") then None else Some (encode s)
    | None => None
    end in
  let! self_quality :=
    match d_quality overlay with
    | None => raise (TypeError "object of type 'NoneType' has no len()")
    | Some q =>
        if bool_decide (q ≠ "") && bool_decide (q ∈ QUALITY_LEVELS)
        then ret (encode q) else ret "experimental"
    end in
  let! self_priority :=
    if priority_truth (d_priority overlay) then
      match d_priority overlay with
      | PInt n => ret n
      | PStr p =>
          match int_of_str p with
          | Some n => ret n
          | None => raise (ValueError ("invalid literal for int() with base 10: '" +:+ p +:+ "'"))
          end
      | PNone => ret 50
      end
    else ret 50 in
  let self_homepage := encode <$> d_homepage overlay in
  let self_feeds := encode <$> d_feeds overlay in
  let self_irc := encode <$> d_irc overlay in
  ret {| name := self_name; branch := None; subpath := None;
         sources := self_sources;
         owner_email := self_owner_email; owner_name := self_owner_name;
         description := self_description; status := self_status;
         quality := self_quality; priority := self_priority;
         homepage := self_homepage; feeds := self_feeds; irc := self_irc |}.

(** [Overlay.__init__(config, xml, ovl_dict, ignore)]: [from_xml] when a
    node is given, else [from_dict] when a mapping is given.  With neither
    the object has no attribute at all; that case is not modelled. *)
Definition Overlay_init (xml : option Element) (ovl : option ovl_dict) (ignore : Z)
    : option (Log Overlay) :=
  match xml, ovl with
  | Some x, _ => Some (from_xml x ignore)
  | None, Some d => Some (from_dict d ignore)
  | None, None => None
  end.

(** [i in l] for a source [i] and a list of sources. *)
Definition contains (i : OverlaySource) (l : list OverlaySource) : bool :=
  existsb (source_eq i) l.

(** [Overlay.__eq__] *)
Definition Overlay_eq (self other : Overlay) : bool :=
  if negb (bool_decide (description self = description other)) then false
  else if negb (bool_decide (homepage self = homepage other)) then false
  else if negb (bool_decide (name self = name other)) then false
  else if negb (bool_decide (owner_email self = owner_email other)) then false
  else if negb (bool_decide (owner_name self = owner_name other)) then false
  else if negb (bool_decide (priority self = priority other)) then false
  else if negb (bool_decide (status self = status other)) then false
  else
    forallb (fun i => contains i (sources self) && contains i (sources other))
            (sources self ++ sources other).

(** [Overlay.__ne__] *)
Definition Overlay_ne (self other : Overlay) : bool := negb (Overlay_eq self other).

(** [Overlay.set_priority]; the priority is already an integer here. *)
Definition set_priority (self : Overlay) (p : Z) : Overlay :=
  {| name := name self; branch := branch self; subpath := subpath self;
     sources := sources self; owner_email := owner_email self;
     owner_name := owner_name self; description := description self;
     status := status self; quality := quality self; priority := p;
     homepage := homepage self; feeds := feeds self; irc := irc self |}.

(** The object with its [sources] attribute rebound. *)
Definition set_sources (self : Overlay) (l : list OverlaySource) : Overlay :=
  {| name := name self; branch := branch self; subpath := subpath self;
     sources := l; owner_email := owner_email self;
     owner_name := owner_name self; description := description self;
     status := status self; quality := quality self; priority := priority self;
     homepage := homepage self; feeds := feeds self; irc := irc self |}.

(** An element without attributes or children, holding [text]. *)
Definition leaf (t : string) (x : option string) : Element := Elem t ∅ x [].

(** [Overlay.to_xml] *)
Definition to_xml (self : Overlay) : Element :=
  let attrs : gmap string string :=
    match status self with
    | Some st => {[ "status" := st ]}
    | None => ∅
    end in
  let attrs := <["quality" := quality self]> attrs in
  let attrs := <["priority" := str_int (priority self)]> attrs in
  let repo := Elem "repo" attrs None [] in
  let repo := append (leaf "name" (Some (name self))) repo in
  let repo := append (leaf "description" (Some (description self))) repo in
  let repo :=
    match homepage self with
    | Some h => append (leaf "homepage" (Some h)) repo
    | None => repo
    end in
  let repo :=
    match irc self with
    | Some i => append (leaf "irc" (Some i)) repo
    | None => repo
    end in
  let owner := Elem "owner" ∅ None [] in
  let owner := append (leaf "email" (owner_email self)) owner in
  let owner :=
    match owner_name self with
    | Some n => append (leaf "name" (Some n)) owner
    | None => owner
    end in
  let repo := append owner repo in
  let repo :=
    foldl (fun r i => append (Elem "source" {[ "type" := type_key (class i) ]}
                                   (Some (src i)) []) r)
          repo (sources self) in
  let repo := foldl (fun r i => to_xml_hook i r) repo (sources self) in
  foldl (fun r i => append (leaf "feed" (Some i)) r) repo (feeds self).

End Overlay.

(** *** [Overlay.add]: the fallback over the source candidates *)

(** The contract of a source's [add]: on a state [W] of what the backends
    act on, [s.add(base)] returns a status code or raises. *)
Class Backend (W : Type) : Type := {
  source_add : OverlaySource -> string -> W -> result Z * W
}.

Section Add.

Context {W : Type} `{Backend W}.

(** The state the loop of [add] works on: the object, the world of the
    backends and the messages sent so far. *)
Record add_state : Type := {
  self : Overlay;
  world : W;
  output : list message
}.

Definition trying_next : message :=
  info (nl +:+ "Trying next source of listed sources...") (Some 4).

(** The [for s in self.sources] loop of [add], over the candidates [l]
    not yet tried, with the current values of [res] and [first_s].  The
    result is what [add] returns: [res] after the loop, or an exception
    that [except Exception] does not catch. *)
Fixpoint add_loop (base : string) (l : list OverlaySource) (res : Z)
    (first_s : bool) (st : add_state) : result Z * add_state :=
  match l with
  | [] => (Ok res, st)
  | s :: rest =>
      let out := if first_s then output st else output st ++ [trying_next] in
      match source_add s base (world st) with
      | (Ok r, w) =>
          if bool_decide (r = 0)
          then (Ok r, {| self := set_sources (self st) [s]; world := w; output := out |})
          else add_loop base rest r false
                 {| self := self st; world := w; output := out |}
      | (Raise e, w) =>
          if is_Exception e
          then add_loop base rest res false
                 {| self := self st; world := w;
                    output := out ++ [warn (str_exn e) (Some 4)] |}
          else (Raise e, {| self := self st; world := w; output := out |})
      end
  end.

(** [Overlay.add(base)] *)
Definition add (base : string) (st : add_state) : result Z * add_state :=
  add_loop base (sources (self st)) 1 true st.

(** **** What the loop is compared with *)

(** The candidates of [l] tried one after the other, each on the world the
    one before left: the outcomes, in order, and the last world. *)
Fixpoint attempts (base : string) (l : list OverlaySource) (w : W)
    : list (result Z) * W :=
  match l with
  | [] => ([], w)
  | s :: rest =>
      let '(o, w1) := source_add s base w in
      let '(os, w2) := attempts base rest w1 in
      (o :: os, w2)
  end.

(** A candidate failed: it returned a status other than 0, or raised an
    exception that [except Exception] catches. *)
Definition failed (o : result Z) : Prop :=
  match o with
  | Ok r => r ≠ 0
  | Raise e => is_Exception e = true
  end.

Definition raised (o : result Z) : Prop :=
  match o with
  | Ok _ => False
  | Raise e => is_Exception e = true
  end.

(** The status returned last among the outcomes, [res] when none returned. *)
Definition last_status (res : Z) (os : list (result Z)) : Z :=
  foldl (fun r o => match o with Ok r' => r' | Raise _ => r end) res os.

(** The messages of a run of failed candidates: the notice before every
    candidate but the very first, and the warning for an exception. *)
Fixpoint fallback_log (first_s : bool) (os : list (result Z)) : list message :=
  match os with
  | [] => []
  | o :: rest =>
      (if first_s then [] else [trying_next]) ++
      match o with
      | Ok _ => []
      | Raise e => [warn (str_exn e) (Some 4)]
      end ++ fallback_log false rest
  end.

End Add.

End overlay.

(** ** layman/dbbase.py *)

Module dbbase.

Import ET overlay os.

Section DbBase.

Context `{Externals}.

(** The class of a store object: [DbBase] itself or, from db.py, [DB] or
    [RemoteDB]; they differ in [_broken_catalog_hint]. *)
Inductive db_class : Type := class_DbBase | class_DB | class_RemoteDB.

(** A store object. *)
Record DbBase : Type := {
  class : db_class;
  paths : list string;
  ignore : Z;
  ignore_init_read_errors : bool;
  overlays : gmap string Overlay
}.

(** The object with its [overlays] dictionary updated. *)
Definition set_overlays (self : DbBase) (m : gmap string Overlay) : DbBase :=
  {| class := class self; paths := paths self; ignore := ignore self;
     ignore_init_read_errors := ignore_init_read_errors self; overlays := m |}.

(** What a method leaves: its result, the object and the messages sent. *)
Definition outcome (A : Type) : Type := result A * DbBase * list message.

(** [_broken_catalog_hint] of the three classes. *)
Definition _broken_catalog_hint (c : db_class) : result string :=
  match c with
  | class_DbBase =>
      Raise (NotImplementedError ("Method " +:+ dq +:+ "DbBase._broken_catalog_hint" +:+
                                  dq +:+ " not implemented"))
  | class_DB => Ok ""
  | class_RemoteDB =>
      Ok ("Try running " +:+ dq +:+ "sudo layman -f" +:+ dq +:+ " to re-fetch that file")
  end.

(** The exception [BrokenOverlayCatalog(origin, expat_error, hint)] for a
    hint that is not [None]. *)
Definition broken_overlay_catalog (origin : string) (err : ExpatError) (hint : string) : exn :=
  BrokenOverlayCatalog
    ("XML parsing failed for " +:+ dq +:+ origin +:+ dq +:+ " (line " +:+ str_int (lineno err) +:+
     ", column " +:+ str_int (offset err + 1) +:+ ")" +:+ nl +:+ "Hint: " +:+ hint).

(** The loop of [read] over the overlay nodes: the node's representation
    is sent as a debug message of level 9, then the node is made an
    [Overlay] and stored under its name. *)
Fixpoint read_nodes (ign : Z) (nodes : list Element) (m : gmap string Overlay)
    : result unit * gmap string Overlay * list message :=
  match nodes with
  | [] => (Ok tt, m, [])
  | node :: rest =>
      let trace := debug ("Parsing overlay: " +:+ repr_element node) (Some 9) in
      match from_xml node ign with
      | (msgs, Ok ovl) =>
          let '(r, m', msgs') := read_nodes ign rest (<[name ovl := ovl]> m) in
          (r, m', trace :: msgs ++ msgs')
      | (msgs, Raise e) => (Raise e, m, trace :: msgs)
      end
  end.

(** The overlay nodes of a document, in the order [read] takes them. *)
Definition overlay_nodes (document : Element) : list Element :=
  findall "overlay" document ++ findall "repo" document.

(** [DbBase.read(text, origin)] *)
Definition read (self : DbBase) (text origin : string) : outcome unit :=
  match ET_fromstring text with
  | inl err =>
      match _broken_catalog_hint (class self) with
      | Ok hint => (Raise (broken_overlay_catalog origin err hint), self, [])
      | Raise e => (Raise e, self, [])
      end
  | inr document =>
      let '(r, m, msgs) := read_nodes (ignore self) (overlay_nodes document) (overlays self) in
      (r, set_overlays self m, msgs)
  end.

(** [DbBase.read_file(path)].  When the file cannot be read and
    [ignore_init_read_errors] is set, [document] is not bound when [read] is
    called. *)
Definition read_file (self : DbBase) (path : string) (fs : FS) : outcome unit :=
  match os.read_file path fs with
  | Ok document => read self document path
  | Raise e =>
      if negb (is_Exception e) then (Raise e, self, [])
      else if negb (ignore_init_read_errors self)
      then (Raise e, self,
            [error ("Failed to read the overlay list at (" +:+ dq +:+ path +:+ dq +:+ ")")])
      else (Raise (UnboundLocalError "document"), self, [])
  end.

(** The loop of [__init__] over the paths, with the current [path_found]. *)
Fixpoint init_paths (self : DbBase) (l : list string) (path_found : bool) (fs : FS)
    : outcome bool :=
  match l with
  | [] => (Ok path_found, self, [])
  | path :: rest =>
      if negb (path_exists path fs) then init_paths self rest path_found fs
      else
        match read_file self path fs with
        | (Ok _, self', msgs) =>
            let '(r, self'', msgs') := init_paths self' rest true fs in
            (r, self'', msgs ++ msgs')
        | (Raise e, self', msgs) => (Raise e, self', msgs)
        end
  end.

(** [DbBase.__init__(config, paths, ignore, ignore_init_read_errors)] for an
    object of class [c]: the object, or the exception that left it
    unfinished, and the messages. *)
Definition DbBase_init (c : db_class) (paths_ : list string) (ignore_ : Z)
    (ignore_init_read_errors_ : bool) (fs : FS) : result DbBase * list message :=
  let self := {| class := c; paths := paths_; ignore := ignore_;
                 ignore_init_read_errors := ignore_init_read_errors_;
                 overlays := ∅ |} in
  let start := [debug "Initializing overlay list handler" (Some 8)] in
  match init_paths self paths_ false fs with
  | (Ok path_found, self', msgs) =>
      (Ok self',
       start ++ msgs ++
       if path_found then []
       else [warn ("Warning: an installed db file was not found at: " +:+ str_list paths_) None])
  | (Raise e, _, msgs) => (Raise e, start ++ msgs)
  end.

(** [self.overlays.keys()] and [self.overlays.values()], in the order of
    the dictionary. *)
Definition keys (m : gmap string Overlay) : list string := (map_to_list m).*1.
Definition values (m : gmap string Overlay) : list Overlay := (map_to_list m).*2.

(** [DbBase.__eq__]: the loop over the keys [l] of the set built from the
    keys of both stores.  A key that one dictionary lacks is a [KeyError]. *)
Fixpoint eq_keys (l : list string) (self other : gmap string Overlay) : result bool :=
  match l with
  | [] => Ok true
  | key :: rest =>
      match self !! key with
      | None => Raise (KeyError key)
      | Some a =>
          match other !! key with
          | None => Raise (KeyError key)
          | Some b => if Overlay_ne a b then Ok false else eq_keys rest self other
          end
      end
  end.

Definition DbBase_eq (self other : DbBase) : result bool :=
  eq_keys (set_list (keys (overlays self) ++ keys (overlays other)))
          (overlays self) (overlays other).

(** [DbBase.__ne__] *)
Definition DbBase_ne (self other : DbBase) : result bool :=
  match DbBase_eq self other with
  | Ok b => Ok (negb b)
  | Raise e => Raise e
  end.

(** The first line [write] puts in the file. *)
Definition xml_declaration : string :=
  "<?xml version=" +:+ dq +:+ "1.0" +:+ dq +:+ " encoding=" +:+ dq +:+ "UTF-8" +:+ dq +:+ "?>" +:+ nl.

(** The tree [write] builds, before [indent]. *)
Definition write_tree (self : DbBase) : Element :=
  Elem "repositories" {[ "version" := "1.0" ]} None (to_xml <$> values (overlays self)).

(** The text [write] puts in the file. *)
Definition write_text (self : DbBase) : string :=
  xml_declaration +:+ ET_write (indent (write_tree self)).

(** [DbBase.write(path)] *)
Definition write (self : DbBase) (path : string) (fs : FS) : result FS :=
  match write_file path (write_text self) fs with
  | Ok fs' => Ok fs'
  | Raise e =>
      if is_Exception e
      then Raise (Exception ("Failed to write to local overlays file: " +:+ path +:+ nl +:+
                             "Error was:" +:+ nl +:+ str_exn e))
      else Raise e
  end.

(** [DbBase.select(overlay)]: the entity, or the exception, and the
    messages sent. *)
Definition select (self : DbBase) (overlay : string) : result Overlay * list message :=
  let trace := debug ("DbBase.select(), overlay = " +:+ overlay) (Some 5) in
  if negb (bool_decide (overlay ∈ keys (overlays self))) then
    (Raise (UnknownOverlayException overlay),
     [trace;
      debug ("DbBase.select(), unknown overlay = " +:+ overlay) (Some 4);
      debug ("DbBase.select(), known overlays = " +:+ join ", " (keys (overlays self))) (Some 4)])
  else
    match overlays self !! overlay with
    | Some o => (Ok o, [trace])
    | None => (Raise (KeyError overlay), [trace])
    end.

End DbBase.

End dbbase.

(** ** layman/db.py: [RemoteDB] *)

Module db.

Import ET overlay os dbbase.

(** What [opener.open(request)] gives: a response with its headers (names
    in lower case) and body, an [urllib2.HTTPError], another [IOError]
    ([urllib2.URLError] is one), or any other exception. *)
Inductive fetch : Type :=
| Response (headers : gmap string string) (body : string)
| HTTPError (code : Z) (msg : string)
| URLError (reason : string)
| Failure (e : exn).

(** The machine [RemoteDB.cache] runs on: [urlopen url since] answers the
    request for [url] carrying the header [If-Modified-Since: since] when
    [since] is given; [getuser] is [getpass.getuser()]. *)
Class Host : Type := {
  urlopen : string -> option string -> fetch;
  getuser : string
}.

Section RemoteDB.

Context `{Externals} `{Host}.

(** A [RemoteDB] object: the store, [self.urls] and [config['cache']],
    together with the file system and the messages sent so far. *)
Record RemoteDB : Type := {
  store : DbBase;
  urls : list string;
  cache_prefix : string;
  fs : FS;
  output : list message
}.

Definition update (self : RemoteDB) (d : DbBase) (f : FS) (msgs : list message) : RemoteDB :=
  {| store := d; urls := urls self; cache_prefix := cache_prefix self;
     fs := f; output := output self ++ msgs |}.

Definition say (self : RemoteDB) (msgs : list message) : RemoteDB :=
  update self (store self) (fs self) msgs.

(** [RemoteDB.filepath(url)]; its trace is sent by [cache_url]. *)
Definition filepath (self : RemoteDB) (url : string) : string :=
  cache_prefix self +:+ "_" +:+ md5_hexdigest url.

Definition mpath (self : RemoteDB) (url : string) : string := filepath self url +:+ ".xml".
Definition tpath (self : RemoteDB) (url : string) : string := filepath self url +:+ ".timestamp".

(** [RemoteDB.check_path(paths)] with [hint=True]: the answer and the
    messages. *)
Fixpoint check_path_loop (l : list string) (is_ok : bool) (f : FS) : bool * list message :=
  match l with
  | [] => (is_ok, [])
  | path :: rest =>
      if path_exists path f && negb (access_W_OK path f) then
        let '(r, msgs) := check_path_loop rest false f in
        (r, warn ("You do not have permission to update the cache (" +:+ path +:+ ").") None
            :: (if bool_decide (getuser ≠ "root")
                then [warn ("Hint: You are not root." +:+ nl) None] else [])
            ++ msgs)
      else check_path_loop rest is_ok f
  end.

Definition check_path (l : list string) (f : FS) : bool * list message :=
  let '(r, msgs) := check_path_loop l true f in
  (r, debug ("RemoteDB.check_path; paths = " +:+ str_list l) (Some 8) :: msgs).

(** The local variables of [cache] that live across the iterations:
    [has_updates], and [timestamp], which is [None] until it is bound and
    then holds a text or Python's [None]. *)
Record locals : Type := {
  has_updates : bool;
  timestamp : option (option string)
}.

(** ['%s' % t] for a text or [None]. *)
Definition str_or_None (t : option string) : string := default "None" t.

(** The timestamp of a response: its [last-modified] header, else its
    [date] header, else [None]. *)
Definition response_timestamp (headers : gmap string string) : option string :=
  match headers !! "last-modified" with
  | Some t => Some t
  | None => headers !! "date"
  end.

(** The [else] branch of the [try]: the response came. *)
Definition commit (self : RemoteDB) (url : string) (vars : locals)
    (ts : option string) (olist : string) : result locals * RemoteDB :=
  let quieter := if startswith "file://" url then 1 else 0 in
  let self := say self
    (info ("Fetching new list... " +:+ url) (Some (4 + quieter)) ::
     match ts with
     | Some t => [info ("Last-modified: " +:+ t) (Some (4 + quieter))]
     | None => []
     end) in
  let vars := {| has_updates := has_updates vars; timestamp := Some ts |} in
  let dir := dirname (mpath self url) in
  match (if negb (path_exists dir (fs self)) then makedirs dir (fs self) else Ok (fs self)) with
  | Raise e =>
      (Raise (OSError ("Failed to create layman storage directory " +:+ dir +:+ nl +:+
                       "Error was:" +:+ str_exn e)), self)
  | Ok fs1 =>
      let self := update self (store self) fs1 [] in
      match read (store self) olist url with
      | (Raise e, d, msgs) =>
          let self := update self d fs1 msgs in
          if is_Exception e then
            (Raise (IOError ("Failed to parse the overlays list fetched from " +:+ url +:+ nl +:+
                             "This means that the downloaded file is somehow corrupt or there " +:+
                             "was a problem with the webserver. Check the content of the file. " +:+
                             "Error was:" +:+ nl +:+ str_exn e)), self)
          else (Raise e, self)
      | (Ok _, d, msgs) =>
          let self := update self d fs1 msgs in
          let failed e :=
            IOError ("Failed to temporarily cache overlays list in " +:+ mpath self url +:+ nl +:+
                     "Error was:" +:+ nl +:+ str_exn e) in
          match write_file (mpath self url) olist fs1 with
          | Raise e => (Raise (failed e), self)
          | Ok fs2 =>
              let self := update self d fs2 [] in
              match ts with
              | None => (Ok {| has_updates := true; timestamp := Some ts |}, self)
              | Some t =>
                  match write_file (tpath self url) t fs2 with
                  | Raise e => (Raise (failed e), self)
                  | Ok fs3 =>
                      (Ok {| has_updates := true; timestamp := Some ts |},
                       update self d fs3 [])
                  end
              end
          end
      end
  end.

(** The start of an iteration: when the sidecar file exists its content is
    read into [timestamp] and sent as [If-Modified-Since].  The result is the
    value of that header, if any, and [timestamp]. *)
Definition previous_timestamp (self : RemoteDB) (url : string) (vars : locals)
    : result (option string * option (option string)) :=
  if path_exists (tpath self url) (fs self)
  then (match os.read_file (tpath self url) (fs self) with
        | Ok t => Ok (Some t, Some (Some t))
        | Raise e => Raise e
        end)
  else Ok (None, timestamp vars).

(** One iteration of the loop of [cache], for [url]: the local variables
    after it, or the exception that ends [cache]. *)
Definition cache_url (self : RemoteDB) (url : string) (vars : locals)
    : result locals * RemoteDB :=
  let self := say self [debug "Generating cache path." (Some 6)] in
  match previous_timestamp self url vars with
  | Raise e => (Raise e, self)
  | Ok (since, ts) =>
      let vars := {| has_updates := has_updates vars; timestamp := ts |} in
      let '(is_ok, msgs) := check_path [mpath self url] (fs self) in
      let self := say self msgs in
      if negb is_ok then (Ok vars, self)
      else
        match urlopen url since with
        | Response headers body =>
            commit self url vars (response_timestamp headers) body
        | HTTPError code msg =>
            if bool_decide (code = 304) then
              let self := say self [info ("Remote list already up to date: " +:+ url) (Some 4)] in
              match ts with
              | None => (Raise (UnboundLocalError "timestamp"), self)
              | Some t =>
                  (Ok vars, say self [info ("Last-modified: " +:+ str_or_None t) (Some 4)])
              end
            else
              (Ok vars,
               say self [info ("RemoteDB.cache(); HTTPError was:" +:+ nl +:+ " HTTP Error " +:+
                               str_int code +:+ ": " +:+ msg) None])
        | URLError reason =>
            (Ok vars,
             say self [warn ("RemoteDB.cache(); Failed to update the overlay list from: " +:+
                             url +:+ nl +:+ "IOError was:" +:+ nl +:+ reason) None])
        | Failure e => (Raise e, self)
        end
  end.

(** The loop of [cache] over the URLs [l]. *)
Fixpoint cache_loop (self : RemoteDB) (l : list string) (vars : locals)
    : result locals * RemoteDB :=
  match l with
  | [] => (Ok vars, self)
  | url :: rest =>
      match cache_url self url vars with
      | (Ok vars', self') => cache_loop self' rest vars'
      | (Raise e, self') => (Raise e, self')
      end
  end.

(** [RemoteDB.cache()] *)
Definition cache (self : RemoteDB) : result bool * RemoteDB :=
  match cache_loop self (urls self) {| has_updates := false; timestamp := None |} with
  | (Ok vars, self') => (Ok (has_updates vars), self')
  | (Raise e, self') => (Raise e, self')
  end.

End RemoteDB.

End db.

(** ** layman/overlays/overlay.py: [sync] and [delete] *)

Module upkeep.

Import overlay.

(** What a method that starts with an [assert] leaves: its result, or the
    [AssertionError] of an assertion that does not hold (the interpreter
    runs without [-O]). *)
Inductive checked (A : Type) : Type :=
| Done (r : result A)
| AssertionError.
Arguments Done {A} r.
Arguments AssertionError {A}.

(** The contract of a source's [sync] and [delete], as for [add]. *)
Class Maintainer (W : Type) : Type := {
  source_sync : OverlaySource -> string -> W -> result Z * W;
  source_delete : OverlaySource -> string -> W -> result Z * W
}.

Section Upkeep.

Context {W : Type} `{Maintainer W}.

(** [Overlay.sync(base)] *)
Definition Overlay_sync (base : string) (st : @add_state W) : checked Z * @add_state W :=
  let out := output st ++ [debug ("overlay.sync(); name = " +:+ name (self st)) (Some 4)] in
  match sources (self st) with
  | [s] =>
      let '(r, w) := source_sync s base (world st) in
      (Done r, {| self := self st; world := w; output := out |})
  | _ => (AssertionError, {| self := self st; world := world st; output := out |})
  end.

(** [Overlay.delete(base)] *)
Definition Overlay_delete (base : string) (st : @add_state W) : checked Z * @add_state W :=
  match sources (self st) with
  | [s] =>
      let '(r, w) := source_delete s base (world st) in
      (Done r, {| self := self st; world := w; output := output st |})
  | _ => (AssertionError, st)
  end.

End Upkeep.

End upkeep.

(** ** layman/dbbase.py: [add_new] *)

Module additions.

Import ET overlay os dbbase.

Section AddNew.

Context `{Externals}.

(** The loop of [_add_from_dict] over the mappings: each is made an
    [Overlay] and stored under its name. *)
Fixpoint add_dicts (ign : Z) (l : list ovl_dict) (m : gmap string Overlay)
    : result unit * gmap string Overlay * list message :=
  match l with
  | [] => (Ok tt, m, [])
  | overlay :: rest =>
      let trace := debug "Parsing overlay entry" (Some 8) in
      match from_dict overlay ign with
      | (msgs, Ok ovl) =>
          let '(r, m', msgs') := add_dicts ign rest (<[name ovl := ovl]> m) in
          (r, m', trace :: msgs ++ msgs')
      | (msgs, Raise e) => (Raise e, m, trace :: msgs)
      end
  end.

(** [DbBase._add_from_dict(overlays)] *)
Definition _add_from_dict (self : DbBase) (overlays_ : list ovl_dict) : outcome unit :=
  let '(r, m, msgs) := add_dicts (ignore self) overlays_ (overlays self) in
  (r, set_overlays self m, info "DbBase: add_from_dict()" None :: msgs).

(** The argument [from_dict] of [add_new]: one mapping or a list of them. *)
Inductive definitions : Type :=
| one_dict (d : ovl_dict)
| dict_list (l : list ovl_dict).

(** [DbBase.add_new(xml, origin, from_dict)].  An [origin] that is [None]
    is formatted as the text [None] where [read] names it. *)
Definition add_new (self : DbBase) (xml : option string) (origin : option string)
    (from_dict_ : option definitions) : outcome unit :=
  let '(r, self1, msgs1) :=
    match xml with
    | Some text => read self text (default "None" origin)
    | None => (Ok tt, self, [])
    end in
  match r with
  | Raise e => (Raise e, self1, msgs1)
  | Ok _ =>
      match from_dict_ with
      | None => (Ok tt, self1, msgs1)
      | Some ds =>
          let l := match ds with one_dict d => [d] | dict_list l => l end in
          let '(r2, self2, msgs2) := _add_from_dict self1 l in
          (r2, self2, msgs1 ++ info "DbBase: add_new() from_dict" None :: msgs2)
      end
  end.

End AddNew.

End additions.

(** ** layman/db.py: [DB] *)

Module localdb.

Import ET overlay os dbbase upkeep.

(** The entries of [config] that [DB] reads.  [nocheck] and [make_conf] are
    the truth values of the entries. *)
Record Config : Type := {
  local_list : string;
  nocheck : bool;
  quietness : priority_value;
  storage : string;
  make_conf : bool
}.

(** [int(v)] for [None], an integer or a text. *)
Definition int_of_value (v : priority_value) : result Z :=
  match v with
  | PNone => Raise (TypeError "int() argument must be a string or a number, not 'NoneType'")
  | PInt n => Ok n
  | PStr s =>
      match int_of_str s with
      | Some n => Ok n
      | None => Raise (ValueError ("invalid literal for int() with base 10: '" +:+ s +:+ "'"))
      end
  end.

(** The parameters of [DbBase.__init__], after [self]. *)
Definition DbBase_init_parameters : list string :=
  ["config"; "paths"; "ignore"; "ignore_init_read_errors"].

Section DB.

Context `{Externals}.

(** A call [DbBase.__init__(self, config, k1=..., k2=..., ...)] with the
    keyword arguments [keywords]: a keyword that is not a parameter is a
    [TypeError], raised before the body runs. *)
Definition call_DbBase_init (keywords : list string) (c : db_class) (paths_ : list string)
    (ignore_ : Z) (ignore_init_read_errors_ : bool) (fs : FS)
    : result DbBase * list message :=
  match List.find (fun k => negb (bool_decide (k ∈ DbBase_init_parameters))) keywords with
  | Some k =>
      (Raise (TypeError ("__init__() got an unexpected keyword argument '" +:+ k +:+ "'")), [])
  | None => DbBase_init c paths_ ignore_ ignore_init_read_errors_ fs
  end.

(** A [DB] object. *)
Record DB : Type := {
  base : DbBase;
  config : Config;
  path : string
}.

(** [DB.__init__(config)] *)
Definition DB_init (config_ : Config) (fs : FS) : result DB * list message :=
  let start :=
    [debug ("DB.__init__(): config['local_list'] = " +:+ local_list config_) (Some 3)] in
  let ignore_ := if nocheck config_ then 2 else 1 in
  match int_of_value (quietness config_) with
  | Raise e => (Raise e, start)
  | Ok q =>
      match call_DbBase_init ["paths"; "ignore"; "quiet"] class_DB [local_list config_]
                             ignore_ false fs with
      | (Ok d, msgs) =>
          (Ok {| base := d; config := config_; path := local_list config_ |},
           start ++ msgs ++ [debug "DB handler initiated" (Some 6)])
      | (Raise e, msgs) => (Raise e, start ++ msgs)
      end
  end.

(** The object with the entry of [k] deleted from [self.overlays]. *)
Definition without (self : DB) (k : string) : DB :=
  {| base := set_overlays (base self) (delete k (overlays (base self)));
     config := config self; path := path self |}.

End DB.

(** [layman.makeconf.MakeConf], on the state [W] of what the backends act
    on: [MakeConf_new overlays] is the constructor [MakeConf(config,
    overlays)] and [MakeConf_delete overlays overlay] the method
    [delete(overlay)], where [overlays] is what the dictionary shared with
    the [DB] object holds at the time of the call. *)
Class MakeConf (W : Type) : Type := {
  MakeConf_new : gmap string Overlay -> W -> result unit * W;
  MakeConf_delete : gmap string Overlay -> Overlay -> W -> result bool * W
}.

Section Delete.

Context `{Externals} {W : Type} `{Maintainer W} `{MakeConf W}.

(** What [DB.delete] leaves: its result, the object, the file system, the
    state of the backends and the messages sent. *)
Definition deleted : Type := checked bool * DB * FS * W * list message.

(** [DB.delete(overlay)] *)
Definition DB_delete (self : DB) (overlay : Overlay) (f : FS) (w : W) : deleted :=
  if bool_decide (name overlay ∈ keys (overlays (base self))) then
    match MakeConf_new (overlays (base self)) w with
    | (Raise e, w1) => (Done (Raise e), self, f, w1, [])
    | (Ok _, w1) =>
        match Overlay_delete (storage (config self))
                {| overlay.self := overlay; world := w1; overlay.output := [] |} with
        | (AssertionError, st) => (AssertionError, self, f, world st, overlay.output st)
        | (Done (Raise e), st) => (Done (Raise e), self, f, world st, overlay.output st)
        | (Done (Ok _), st) =>
            let self' := without self (name overlay) in
            match write (base self') (path self) f with
            | Raise e => (Done (Raise e), self', f, world st, overlay.output st)
            | Ok f' =>
                match MakeConf_delete (overlays (base self')) overlay (world st) with
                | (Raise e, w3) => (Done (Raise e), self', f', w3, overlay.output st)
                | (Ok _, w3) => (Done (Ok true), self', f', w3, overlay.output st)
                end
            end
        end
    end
  else
    (Done (Ok false), self, f, w,
     [error ("No local overlay named " +:+ dq +:+ name overlay +:+ dq +:+ "!")]).

End Delete.

End localdb.

(** ** layman/overlays/git.py *)

Module git.

Import overlay.

(** [source.split(':')[0]]: the text before the first colon. *)
Fixpoint before_colon (s : string) : string :=
  match s with
  | EmptyString => EmptyString
  | String c r => if Ascii.eqb c ":" then EmptyString else String c (before_colon r)
  end.

(** [source.endswith('/')] *)
Fixpoint endswith_slash (s : string) : bool :=
  match s with
  | EmptyString => false
  | String c EmptyString => Ascii.eqb c "/"
  | String _ r => endswith_slash r
  end.

(** [add], local [fix_git_source]. *)
Definition fix_git_source (source_ : string) : string :=
  if String.eqb (before_colon source_) "http" then
    if endswith_slash source_ then source_ else source_ +:+ "/"
  else source_.

(** The entries of [config] the class reads; [quiet] is the truth value of
    the entry. *)
Record Config : Type := {
  git_addopts : string;
  git_syncopts : string;
  git_user : string;
  git_email : string;
  quiet : bool
}.

(** A [GitOverlay] object: the overlay it belongs to, its location and the
    branch taken from the overlay. *)
Record GitOverlay : Type := {
  parent : Overlay;
  src : string;
  config : Config;
  branch : string
}.

(** [GitOverlay.__init__(parent, config, _location, ignore)] *)
Definition GitOverlay_init (parent_ : Overlay) (config_ : Config) (_location : string)
    : result GitOverlay :=
  match overlay.branch parent_ with
  | Some b => Ok {| parent := parent_; src := _location; config := config_; branch := b |}
  | None => Raise (AttributeError "'Overlay' object has no attribute 'branch'")
  end.

(** What the class inherits and imports, on a state [W] of the machine:
    [command] is [self.command()], [supported] is [self.supported()],
    [run_command args cwd] is [self.run_command(self.command(), args,
    cmd=self.type, cwd=cwd)], [postsync status cwd] is
    [self.postsync(status, cwd=cwd)] and [path] is [layman.utils.path]. *)
Class Shell (W : Type) : Type := {
  supported : W -> bool * W;
  run_command : list string -> string -> W -> result Z * W;
  postsync : Z -> string -> W -> result Z * W;
  path : list string -> string
}.

Section Git.

Context {W : Type} `{Shell W}.

(** What a method leaves: its result, the machine and the messages sent. *)
Definition ran : Type := result Z * W * list message.

Definition quoted (s : string) : string := dq +:+ s +:+ dq.

(** [GitOverlay.set_user(target)] *)
Definition set_user (self : GitOverlay) (target : string) (w : W) : ran :=
  let args := ["config"; "user.name"; quoted (git_user (config self))] in
  let trace := debug ("set git user info...args=" +:+ join " " args) (Some 8) in
  match run_command args target w with
  | (Raise e, w1) => (Raise e, w1, [trace])
  | (Ok failure, w1) =>
      if negb (failure =? 0) then
        (Ok failure, w1, [trace; debug "set git user info...failure setting name" None])
      else
        let args := ["config"; "user.email"; quoted (git_email (config self))] in
        let trace2 := debug ("set git user info...args=" +:+ join " " args) (Some 8) in
        let '(r, w2) := run_command args target w1 in
        (r, w2, [trace; trace2])
  end.

(** The arguments of [git clone] that [add] builds. *)
Definition clone_args (self : GitOverlay) (target : string) : list string :=
  ["clone"] ++
  (if quiet (config self) then ["-q"] else []) ++
  (if bool_decide (git_addopts (config self) = "") then [] else [git_addopts (config self)]) ++
  (if bool_decide (branch self = "") then [] else ["-b"; branch self]) ++
  [fix_git_source (src self); target].

(** [GitOverlay.add(base)] *)
Definition add (self : GitOverlay) (base : string) (w : W) : ran :=
  match supported w with
  | (false, w0) => (Ok 1, w0, [])
  | (true, w0) =>
      let target := path [base; name (parent self)] in
      match run_command (clone_args self target) base w0 with
      | (Raise e, w1) => (Raise e, w1, [])
      | (Ok success, w1) =>
          let trace := debug ("cloned git repo...success=" +:+ str_int success) (Some 8) in
          match set_user self target w1 with
          | (Raise e, w2, msgs) => (Raise e, w2, trace :: msgs)
          | (Ok success, w2, msgs) =>
              let '(r, w3) := postsync success target w2 in
              (r, w3, trace :: msgs)
          end
      end
  end.

(** [GitOverlay.sync(base)] *)
Definition sync (self : GitOverlay) (base : string) (w : W) : ran :=
  let trace := debug ("git.sync(); starting..." +:+ name (parent self)) (Some 6) in
  match supported w with
  | (false, w0) => (Ok 1, w0, [trace])
  | (true, w0) =>
      let target := path [base; name (parent self)] in
      let args :=
        ["pull"] ++
        (if quiet (config self) then ["-q"] else []) ++
        (if bool_decide (git_syncopts (config self) = "") then []
         else [git_syncopts (config self)]) in
      match run_command args target w0 with
      | (Raise e, w1) => (Raise e, w1, [trace])
      | (Ok status_, w1) =>
          let '(r, w2) := postsync status_ target w1 in
          (r, w2, [trace])
      end
  end.

End Git.

End git.

(** * Properties *)

(** ** [Overlay.add] *)

Section AddFacts.

Import overlay.

Context {W : Type} `{Backend W}.

Lemma last_status_raised (res : Z) (os : list (result Z)) :
  Forall raised os -> last_status res os = res.
Proof.
  intros Hos. revert res.
  induction Hos as [|o os Ho _ IH]; intros res; [reflexivity|].
  destruct o as [r|e]; [destruct Ho|]. apply IH.
Qed.

Lemma last_status_app (res : Z) (os os' : list (result Z)) :
  last_status res (os ++ os') = last_status (last_status res os) os'.
Proof. unfold last_status. apply foldl_app. Qed.

Lemma raised_failed (o : result Z) : raised o -> failed o.
Proof. destruct o; simpl; [tauto | auto]. Qed.

(** A run of failed candidates leaves the loop where it would be had it
    started after them, with the status returned last. *)
Lemma add_loop_failed (base : string) (pre rest : list OverlaySource) :
  forall (res : Z) (first_s : bool) (st : add_state) outs w1,
    attempts base pre (world st) = (outs, w1) ->
    Forall failed outs ->
    add_loop base (pre ++ rest) res first_s st =
    add_loop base rest (last_status res outs)
      (first_s && bool_decide (pre = []))
      {| self := self st; world := w1;
         output := output st ++ fallback_log first_s outs |}.
Proof.
  induction pre as [|s pre IH]; intros res first_s st outs w1 Hrun Hall.
  - simpl in Hrun. injection Hrun as <- <-. simpl.
    rewrite andb_true_r, app_nil_r. by destruct st.
  - simpl in Hrun.
    destruct (source_add s base (world st)) as [o w'] eqn:Hs.
    destruct (attempts base pre w') as [os w''] eqn:Hrest.
    injection Hrun as <- <-.
    apply Forall_cons in Hall as [Ho Hos].
    simpl. rewrite Hs.
    destruct o as [r|e]; simpl in Ho.
    + rewrite bool_decide_eq_false_2 by done.
      rewrite (IH r false _ os w'') by done.
      simpl. rewrite andb_false_r.
      destruct first_s; simpl; by rewrite <- ?app_assoc.
    + rewrite Ho.
      rewrite (IH res false _ os w'') by done.
      simpl. rewrite andb_false_r.
      destruct first_s; simpl; by rewrite <- ?app_assoc.
Qed.

(** An exception that is not an [Exception] leaves [add]. *)
Lemma add_loop_not_caught (base : string) (s : OverlaySource) (rest : list OverlaySource)
    (res : Z) (first_s : bool) (st : add_state) (e : exn) (w1 : W) :
  source_add s base (world st) = (Raise e, w1) ->
  is_Exception e = false ->
  fst (add_loop base (s :: rest) res first_s st) = Raise e.
Proof. intros Hs He. simpl. by rewrite Hs, He. Qed.

(** C1.  [add] tries the candidates in the order of [sources].  When the
    candidates of a prefix [pre] all fail and the next one, [s], returns 0,
    [add] returns 0, [sources] is [[s]] and no later candidate is tried: the
    world is the one [s] left.  When all candidates fail, [sources] is
    unchanged and [add] returns the status returned last ([1] when every
    candidate raised); in particular the status of the last candidate when
    that one returned. *)
Theorem add_fallback (base : string) (st : add_state) :
  (forall pre s post outs w1 w2,
      sources (self st) = pre ++ s :: post ->
      attempts base pre (world st) = (outs, w1) ->
      Forall failed outs ->
      source_add s base w1 = (Ok 0, w2) ->
      add base st =
      (Ok 0, {| self := set_sources (self st) [s]; world := w2;
                output := output st ++ fallback_log true outs ++
                          match pre with [] => [] | _ => [trying_next] end |}))
  /\ (forall outs w',
      attempts base (sources (self st)) (world st) = (outs, w') ->
      Forall failed outs ->
      add base st =
      (Ok (last_status 1 outs),
       {| self := self st; world := w'; output := output st ++ fallback_log true outs |})
      /\ (forall os r, outs = os ++ [Ok r] -> last_status 1 outs = r /\ r <> 0)).
Proof.
  split.
  - intros pre s post outs w1 w2 Hsrc Hrun Hall Hs.
    unfold add. rewrite Hsrc.
    rewrite (add_loop_failed base pre (s :: post) 1 true st outs w1) by done.
    simpl. rewrite Hs. simpl.
    destruct pre; simpl; by rewrite <- ?app_assoc, ?app_nil_r.
  - intros outs w' Hrun Hall. split.
    + unfold add.
      rewrite <- (app_nil_r (sources (self st))).
      rewrite (add_loop_failed base _ [] 1 true st outs w') by done.
      reflexivity.
    + intros os r ->. rewrite last_status_app. split; [reflexivity | ].
      apply Forall_app in Hall as [_ Hr]. by inversion Hr.
Qed.

(** C10.  A candidate whose [add] raises an [Exception] is passed over:
    the warning with the exception's text is sent and the loop goes on with
    the next candidate, [res] unchanged.  When every candidate raises, [add]
    returns 1, the object is unchanged and each exception has its warning. *)
Theorem add_exceptions (base : string) (st : add_state) :
  (forall s rest e w1 res first_s,
      source_add s base (world st) = (Raise e, w1) ->
      is_Exception e = true ->
      add_loop base (s :: rest) res first_s st =
      add_loop base rest res false
        {| self := self st; world := w1;
           output := (if first_s then output st else output st ++ [trying_next]) ++
                     [warn (str_exn e) (Some 4)] |})
  /\ (forall outs w',
      attempts base (sources (self st)) (world st) = (outs, w') ->
      Forall raised outs ->
      add base st =
      (Ok 1, {| self := self st; world := w'; output := output st ++ fallback_log true outs |})
      /\ (forall e, Raise e ∈ outs -> warn (str_exn e) (Some 4) ∈ fallback_log true outs)).
Proof.
  split.
  - intros s rest e w1 res first_s Hs He. simpl. by rewrite Hs, He.
  - intros outs w' Hrun Hall. split.
    + unfold add. rewrite <- (app_nil_r (sources (self st))).
      rewrite (add_loop_failed base _ [] 1 true st outs w') by
        (done || (eapply Forall_impl; [exact Hall | apply raised_failed])).
      simpl. by rewrite last_status_raised.
    + clear Hrun Hall. generalize true.
      induction outs as [|o os IH]; intros b e He; [by apply elem_of_nil in He|].
      cbn [fallback_log]. rewrite !elem_of_app.
      apply elem_of_cons in He as [<-|He].
      * right. left. apply list_elem_of_singleton. reflexivity.
      * right. right. by apply IH.
Qed.

End AddFacts.

(** ** Concrete backends and overlays, to run [add] on *)

Module scripted.

Import overlay.

(** A backend world that records the locations [add] was called on, in
    order.  The location decides the outcome: ["ok"] succeeds, ["down"]
    returns status 2, ["broken"] raises, anything else returns 1. *)
#[export] Instance backend : Backend (list string) := {
  source_add s base w :=
    (if bool_decide (src s = "ok") then Ok 0
     else if bool_decide (src s = "down") then Ok 2
     else if bool_decide (src s = "broken") then Raise (Exception "clone failed")
     else Ok 1,
     w ++ [src s])
}.

Definition rsync : SourceClass :=
  {| type_key := "rsync"; type := "Rsync"; init_reads_branch := false |}.

Definition at_ (c : SourceClass) (location : string) : OverlaySource :=
  {| source.class := c; src := location |}.

(** An overlay with the candidates [l]. *)
Definition candidate_overlay (l : list OverlaySource) : Overlay :=
  {| name := "wrobel"; branch := Some ""; subpath := Some ""; sources := l;
     owner_email := Some "nobody@gentoo.org"; owner_name := None;
     description := "Test"; status := Some "official"; quality := "experimental";
     priority := 10; homepage := None; feeds := []; irc := None |}.

Definition fresh (l : list OverlaySource) : @add_state (list string) :=
  {| self := candidate_overlay l; world := []; output := [] |}.

End scripted.

Section AddWitnesses.

Import overlay scripted.

Lemma add_fallback_witness :
  add "/var/lib/layman"
      (fresh [at_ GitOverlay "down"; at_ rsync "broken"; at_ rsync "ok"; at_ GitOverlay "ok"])
  = (Ok 0,
     {| self := candidate_overlay [at_ rsync "ok"];
        world := ["down"; "broken"; "ok"];
        output := [trying_next; warn "clone failed" (Some 4); trying_next] |})
  /\ add "/var/lib/layman" (fresh [at_ rsync "broken"; at_ GitOverlay "down"])
     = (Ok 2,
        {| self := candidate_overlay [at_ rsync "broken"; at_ GitOverlay "down"];
           world := ["broken"; "down"];
           output := [warn "clone failed" (Some 4); trying_next] |}).
Proof.
  split.
  - apply (proj1 (add_fallback "/var/lib/layman"
                    (fresh [at_ GitOverlay "down"; at_ rsync "broken"; at_ rsync "ok";
                            at_ GitOverlay "ok"]))
             [at_ GitOverlay "down"; at_ rsync "broken"] (at_ rsync "ok") [at_ GitOverlay "ok"]
             [Ok 2; Raise (Exception "clone failed")] ["down"; "broken"] ["down"; "broken"; "ok"]).
    + reflexivity.
    + reflexivity.
    + repeat constructor. discriminate.
    + reflexivity.
  - refine (proj1 (proj2 (add_fallback "/var/lib/layman"
                            (fresh [at_ rsync "broken"; at_ GitOverlay "down"]))
                     [Raise (Exception "clone failed"); Ok 2] ["broken"; "down"] _ _)).
    + reflexivity.
    + repeat constructor. discriminate.
Defined.

Lemma add_exceptions_witness :
  add_loop "/var/lib/layman" [at_ rsync "broken"; at_ rsync "ok"] 1 true
      (fresh [at_ rsync "broken"; at_ rsync "ok"])
  = add_loop "/var/lib/layman" [at_ rsync "ok"] 1 false
      {| self := candidate_overlay [at_ rsync "broken"; at_ rsync "ok"];
         world := ["broken"]; output := [warn "clone failed" (Some 4)] |}
  /\ add "/var/lib/layman" (fresh [at_ rsync "broken"; at_ GitOverlay "broken"])
     = (Ok 1,
        {| self := candidate_overlay [at_ rsync "broken"; at_ GitOverlay "broken"];
           world := ["broken"; "broken"];
           output := [warn "clone failed" (Some 4); trying_next;
                      warn "clone failed" (Some 4)] |}).
Proof.
  split.
  - refine (proj1 (add_exceptions "/var/lib/layman"
                     (fresh [at_ rsync "broken"; at_ rsync "ok"]))
              (at_ rsync "broken") [at_ rsync "ok"] (Exception "clone failed")
              ["broken"] 1 true _ _); reflexivity.
  - refine (proj1 (proj2 (add_exceptions "/var/lib/layman"
                            (fresh [at_ rsync "broken"; at_ GitOverlay "broken"]))
                     [Raise (Exception "clone failed"); Raise (Exception "clone failed")]
                     ["broken"; "broken"] _ _)).
    + reflexivity.
    + repeat constructor.
Defined.

End AddWitnesses.

(** ** [Overlay.__eq__] *)

Section EqFacts.

Import overlay.

Context `{Externals}.

(** The overlay [o] with other values in the five fields named. *)
Definition with_uncompared (o : Overlay) (quality_ : string) (feeds_ : list string)
    (irc_ branch_ subpath_ : option string) : Overlay :=
  {| name := name o; branch := branch_; subpath := subpath_; sources := sources o;
     owner_email := owner_email o; owner_name := owner_name o;
     description := description o; status := status o; quality := quality_;
     priority := priority o; homepage := homepage o; feeds := feeds_; irc := irc_ |}.

(** The two source lists hold the same sources: each source of either list
    is found in both. *)
Definition same_sources (a b : Overlay) : Prop :=
  forall i, i ∈ sources a ++ sources b ->
            contains i (sources a) = true /\ contains i (sources b) = true.

Lemma Overlay_eq_true (a b : Overlay) :
  Overlay_eq a b = true <->
  description a = description b /\ homepage a = homepage b /\ name a = name b /\
  owner_email a = owner_email b /\ owner_name a = owner_name b /\
  priority a = priority b /\ status a = status b /\ same_sources a b.
Proof.
  unfold Overlay_eq, same_sources.
  repeat (case_bool_decide; simpl; [|split; [discriminate | tauto]]).
  rewrite forallb_forall. split.
  - intros Hin. repeat (split; [done|]). intros i Hi.
    apply andb_true_iff, Hin, list_elem_of_In, Hi.
  - intros (_ & _ & _ & _ & _ & _ & _ & Hin) i Hi.
    apply andb_true_iff, Hin, list_elem_of_In, Hi.
Qed.

(** C9.  Two overlays are equal exactly when they agree on [description],
    [homepage], [name], [owner_email], [owner_name], [priority] and [status]
    and their source lists hold the same sources.  The fields [quality],
    [feeds], [irc], [branch] and [subpath] play no part: changing them in
    either overlay does not change the answer. *)
Theorem Overlay_eq_compares (a b : Overlay) :
  (Overlay_eq a b = true <->
   description a = description b /\ homepage a = homepage b /\ name a = name b /\
   owner_email a = owner_email b /\ owner_name a = owner_name b /\
   priority a = priority b /\ status a = status b /\ same_sources a b)
  /\ (forall q q' fd fd' ir ir' br br' sp sp',
         Overlay_eq (with_uncompared a q fd ir br sp) (with_uncompared b q' fd' ir' br' sp')
         = Overlay_eq a b).
Proof.
  split; [apply Overlay_eq_true | reflexivity].
Qed.

End EqFacts.

(** ** [DbBase]: loading, merging and selecting *)

Section StoreFacts.

Import ET overlay os dbbase.

Context `{Externals}.

(** [self.overlays[ovl.name] = ovl] *)
Definition store_overlay (m : gmap string Overlay) (o : Overlay) : gmap string Overlay :=
  <[name o := o]> m.

(** The overlays [os] are what [from_xml] makes of the nodes, one by one. *)
Definition parsed (ign : Z) (nodes : list Element) (os : list Overlay) : Prop :=
  Forall2 (fun node o => (from_xml node ign).2 = Ok o) nodes os.

(** The last overlay of [os] named [k]. *)
Definition last_named (k : string) (os : list Overlay) : option Overlay :=
  last (List.filter (fun o => bool_decide (name o = k)) os).

(** Every entry of the dictionary is stored under its entity's name. *)
Definition keyed (m : gmap string Overlay) : Prop :=
  forall k o, m !! k = Some o -> name o = k.

Lemma last_named_snoc (k : string) (os : list Overlay) (o : Overlay) :
  last_named k (os ++ [o]) =
  if bool_decide (name o = k) then Some o else last_named k os.
Proof.
  unfold last_named. rewrite List.filter_app. simpl.
  case_bool_decide; [apply last_snoc | by rewrite app_nil_r].
Qed.

Lemma last_named_name (k : string) (os : list Overlay) (o : Overlay) :
  last_named k os = Some o -> name o = k /\ o ∈ os.
Proof.
  induction os as [|o' os IH] using rev_ind; [discriminate|].
  rewrite last_named_snoc. case_bool_decide.
  - intros [= ->]. split; [done|]. apply elem_of_app. right. apply list_elem_of_singleton. done.
  - intros Hl. destruct (IH Hl) as [? ?]. split; [done|]. apply elem_of_app. by left.
Qed.

Lemma last_named_none (k : string) (os : list Overlay) :
  last_named k os = None <-> forall o, o ∈ os -> name o <> k.
Proof.
  induction os as [|o' os IH] using rev_ind.
  - split; [|done]. intros _ o Ho. by apply elem_of_nil in Ho.
  - rewrite last_named_snoc. case_bool_decide as Hk.
    + split; [discriminate|]. intros Hall. destruct (Hall o'); [|done].
      apply elem_of_app. right. by apply list_elem_of_singleton.
    + rewrite IH. split.
      * intros Hall o Ho. apply elem_of_app in Ho as [Ho|Ho]; [by apply Hall|].
        apply list_elem_of_singleton in Ho. by subst.
      * intros Hall o Ho. apply Hall, elem_of_app. by left.
Qed.

(** Storing the overlays [os] one after the other: a name is bound to the
    last overlay of [os] that carries it, and keeps its entry otherwise. *)
Lemma lookup_store_overlays (m : gmap string Overlay) (os : list Overlay) (k : string) :
  foldl store_overlay m os !! k =
  match last_named k os with
  | Some o => Some o
  | None => m !! k
  end.
Proof.
  induction os as [|o os IH] using rev_ind; [reflexivity|].
  rewrite foldl_app, last_named_snoc. simpl. unfold store_overlay at 1.
  case_bool_decide as Hk.
  - subst k. apply lookup_insert_eq.
  - by rewrite lookup_insert_ne.
Qed.

Lemma keyed_store_overlays (m : gmap string Overlay) (os : list Overlay) :
  keyed m -> keyed (foldl store_overlay m os).
Proof.
  intros Hm k o. rewrite lookup_store_overlays.
  destruct (last_named k os) as [o'|] eqn:Hl.
  - intros [= ->]. by apply last_named_name in Hl as [? _].
  - apply Hm.
Qed.

Lemma read_nodes_ok (ign : Z) (nodes : list Element) :
  forall m m' msgs,
    read_nodes ign nodes m = (Ok tt, m', msgs) ->
    exists os, parsed ign nodes os /\ m' = foldl store_overlay m os.
Proof.
  induction nodes as [|node nodes IH]; intros m m' msgs Hr; simpl in Hr.
  - injection Hr as <- _. exists []. split; [constructor | reflexivity].
  - destruct (from_xml node ign) as [l [o|e]] eqn:Hnode; [|discriminate].
    destruct (read_nodes ign nodes (<[name o:=o]> m)) as [[r m''] l'] eqn:Hrest.
    injection Hr as -> -> _.
    destruct (IH _ _ _ Hrest) as (os & Hos & ->).
    exists (o :: os). split; [|reflexivity].
    constructor; [by rewrite Hnode | done].
Qed.

(** A [read] that returns has parsed every overlay node of the document and
    stored the overlays in order. *)
Lemma read_ok (self self' : DbBase) (text origin : string) (msgs : list message) :
  read self text origin = (Ok tt, self', msgs) ->
  exists document os,
    ET_fromstring text = inr document /\
    parsed (ignore self) (overlay_nodes document) os /\
    self' = set_overlays self (foldl store_overlay (overlays self) os).
Proof.
  unfold read. destruct (ET_fromstring text) as [err|document].
  - destruct (_broken_catalog_hint _); discriminate.
  - destruct (read_nodes _ _ _) as [[r m] l] eqn:Hr.
    intros [= -> <- <-].
    destruct (read_nodes_ok _ _ _ _ _ Hr) as (os & Hos & ->).
    by exists document, os.
Qed.

Lemma read_file_ok (self self' : DbBase) (path : string) (fs : FS) (msgs : list message) :
  dbbase.read_file self path fs = (Ok tt, self', msgs) ->
  exists text, files fs !! path = Some text /\ read self text path = (Ok tt, self', msgs).
Proof.
  unfold dbbase.read_file, os.read_file.
  destruct (files fs !! path) as [text|]; [by exists text|].
  simpl. destruct (ignore_init_read_errors self); discriminate.
Qed.

Lemma read_file_keyed (self self' : DbBase) (path : string) (fs : FS) (msgs : list message) :
  dbbase.read_file self path fs = (Ok tt, self', msgs) ->
  keyed (overlays self) -> keyed (overlays self').
Proof.
  intros Hr Hk. apply read_file_ok in Hr as (text & _ & Hr).
  apply read_ok in Hr as (document & os & _ & _ & ->).
  simpl. by apply keyed_store_overlays.
Qed.

Lemma init_paths_keyed (l : list string) (fs : FS) :
  forall self path_found r self' msgs,
    init_paths self l path_found fs = (Ok r, self', msgs) ->
    keyed (overlays self) -> keyed (overlays self').
Proof.
  induction l as [|path l IH]; intros self path_found r self' msgs Hi Hk; simpl in Hi.
  - by injection Hi as _ <- _.
  - destruct (path_exists path fs); simpl in Hi; [|by eapply IH].
    destruct (dbbase.read_file self path fs) as [[[[]|e] self1] msgs1] eqn:Hr; [|discriminate].
    destruct (init_paths self1 l true fs) as [[r2 self2] msgs2] eqn:Hrest.
    injection Hi as -> -> _.
    eapply IH; [exact Hrest|]. by eapply read_file_keyed.
Qed.

(** After [__init__] every overlay is stored under its own name. *)
Lemma DbBase_init_keyed (c : db_class) (l : list string) (ign : Z) (iire : bool)
    (fs : FS) (db : DbBase) (msgs : list message) :
  DbBase_init c l ign iire fs = (Ok db, msgs) -> keyed (overlays db).
Proof.
  unfold DbBase_init.
  destruct (init_paths _ l false fs) as [[[b|e] self'] l'] eqn:Hi; [|discriminate].
  intros [= <- _]. eapply init_paths_keyed; [exact Hi|].
  intros k o Hl. simpl in Hl. by rewrite lookup_empty in Hl.
Qed.

Lemma elem_of_keys (m : gmap string Overlay) (k : string) :
  k ∈ keys m <-> is_Some (m !! k).
Proof.
  unfold keys. rewrite list_elem_of_fmap. split.
  - intros ([k' o] & -> & Hin). apply elem_of_map_to_list in Hin. by exists o.
  - intros [o Ho]. exists (k, o). split; [done|]. by apply elem_of_map_to_list.
Qed.

(** C8.  On a store that [__init__] has loaded, [select] of a name the
    store holds returns the entity stored under it, and that entity's
    [name] is the name asked for; [select] of any other name raises
    [UnknownOverlayException] for that name, whose text names it, after
    traces that name it and list the known names. *)
Theorem select_after_load (c : db_class) (l : list string) (ign : Z) (iire : bool)
    (fs : FS) (db : DbBase) (msgs : list message) (overlay : string) :
  DbBase_init c l ign iire fs = (Ok db, msgs) ->
  (forall o, overlays db !! overlay = Some o ->
             select db overlay =
             (Ok o, [debug ("DbBase.select(), overlay = " +:+ overlay) (Some 5)])
             /\ name o = overlay)
  /\ (overlays db !! overlay = None ->
      select db overlay =
      (Raise (UnknownOverlayException overlay),
       [debug ("DbBase.select(), overlay = " +:+ overlay) (Some 5);
        debug ("DbBase.select(), unknown overlay = " +:+ overlay) (Some 4);
        debug ("DbBase.select(), known overlays = " +:+ join ", " (keys (overlays db)))
              (Some 4)])
      /\ str_exn (UnknownOverlayException overlay) =
         "Exception: Overlay " +:+ dq +:+ overlay +:+ dq +:+ " does not exist.").
Proof.
  intros Hinit. apply DbBase_init_keyed in Hinit. split.
  - intros o Ho. split; [|by apply Hinit].
    unfold select. rewrite bool_decide_eq_true_2; [by rewrite Ho|].
    apply elem_of_keys. by exists o.
  - intros Hnone. split; [|reflexivity].
    unfold select. rewrite bool_decide_eq_false_2; [reflexivity|].
    rewrite elem_of_keys, Hnone. by intros [? ?].
Qed.

(** C4.  Loading two documents, the file at [p1] and then the file at [p2]:
    every overlay node of both is parsed, and a name that an overlay of the
    second document carries is bound to an overlay parsed from the second
    document (the last one of that name), whatever the first document says;
    a name that no overlay of the second document carries keeps what the
    first document gave it. *)
Theorem load_later_document_wins (c : db_class) (p1 p2 : string) (ign : Z) (iire : bool)
    (fs : FS) (t1 t2 : string) (d1 d2 : Element) (db : DbBase) (msgs : list message) :
  files fs !! p1 = Some t1 -> files fs !! p2 = Some t2 ->
  ET_fromstring t1 = inr d1 -> ET_fromstring t2 = inr d2 ->
  DbBase_init c [p1; p2] ign iire fs = (Ok db, msgs) ->
  exists os1 os2,
    parsed ign (overlay_nodes d1) os1 /\ parsed ign (overlay_nodes d2) os2 /\
    (forall X o1 o2, o1 ∈ os1 -> o2 ∈ os2 -> name o1 = X -> name o2 = X ->
        exists o, overlays db !! X = Some o /\ o ∈ os2 /\ last_named X os2 = Some o) /\
    (forall Y, (forall o2, o2 ∈ os2 -> name o2 <> Y) ->
        overlays db !! Y = last_named Y os1).
Proof.
  intros Hf1 Hf2 Hd1 Hd2.
  assert (path_exists p1 fs = true) as He1
    by (unfold path_exists; rewrite bool_decide_eq_true_2; by eauto).
  assert (path_exists p2 fs = true) as He2
    by (unfold path_exists; rewrite bool_decide_eq_true_2; by eauto).
  unfold DbBase_init. cbn [init_paths]. rewrite He1. cbn [negb].
  destruct (dbbase.read_file _ p1 fs) as [[[[]|e1] self1] l1] eqn:Hr1; [|discriminate].
  rewrite He2. cbn [negb].
  destruct (dbbase.read_file self1 p2 fs) as [[[[]|e2] self2] l2] eqn:Hr2; [|discriminate].
  intros [= <- _].
  apply read_file_ok in Hr1 as (t1' & Ht1 & Hr1).
  apply read_file_ok in Hr2 as (t2' & Ht2 & Hr2).
  assert (t1' = t1) as -> by congruence. assert (t2' = t2) as -> by congruence.
  apply read_ok in Hr1 as (d1' & os1 & Hd1' & Hos1 & ->).
  apply read_ok in Hr2 as (d2' & os2 & Hd2' & Hos2 & ->).
  assert (d1' = d1) as -> by congruence. assert (d2' = d2) as -> by congruence.
  simpl in *. exists os1, os2. split; [done|]. split; [done|]. split.
  - intros X o1 o2 _ Ho2 _ Hn2. rewrite lookup_store_overlays.
    destruct (last_named X os2) as [o|] eqn:Hl.
    + exists o. split; [done|]. split; [|done]. by apply last_named_name in Hl as [_ ?].
    + exfalso. eapply last_named_none in Hl; [|exact Ho2]. done.
  - intros Y HY. rewrite !lookup_store_overlays.
    apply last_named_none in HY. rewrite HY, lookup_empty.
    by destruct (last_named Y os1).
Qed.

End StoreFacts.

(** ** [DbBase.__eq__] *)

Section StoreEqFacts.

Import overlay dbbase.

Context `{Externals}.

(** What a set built from a list holds: the elements of the list.  The
    order of iteration is left open. *)
Definition set_list_sound : Prop :=
  forall (l : list string) (x : string), x ∈ set_list l <-> x ∈ l.

(** The two stores hold the same names. *)
Definition same_keys (a b : DbBase) : Prop :=
  forall k, is_Some (overlays a !! k) <-> is_Some (overlays b !! k).

(** The name [k] is in exactly one of the two stores. *)
Definition in_one_only (a b : DbBase) (k : string) : Prop :=
  (is_Some (overlays a !! k) /\ overlays b !! k = None) \/
  (overlays a !! k = None /\ is_Some (overlays b !! k)).

(** Every name both stores hold is bound to equal entities. *)
Definition equal_entities (a b : DbBase) : Prop :=
  forall k oa ob, overlays a !! k = Some oa -> overlays b !! k = Some ob ->
                  Overlay_eq oa ob = true.

Lemma eq_keys_true (l : list string) (a b : gmap string Overlay) :
  eq_keys l a b = Ok true <->
  Forall (fun k => exists oa ob, a !! k = Some oa /\ b !! k = Some ob /\
                                 Overlay_eq oa ob = true) l.
Proof.
  induction l as [|k l IH]; simpl.
  - split; [constructor | done].
  - rewrite Forall_cons, <- IH. unfold Overlay_ne.
    destruct (a !! k) as [oa|]; [|split; [discriminate | by intros [(? & ? & ? & _) _]]].
    destruct (b !! k) as [ob|]; [|split; [discriminate | by intros [(? & ? & _ & ? & _) _]]].
    destruct (Overlay_eq oa ob) eqn:He; simpl.
    + split; [intros Hl; split; [by exists oa, ob | done] | by intros [_ ?]].
    + split; [discriminate|]. intros [(? & ? & [= <-] & [= <-] & Ht) _]. congruence.
Qed.

(** What the loop answers when it does not answer [True]: [False] at a
    name bound to unequal entities, or a [KeyError] at a name one of the
    dictionaries lacks. *)
Lemma eq_keys_other (l : list string) (a b : gmap string Overlay) :
  match eq_keys l a b with
  | Ok true => True
  | Ok false => exists k oa ob, k ∈ l /\ a !! k = Some oa /\ b !! k = Some ob /\
                                Overlay_eq oa ob = false
  | Raise e => exists k, e = KeyError k /\ k ∈ l /\ (a !! k = None \/ b !! k = None)
  end.
Proof.
  induction l as [|k l IH]; simpl; [done|]. unfold Overlay_ne.
  destruct (a !! k) as [oa|] eqn:Ha;
    [|exists k; split; [done|]; split; [apply list_elem_of_here | by left]].
  destruct (b !! k) as [ob|] eqn:Hb;
    [|exists k; split; [done|]; split; [apply list_elem_of_here | by right]].
  destruct (Overlay_eq oa ob) eqn:He; simpl.
  - destruct (eq_keys l a b) as [[|]|e]; [done| |].
    + destruct IH as (k' & oa' & ob' & Hin & ?). exists k', oa', ob'.
      split; [by apply list_elem_of_further | done].
    + destruct IH as (k' & -> & Hin & ?). exists k'.
      split; [done|]. split; [by apply list_elem_of_further | done].
  - exists k, oa, ob. split; [apply list_elem_of_here | done].
Qed.

Lemma elem_of_both_keys (a b : DbBase) (k : string) :
  set_list_sound ->
  k ∈ set_list (keys (overlays a) ++ keys (overlays b)) <->
  is_Some (overlays a !! k) \/ is_Some (overlays b !! k).
Proof.
  intros Hset. rewrite (Hset _ k), elem_of_app.
  unfold keys. rewrite !list_elem_of_fmap. split.
  - intros [([k' o] & -> & Hin)|([k' o] & -> & Hin)];
      apply elem_of_map_to_list in Hin; [left | right]; by exists o.
  - intros [[o Ho]|[o Ho]]; [left | right];
      (exists (k, o); split; [done | by apply elem_of_map_to_list]).
Qed.

(** C7, as the code has it.  For two stores with the same names, [==]
    returns, and returns [True] exactly when every name is bound to equal
    entities.  When some name is in one store only, [==] never returns
    [True]: it raises the [KeyError] of a name that one store lacks, unless
    the loop first meets a name bound to unequal entities, where it returns
    [False]; it does raise when all the names both stores hold are bound to
    equal entities. *)
Theorem DbBase_eq_answers (a b : DbBase) :
  set_list_sound ->
  (same_keys a b ->
   (exists r, DbBase_eq a b = Ok r) /\
   (DbBase_eq a b = Ok true <-> equal_entities a b))
  /\ (forall k, in_one_only a b k ->
      DbBase_eq a b <> Ok true /\
      ((exists k', DbBase_eq a b = Raise (KeyError k') /\ in_one_only a b k') \/
       (DbBase_eq a b = Ok false /\ ~ equal_entities a b)) /\
      (equal_entities a b ->
       exists k', DbBase_eq a b = Raise (KeyError k') /\ in_one_only a b k')).
Proof.
  intros Hset. unfold DbBase_eq.
  set (l := set_list (keys (overlays a) ++ keys (overlays b))).
  assert (forall k, k ∈ l <-> is_Some (overlays a !! k) \/ is_Some (overlays b !! k)) as Hl
    by (intros k; by apply elem_of_both_keys).
  assert (forall k', k' ∈ l -> overlays a !! k' = None \/ overlays b !! k' = None ->
                     in_one_only a b k') as Hone.
  { intros k' Hin Hnone. apply Hl in Hin. unfold in_one_only.
    destruct Hnone as [Hn|Hn]; rewrite Hn in *; destruct Hin as [[? ?]|?]; auto; done. }
  assert (eq_keys l (overlays a) (overlays b) = Ok true -> equal_entities a b) as Htrue.
  { intros Ht k oa ob Ha Hb. apply eq_keys_true in Ht.
    rewrite Forall_forall in Ht. destruct (Ht k) as (oa' & ob' & Ha' & Hb' & He).
    - apply Hl. left. by exists oa.
    - congruence. }
  pose proof (eq_keys_other l (overlays a) (overlays b)) as Hother.
  split.
  - intros Hsame. split.
    + destruct (eq_keys l _ _) as [r|e]; [by exists r|].
      destruct Hother as (k' & _ & Hin & Hnone). exfalso.
      apply Hl in Hin. destruct Hnone as [Hn|Hn].
      * assert (is_Some (overlays a !! k')) as [? ?]; [|congruence].
        destruct Hin; [done | by apply Hsame].
      * assert (is_Some (overlays b !! k')) as [? ?]; [|congruence].
        destruct Hin; [by apply Hsame | done].
    + split; [exact Htrue|]. intros Heq. apply eq_keys_true, Forall_forall.
      intros k Hin. apply Hl in Hin.
      assert (is_Some (overlays a !! k) /\ is_Some (overlays b !! k)) as [[oa Ha] [ob Hb]].
      { destruct Hin; split; try done; by apply Hsame. }
      exists oa, ob. split; [done|]. split; [done|]. by eapply Heq.
  - intros k Hk.
    assert (eq_keys l (overlays a) (overlays b) <> Ok true) as Hnot.
    { intros Ht. apply eq_keys_true in Ht. rewrite Forall_forall in Ht.
      destruct (Ht k) as (oa & ob & Ha & Hb & _).
      - apply Hl. destruct Hk as [[? _]|[_ ?]]; auto.
      - destruct Hk as [[_ ?]|[? _]]; congruence. }
    split; [exact Hnot|].
    destruct (eq_keys l _ _) as [[|]|e]; [done| |].
    + destruct Hother as (k' & oa & ob & _ & Ha & Hb & He).
      assert (~ equal_entities a b) as Hne.
      { intros Heq. rewrite (Heq _ _ _ Ha Hb) in He. discriminate. }
      split; [by right | done].
    + destruct Hother as (k' & -> & Hin & Hnone).
      split; [left|intros _]; exists k'; (split; [done | by apply Hone]).
Qed.

End StoreEqFacts.

(** ** [RemoteDB.cache] *)

Section CacheFacts.

Import ET overlay os dbbase db.

Context `{Externals} `{Host}.

Lemma cache_loop_app (pre l : list string) :
  forall self vars,
    cache_loop self (pre ++ l) vars =
    match cache_loop self pre vars with
    | (Ok vars', self') => cache_loop self' l vars'
    | (Raise e, self') => (Raise e, self')
    end.
Proof.
  induction pre as [|url pre IH]; intros self vars; simpl; [reflexivity|].
  destruct (cache_url self url vars) as [[vars'|e] self']; [apply IH | reflexivity].
Qed.

(** [makedirs] creates no file and changes no file. *)
Lemma makedirs_files (d : string) (f f' : FS) :
  makedirs d f = Ok f' -> files f' = files f /\ readonly f' = readonly f.
Proof. unfold makedirs. case_bool_decide; [discriminate|]. by intros [= <-]. Qed.

(** A body that [read] rejects: [commit] raises and no file has changed. *)
Lemma commit_unparsable (self : RemoteDB) (url : string) (vars : locals)
    (ts : option string) (body : string) (e : exn) (d : DbBase) (msgs : list message) :
  read (store self) body url = (Raise e, d, msgs) ->
  exists e' self',
    commit self url vars ts body = (Raise e', self') /\ files (fs self') = files (fs self).
Proof.
  intros Hread. unfold commit. cbn [fs say update store].
  match goal with
  | |- context [if ?c then makedirs ?d ?f else Ok ?f] =>
      destruct (if c then makedirs d f else Ok f) as [fs1|e1] eqn:Hdir
  end.
  - assert (files fs1 = files (fs self)) as Hfiles.
    { destruct (negb _); [by apply makedirs_files in Hdir as [? _] | by injection Hdir as <-]. }
    rewrite Hread. destruct (is_Exception e); eexists _, _; (split; [reflexivity | exact Hfiles]).
  - eexists _, _. split; reflexivity.
Qed.

(** C2.  When the iteration for a configured URL is reached (the URLs before
    it went through), the cache file may be written, the server answers with
    a body, and [read] rejects that body, then [cache] raises and every
    file, the cache file of that URL among them, holds what it held when the
    iteration began. *)
Theorem cache_unparsable_raises (self self1 : RemoteDB) (pre post : list string)
    (url : string) (vars : locals) (since : option string) (ts : option (option string))
    (headers : gmap string string) (body : string) (e : exn) (d : DbBase)
    (msgs : list message) :
  urls self = pre ++ url :: post ->
  cache_loop self pre {| has_updates := false; timestamp := None |} = (Ok vars, self1) ->
  previous_timestamp self1 url vars = Ok (since, ts) ->
  (check_path [mpath self1 url] (fs self1)).1 = true ->
  urlopen url since = Response headers body ->
  read (store self1) body url = (Raise e, d, msgs) ->
  exists e' self',
    cache self = (Raise e', self') /\
    files (fs self') = files (fs self1) /\
    files (fs self') !! mpath self url = files (fs self1) !! mpath self url.
Proof.
  intros Hurls Hpre Hprev Hcheck Hfetch Hread.
  unfold cache. rewrite Hurls, cache_loop_app, Hpre. cbn [cache_loop].
  unfold cache_url.
  change (previous_timestamp (say self1 _) url vars) with (previous_timestamp self1 url vars).
  rewrite Hprev.
  change (check_path [mpath (say self1 _) url] (fs (say self1 _)))
    with (check_path [mpath self1 url] (fs self1)).
  destruct (check_path [mpath self1 url] (fs self1)) as [is_ok cmsgs].
  simpl in Hcheck. subst is_ok. cbn [negb]. rewrite Hfetch.
  match goal with
  | |- context [commit ?s url ?v ?t body] =>
      destruct (commit_unparsable s url v t body e d msgs) as (e' & self' & Hc & Hf);
        [exact Hread | rewrite Hc]
  end.
  exists e', self'. split; [reflexivity|]. split; [exact Hf | by rewrite Hf].
Qed.

Lemma mpath_update (self : RemoteDB) (d : DbBase) (f : FS) (m : list message) (url : string) :
  mpath (update self d f m) url = mpath self url.
Proof. reflexivity. Qed.

Lemma tpath_update (self : RemoteDB) (d : DbBase) (f : FS) (m : list message) (url : string) :
  tpath (update self d f m) url = tpath self url.
Proof. reflexivity. Qed.

Lemma append_suffix_ne (f a b : string) : a <> b -> f +:+ a <> f +:+ b.
Proof. intros Hab. induction f as [|c f IH]; simpl; [done | by intros [= ?]]. Qed.

(** The content file and the sidecar of a URL are two files. *)
Lemma mpath_ne_tpath (self : RemoteDB) (url : string) : mpath self url <> tpath self url.
Proof. unfold mpath, tpath. by apply append_suffix_ne. Qed.

Lemma write_file_ok (p c : string) (f : FS) :
  p ∉ readonly f -> p ∉ dirs f ->
  write_file p c f =
  Ok {| files := <[p := c]> (files f); dirs := dirs f; readonly := readonly f |}.
Proof.
  intros Hr Hd. unfold write_file. by rewrite !bool_decide_eq_false_2.
Qed.

(** The storage directory of a URL exists or can be created. *)
Definition storage_ready (self : RemoteDB) (url : string) : Prop :=
  path_exists (dirname (mpath self url)) (fs self) = true \/
  dirname (mpath self url) ∉ readonly (fs self).

(** The path [p] can be opened for writing, also once the storage directory
    of [url] is there. *)
Definition can_write (self : RemoteDB) (url p : string) : Prop :=
  (p ∉ readonly (fs self)) /\ (p ∉ dirs (fs self)) /\ p <> dirname (mpath self url).

Lemma storage_made (self : RemoteDB) (url : string) :
  storage_ready self url ->
  exists fs1,
    (if negb (path_exists (dirname (mpath self url)) (fs self))
     then makedirs (dirname (mpath self url)) (fs self) else Ok (fs self)) = Ok fs1 /\
    files fs1 = files (fs self) /\
    forall p, can_write self url p -> (p ∉ readonly fs1) /\ (p ∉ dirs fs1).
Proof.
  intros Hready.
  destruct (path_exists (dirname (mpath self url)) (fs self)) eqn:Hex; simpl.
  - exists (fs self). split; [done|]. split; [done|]. intros p (? & ? & _). by split.
  - destruct Hready as [?|Hw]; [congruence|]. unfold makedirs.
    rewrite bool_decide_eq_false_2 by done. eexists. split; [reflexivity|].
    split; [reflexivity|]. intros p (? & ? & ?). simpl. split; [done|].
    rewrite not_elem_of_union, not_elem_of_singleton. by split.
Qed.

(** [cache_url] once the sidecar has been looked at: the check of the cache
    file, then the request. *)
Lemma cache_url_fetch (self : RemoteDB) (url : string) (vars : locals)
    (since : option string) (ts : option (option string)) :
  previous_timestamp self url vars = Ok (since, ts) ->
  (check_path [mpath self url] (fs self)).1 = true ->
  forall headers body,
    urlopen url since = Response headers body ->
    cache_url self url vars =
    commit (say (say self [debug "Generating cache path." (Some 6)])
                (check_path [mpath self url] (fs self)).2)
           url {| has_updates := has_updates vars; timestamp := ts |}
           (response_timestamp headers) body.
Proof.
  intros Hprev Hcheck headers body Hfetch. unfold cache_url.
  change (previous_timestamp (say self _) url vars) with (previous_timestamp self url vars).
  rewrite Hprev.
  change (check_path [mpath (say self _) url] (fs (say self _)))
    with (check_path [mpath self url] (fs self)).
  destruct (check_path [mpath self url] (fs self)) as [is_ok cmsgs].
  simpl in Hcheck. subst is_ok. cbn [negb]. by rewrite Hfetch.
Qed.

(** A [commit] that returns has written the body to the content file. *)
Lemma commit_Ok_inv (self self' : RemoteDB) (url : string) (vars vars' : locals)
    (ts : option string) (body : string) :
  commit self url vars ts body = (Ok vars', self') ->
  has_updates vars' = true /\ files (fs self') !! mpath self url = Some body.
Proof.
  unfold commit, say. cbn [fs update store]. rewrite ?mpath_update, ?tpath_update.
  match goal with
  | |- context [if ?c then makedirs ?d ?f else Ok ?f] =>
      destruct (if c then makedirs d f else Ok f) as [fs1|e1]; [|discriminate]
  end.
  destruct (read (store self) body url) as [[[[]|e] d] msgs];
    [|destruct (is_Exception e); discriminate].
  unfold write_file at 1.
  destruct (_ || _); [discriminate|].
  destruct ts as [t|].
  - unfold write_file. cbn [readonly dirs files]. destruct (_ || _); [discriminate|].
    intros [= <- <-]. split; [reflexivity|]. cbn [fs update files]. rewrite ?mpath_update, ?tpath_update.
    rewrite lookup_insert_ne by (apply not_eq_sym, mpath_ne_tpath).
    apply lookup_insert_eq.
  - intros [= <- <-]. split; [reflexivity|]. cbn [fs update files]. rewrite ?mpath_update, ?tpath_update.
    apply lookup_insert_eq.
Qed.

(** A [commit] of a body that [read] accepts, when the files can be
    written: the content file holds the body, the sidecar holds the
    timestamp of the response when it has one and is left alone otherwise,
    and [has_updates] is set. *)
Lemma commit_ok (self : RemoteDB) (url : string) (vars : locals)
    (ts : option string) (body : string) (d : DbBase) (msgs : list message) :
  storage_ready self url ->
  can_write self url (mpath self url) ->
  can_write self url (tpath self url) ->
  read (store self) body url = (Ok tt, d, msgs) ->
  exists self',
    commit self url vars ts body =
    (Ok {| has_updates := true; timestamp := Some ts |}, self') /\
    store self' = d /\
    files (fs self') !! mpath self url = Some body /\
    files (fs self') !! tpath self url =
    match ts with
    | Some t => Some t
    | None => files (fs self) !! tpath self url
    end.
Proof.
  intros Hready Hm Ht Hread.
  destruct (storage_made self url Hready) as (fs1 & Hdir & Hfiles & Hw).
  destruct (Hw _ Hm) as [Hm1 Hm2]. destruct (Hw _ Ht) as [Ht1 Ht2].
  unfold commit, say. cbn [fs update store]. rewrite ?mpath_update, ?tpath_update.
  rewrite Hdir, Hread, (write_file_ok _ _ fs1) by done.
  destruct ts as [t|].
  - rewrite write_file_ok by done. eexists. split; [reflexivity|].
    cbn [fs update files store]. rewrite ?mpath_update, ?tpath_update. split; [done|]. split.
    + rewrite lookup_insert_ne by (apply not_eq_sym, mpath_ne_tpath).
      apply lookup_insert_eq.
    + apply lookup_insert_eq.
  - eexists. split; [reflexivity|]. cbn [fs update files store]. rewrite ?mpath_update, ?tpath_update. split; [done|]. split.
    + apply lookup_insert_eq.
    + rewrite lookup_insert_ne by apply mpath_ne_tpath. by rewrite Hfiles.
Qed.

(** The iteration for [url] fetched a body and wrote it to the content
    file. *)
Definition fresh_update (self : RemoteDB) (url : string) (vars : locals) : Prop :=
  exists vars' self' since ts headers body,
    cache_url self url vars = (Ok vars', self') /\
    previous_timestamp self url vars = Ok (since, ts) /\
    (check_path [mpath self url] (fs self)).1 = true /\
    urlopen url since = Response headers body /\
    files (fs self') !! mpath self url = Some body.

(** An iteration answered with 304 writes nothing. *)
Lemma cache_url_not_modified (self : RemoteDB) (url : string) (vars : locals)
    (t msg : string) :
  files (fs self) !! tpath self url = Some t ->
  urlopen url (Some t) = HTTPError 304 msg ->
  exists self',
    cache_url self url vars =
    (Ok {| has_updates := has_updates vars; timestamp := Some (Some t) |}, self') /\
    fs self' = fs self /\ store self' = store self.
Proof.
  intros Hside Hfetch. unfold cache_url.
  change (previous_timestamp (say self _) url vars) with (previous_timestamp self url vars).
  unfold previous_timestamp, path_exists, os.read_file. rewrite Hside.
  rewrite bool_decide_eq_true_2 by eauto. cbn [orb].
  match goal with |- context [check_path ?l ?f] => destruct (check_path l f) as [is_ok cmsgs] end.
  destruct is_ok; cbn [negb].
  - rewrite Hfetch. rewrite bool_decide_eq_true_2 by done.
    eexists. split; [reflexivity|]. split; reflexivity.
  - eexists. split; [reflexivity|]. split; reflexivity.
Qed.

(** One iteration sets [has_updates] exactly when it is a fresh update, and
    never clears it. *)
Lemma cache_url_updates (self self' : RemoteDB) (url : string) (vars vars' : locals) :
  cache_url self url vars = (Ok vars', self') ->
  (has_updates vars' = true <-> has_updates vars = true \/ fresh_update self url vars).
Proof.
  intros Hrun. pose proof Hrun as Hc. unfold cache_url in Hc.
  change (previous_timestamp (say self _) url vars)
    with (previous_timestamp self url vars) in Hc.
  change (check_path [mpath (say self _) url] (fs (say self _)))
    with (check_path [mpath self url] (fs self)) in Hc.
  unfold fresh_update.
  destruct (previous_timestamp self url vars) as [[since ts]|e] eqn:Hprev; [|discriminate].
  destruct (check_path [mpath self url] (fs self)) as [is_ok cmsgs] eqn:Hcheck.
  destruct is_ok; cbn [negb] in Hc.
  - destruct (urlopen url since) as [headers body|code msg|reason|e] eqn:Hfetch.
    + apply commit_Ok_inv in Hc as [Hup Hfile]. cbn [say] in Hfile.
      rewrite ?mpath_update in Hfile.
      split; [intros _; right | done].
      by exists vars', self', since, ts, headers, body.
    + assert (has_updates vars' = has_updates vars) as ->.
      { case_bool_decide; [destruct ts; [|discriminate]|]; by injection Hc as <- _. }
      split; [by left|]. intros [?|(? & ? & ? & ? & ? & ? & _ & [= <- _] & _ & ? & _)];
        [done | congruence].
    + injection Hc as <- _. simpl.
      split; [by left|]. intros [?|(? & ? & ? & ? & ? & ? & _ & [= <- _] & _ & ? & _)];
        [done | congruence].
    + discriminate.
  - injection Hc as <- _. simpl.
    split; [by left|]. intros [?|(? & ? & ? & ? & ? & ? & _ & _ & ? & _)]; [done|].
    simpl in *. congruence.
Qed.

(** The loop sets [has_updates] exactly when one of its iterations is a
    fresh update. *)
Lemma cache_loop_updates (l : list string) :
  forall self self' vars vars',
    cache_loop self l vars = (Ok vars', self') ->
    (has_updates vars' = true <->
     has_updates vars = true \/
     exists pre url post vars1 self1,
       l = pre ++ url :: post /\
       cache_loop self pre vars = (Ok vars1, self1) /\
       fresh_update self1 url vars1).
Proof.
  induction l as [|url l IH]; intros self self' vars vars' Hrun; simpl in Hrun.
  - injection Hrun as <- _. split; [by left|].
    intros [?|(pre & ? & ? & ? & ? & Hnil & _)]; [done|]. by destruct pre.
  - destruct (cache_url self url vars) as [[vars1|e] self1] eqn:Hurl; [|discriminate].
    rewrite (IH _ _ _ _ Hrun), (cache_url_updates _ _ _ _ _ Hurl). split.
    + intros [[?|Hfresh]|(pre & url' & post & v & s & -> & Hpre & Hfresh)].
      * by left.
      * right. exists [], url, l, vars, self. by split.
      * right. exists (url :: pre), url', post, v, s.
        split; [done|]. split; [|done]. simpl. by rewrite Hurl.
    + intros [?|(pre & url' & post & v & s & Hl & Hpre & Hfresh)]; [by left; left|].
      destruct pre as [|u pre]; simpl in Hl, Hpre.
      * injection Hl as <- <-. injection Hpre as <- <-. left. by right.
      * injection Hl as <- ->. rewrite Hurl in Hpre. right.
        by exists pre, url', post, v, s.
Qed.

(** C5, as the code has it.  An iteration whose request carries the
    stored timestamp and is answered with 304 leaves the file system and
    the store as they were and [has_updates] as it was.  An iteration that
    is answered with a body [read] accepts, when the files can be written,
    puts the body in the content file and sets [has_updates]; it writes the
    sidecar when the response has a [last-modified] or a [date] header and
    leaves the sidecar alone when it has neither.  [cache] returns [True]
    exactly when one of its iterations fetched a body and wrote it to the
    content file. *)
Theorem cache_conditional (self : RemoteDB) :
  (forall url vars t msg,
      files (fs self) !! tpath self url = Some t ->
      urlopen url (Some t) = HTTPError 304 msg ->
      exists self',
        cache_url self url vars =
        (Ok {| has_updates := has_updates vars; timestamp := Some (Some t) |}, self') /\
        fs self' = fs self /\ store self' = store self)
  /\ (forall url vars since ts headers body d msgs,
      previous_timestamp self url vars = Ok (since, ts) ->
      (check_path [mpath self url] (fs self)).1 = true ->
      urlopen url since = Response headers body ->
      read (store self) body url = (Ok tt, d, msgs) ->
      storage_ready self url ->
      can_write self url (mpath self url) ->
      can_write self url (tpath self url) ->
      exists self',
        cache_url self url vars =
        (Ok {| has_updates := true; timestamp := Some (response_timestamp headers) |}, self') /\
        files (fs self') !! mpath self url = Some body /\
        files (fs self') !! tpath self url =
        match response_timestamp headers with
        | Some t => Some t
        | None => files (fs self) !! tpath self url
        end)
  /\ (forall b self',
      cache self = (Ok b, self') ->
      (b = true <->
       exists pre url post vars1 self1,
         urls self = pre ++ url :: post /\
         cache_loop self pre {| has_updates := false; timestamp := None |} = (Ok vars1, self1) /\
         fresh_update self1 url vars1)).
Proof.
  split; [|split].
  - intros url vars t msg. apply cache_url_not_modified.
  - intros url vars since ts headers body d msgs Hprev Hcheck Hfetch Hread Hready Hm Ht.
    rewrite (cache_url_fetch self url vars since ts Hprev Hcheck headers body Hfetch).
    match goal with
    | |- context [commit ?s url ?v ?t body] =>
        destruct (commit_ok s url v t body d msgs Hready Hm Ht Hread)
          as (self' & Hc & _ & Hfile & Hside)
    end.
    exists self'. split; [exact Hc|]. split; [exact Hfile | exact Hside].
  - intros b self'. unfold cache.
    destruct (cache_loop self (urls self) _) as [[vars'|e] s] eqn:Hloop; [|discriminate].
    intros [= <- <-]. rewrite (cache_loop_updates _ _ _ _ _ Hloop). simpl.
    split; [intros [?|?]; [done | done] | by right].
Qed.

End CacheFacts.

(** ** A concrete machine, to run the stores on

    An instance of [Externals] with a small reader and writer for the XML the
    catalogs use (elements, attributes, text, the five named entities, an
    XML declaration), the backends of the layman release, the text encoding
    as the identity, and sets iterated in first-seen order. *)

Module reference.

Import ET.

Definition lt_char : ascii := "<".
Definition gt_char : ascii := ">".
Definition slash_char : ascii := "/".
Definition amp_char : ascii := "&".
Definition eq_char : ascii := "=".

Definition is_char (c d : ascii) : bool := bool_decide (c = d).

(** The longest prefix of [s] whose characters satisfy [p], and the rest. *)
Fixpoint span (p : ascii -> bool) (s : string) : string * string :=
  match s with
  | EmptyString => (EmptyString, EmptyString)
  | String c r =>
      if p c then let '(a, b) := span p r in (String c a, b) else (EmptyString, s)
  end.

(** [s] after the first occurrence of [stop], or [None]. *)
Fixpoint after (stop : string) (s : string) : option string :=
  if String.prefix stop s then Some (String.substring (String.length stop) (String.length s) s)
  else match s with
       | EmptyString => None
       | String _ r => after stop r
       end.

(** Writing text: the characters XML reserves become entities. *)
Fixpoint escape (in_attribute : bool) (s : string) : string :=
  match s with
  | EmptyString => EmptyString
  | String c r =>
      (if is_char c amp_char then "&amp;"
       else if is_char c lt_char then "&lt;"
       else if is_char c gt_char then "&gt;"
       else if in_attribute && is_char c dq_char then "&quot;"
       else String c EmptyString) +:+ escape in_attribute r
  end.

(** Reading text: the entities become characters again. *)
Fixpoint unescape (s : string) : string :=
  match s with
  | String "&" (String "a" (String "m" (String "p" (String ";" r)))) =>
      String amp_char (unescape r)
  | String "&" (String "l" (String "t" (String ";" r))) => String lt_char (unescape r)
  | String "&" (String "g" (String "t" (String ";" r))) => String gt_char (unescape r)
  | String "&" (String "q" (String "u" (String "o" (String "t" (String ";" r))))) =>
      String dq_char (unescape r)
  | String c r => String c (unescape r)
  | EmptyString => EmptyString
  end.

Definition write_attribute (kv : string * string) : string :=
  " " +:+ kv.1 +:+ "=" +:+ dq +:+ escape true kv.2 +:+ dq.

(** The text of an element. *)
Fixpoint tostring (e : Element) : string :=
  match e with
  | Elem t a x c =>
      let opening := "<" +:+ t +:+ String.concat "" (write_attribute <$> map_to_list a) in
      match x, c with
      | None, [] | Some EmptyString, [] => opening +:+ " />"
      | _, _ =>
          opening +:+ ">" +:+ escape false (default "" x) +:+
          String.concat "" (tostring <$> c) +:+ "</" +:+ t +:+ ">"
      end
  end.

Definition is_name_char (c : ascii) : bool :=
  negb (is_space c || is_char c lt_char || is_char c gt_char || is_char c slash_char
        || is_char c eq_char).

(** The attributes of an opening tag, up to its end. *)
Fixpoint read_attributes (fuel : nat) (s : string) (a : gmap string string)
    : option (gmap string string * string) :=
  match fuel with
  | O => None
  | S fuel =>
      let s := lstrip s in
      match span is_name_char s with
      | (EmptyString, rest) => Some (a, rest)
      | (key, String e (String q rest)) =>
          if is_char e eq_char && is_char q dq_char then
            match span (fun c => negb (is_char c dq_char)) rest with
            | (value, String _ rest') => read_attributes fuel rest' (<[key := unescape value]> a)
            | _ => None
            end
          else None
      | _ => None
      end
  end.

(** An element at the head of [s], and what follows it; the children of an
    element up to its closing tag, and what follows that. *)
Fixpoint read_element (fuel : nat) (s : string) : option (Element * string) :=
  match fuel with
  | O => None
  | S fuel =>
      match s with
      | String "<" r =>
          match span is_name_char r with
          | (EmptyString, _) => None
          | (t, r) =>
              match read_attributes (String.length r) r ∅ with
              | Some (a, String "/" (String ">" rest)) => Some (Elem t a None [], rest)
              | Some (a, String ">" rest) =>
                  let '(x, rest) := span (fun c => negb (is_char c lt_char)) rest in
                  match read_children fuel t rest with
                  | Some (c, rest) =>
                      Some (Elem t a (if bool_decide (x = "") then None else Some (unescape x)) c,
                            rest)
                  | None => None
                  end
              | _ => None
              end
          end
      | _ => None
      end
  end
with read_children (fuel : nat) (closing : string) (s : string)
    : option (list Element * string) :=
  match fuel with
  | O => None
  | S fuel =>
      if String.prefix ("</" +:+ closing +:+ ">") s
      then Some ([], String.substring (String.length closing + 3) (String.length s) s)
      else
        match read_element fuel s with
        | Some (e, rest) =>
            let '(_, rest) := span (fun c => negb (is_char c lt_char)) rest in
            match read_children fuel closing rest with
            | Some (c, rest) => Some (e :: c, rest)
            | None => None
            end
        | None => None
        end
  end.

(** A document: an optional XML declaration, one element, white space. *)
Definition fromstring (s : string) : ExpatError + Element :=
  let failed := inl {| lineno := 1; offset := 0 |} in
  let s := lstrip s in
  let body := if String.prefix "<?" s then after "?>" s else Some s in
  match body with
  | None => failed
  | Some b =>
      match read_element (S (String.length b)) (lstrip b) with
      | Some (e, rest) => if bool_decide (lstrip rest = "") then inr e else failed
      | None => failed
      end
  end.

(** [layman.utils.indent], on the part of an element the model keeps: an
    element with children and no text of its own gets a line break and the
    indentation of its children as text. *)
Fixpoint indent_at (level : nat) (e : Element) : Element :=
  match e with
  | Elem t a x c =>
      let blank := match x with None => true | Some s => bool_decide (strip s = "") end in
      let x' :=
        match c with
        | [] => x
        | _ => if blank then Some (nl +:+ String.concat "" (replicate (S level) "  ")) else x
        end in
      Elem t a x' (indent_at (S level) <$> c)
  end.

(** The backends of the layman release, after [GitOverlay]. *)
Definition g_common : SourceClass :=
  {| type_key := "g-common"; type := "g-common"; init_reads_branch := false |}.
Definition cvs : SourceClass :=
  {| type_key := "cvs"; type := "cvs"; init_reads_branch := false |}.
Definition svn : SourceClass :=
  {| type_key := "svn"; type := "Subversion"; init_reads_branch := false |}.
Definition rsync : SourceClass :=
  {| type_key := "rsync"; type := "Rsync"; init_reads_branch := false |}.
Definition tar : SourceClass :=
  {| type_key := "tar"; type := "Tar"; init_reads_branch := false |}.
Definition bzr : SourceClass :=
  {| type_key := "bzr"; type := "Bzr"; init_reads_branch := false |}.
Definition mercurial : SourceClass :=
  {| type_key := "mercurial"; type := "Mercurial"; init_reads_branch := false |}.
Definition darcs : SourceClass :=
  {| type_key := "darcs"; type := "Darcs"; init_reads_branch := false |}.

(** A stand-in for the MD5 digest that never collides: the characters of
    the URL in hexadecimal. *)
Definition hex_digit (n : nat) : ascii :=
  ascii_of_nat (if Nat.ltb n 10 then 48 + n else 87 + n).

Fixpoint hexdigest (s : string) : string :=
  match s with
  | EmptyString => EmptyString
  | String c r =>
      let n := nat_of_ascii c in
      String (hex_digit (Nat.div n 16)) (String (hex_digit (Nat.modulo n 16)) (hexdigest r))
  end.

(** [posixpath.dirname]: the path up to its last slash, without trailing
    slashes unless it is made of slashes only. *)
Fixpoint head_of_path (p : string) : string :=
  match p with
  | EmptyString => EmptyString
  | String c r =>
      match head_of_path r with
      | EmptyString => if is_char c slash_char then String c EmptyString else EmptyString
      | h => String c h
      end
  end.

Fixpoint rstrip_slash (s : string) : string :=
  match s with
  | EmptyString => EmptyString
  | String c r =>
      match rstrip_slash r with
      | EmptyString => if is_char c slash_char then EmptyString else String c EmptyString
      | r' => String c r'
      end
  end.

Definition posix_dirname (p : string) : string :=
  let head := head_of_path p in
  match rstrip_slash head with
  | EmptyString => head
  | h => h
  end.

(** [str(l)] for a list of plain texts. *)
Definition repr_list (l : list string) : string :=
  "[" +:+ join ", " ((fun s => "'" +:+ s +:+ "'") <$> l) +:+ "]".

(** The elements of a list without repetition, in the order they are first
    seen. *)
Definition first_seen (l : list string) : list string :=
  foldl (fun acc x => if bool_decide (x ∈ acc) then acc else acc ++ [x]) [] l.

(** The text [%s] gives for an element, every object taken to sit at
    address 0. *)
Definition repr_at_0 (e : ET.Element) : string :=
  "<Element '" +:+ ET.tag e +:+ "' at 0x0>".

(** In place of [str(d)] for a mapping: its name only. *)
Definition repr_name (d : mapping.ovl_dict) : string :=
  match mapping.d_name d with
  | Some n => "{'name': '" +:+ n +:+ "'}"
  | None => "{'name': None}"
  end.

#[export] Instance externals : Externals := {
  encode s := s;
  other_backends := [g_common; cvs; svn; rsync; tar; bzr; mercurial; darcs];
  to_xml_hook _ repo := repo;
  source_eq a b := bool_decide (src a = src b);
  indent := indent_at 0;
  ET_write := tostring;
  ET_fromstring := fromstring;
  md5_hexdigest := hexdigest;
  dirname := posix_dirname;
  str_list := repr_list;
  set_list := first_seen;
  repr_element := repr_at_0;
  str_dict := repr_name
}.

End reference.

(** ** Text and numbers *)

Section TextFacts.

(** No character of [s] is white space. *)
Fixpoint no_space (s : string) : bool :=
  match s with
  | EmptyString => true
  | String c r => negb (is_space c) && no_space r
  end.

Lemma rstrip_no_space (s : string) : no_space s = true -> rstrip s = s.
Proof.
  induction s as [|c r IH]; simpl; [done|].
  intros [Hc Hr]%andb_true_iff. rewrite (IH Hr).
  apply negb_true_iff in Hc. rewrite Hc. by destruct r.
Qed.

Lemma strip_no_space (s : string) :
  ascii_only s = true -> no_space s = true -> strip s = s.
Proof.
  intros Ha Hs. unfold strip. rewrite Ha, (rstrip_no_space s Hs).
  destruct s as [|c r]; simpl in *; [done|].
  apply andb_true_iff in Hs as [Hc _]. apply negb_true_iff in Hc. by rewrite Hc.
Qed.

(** [u'\xa0nobody@gentoo.org '.strip()]: in a [unicode] text the no-break
    space goes as well; in a [str] the file separator stays. *)
Lemma strip_no_break_space :
  strip (String (ascii_of_N 194) (String (ascii_of_N 160) "nobody@gentoo.org "))
  = "nobody@gentoo.org"
  /\ strip (String (ascii_of_N 28) " nobody@gentoo.org ")
     = String (ascii_of_N 28) " nobody@gentoo.org".
Proof. split; reflexivity. Qed.

Lemma digits_no_space (u : uint) : no_space (NilEmpty.string_of_uint u) = true.
Proof. induction u; simpl; auto. Qed.

Lemma str_int_no_space (n : Z) : no_space (str_int n) = true.
Proof.
  unfold str_int, NilZero.string_of_int, NilZero.string_of_uint.
  destruct (Z.to_int n) as [u|u]; destruct u; simpl; auto using digits_no_space.
Qed.

Lemma digits_ascii (u : uint) : ascii_only (NilEmpty.string_of_uint u) = true.
Proof. induction u; simpl; auto. Qed.

Lemma str_int_ascii (n : Z) : ascii_only (str_int n) = true.
Proof.
  unfold str_int, NilZero.string_of_int, NilZero.string_of_uint.
  destruct (Z.to_int n) as [u|u]; destruct u; simpl; auto using digits_ascii.
Qed.

Lemma str_int_no_plus (n : Z) (r : string) : str_int n <> String "+" r.
Proof.
  unfold str_int, NilZero.string_of_int, NilZero.string_of_uint.
  destruct (Z.to_int n) as [u|u]; destruct u; discriminate.
Qed.

Lemma int_of_str_plain (s : string) :
  strip s = s -> (forall r, s <> String "+" r) ->
  int_of_str s = Z.of_int <$> NilZero.int_of_string s.
Proof.
  intros Hs Hplus. unfold int_of_str. rewrite Hs.
  destruct s as [|c r]; [reflexivity|].
  destruct c as [[] [] [] [] [] [] [] []]; try reflexivity.
  exfalso. by eapply Hplus.
Qed.

(** [int(str(n)) == n] *)
Lemma int_of_str_str_int (n : Z) : int_of_str (str_int n) = Some n.
Proof.
  rewrite int_of_str_plain
    by ((apply strip_no_space; [apply str_int_ascii | apply str_int_no_space])
        || apply str_int_no_plus).
  unfold str_int. rewrite NilZero.isi.
  - simpl. by rewrite DecimalZ.of_to.
  - destruct n; simpl; try discriminate.
    intros [= Hp]. by apply DecimalPos.Unsigned.to_uint_nonnil in Hp.
  - destruct n; simpl; try discriminate.
    intros [= Hp]. by apply DecimalPos.Unsigned.to_uint_nonnil in Hp.
Qed.

End TextFacts.

(** ** Writing a store and reading it back *)

Section RoundTrip.

Import ET overlay os dbbase.

Context `{Externals}.

(** What reading back the text of a tree gives, as far as the package can
    tell: the same tags, attributes and children; the same text in an
    element without children, where no text and the empty text are one; any
    text in an element with children (the indentation). *)
Inductive reparsed : Element -> Element -> Prop :=
| reparsed_Elem (t : string) (a : gmap string string) (x x' : option string)
    (c c' : list Element) :
    Forall2 reparsed c c' ->
    (c = [] -> default "" x' = default "" x) ->
    reparsed (Elem t a x c) (Elem t a x' c').

(** The nodes [from_xml] takes text from have no children, and there is no
    [branch] or [subpath] node. *)
Definition flat (xml : Element) : Prop :=
  Forall (fun c => (tag c = "owner" \/ children c = []) /\
                   Forall (fun g => children g = []) (children c) /\
                   tag c <> "branch" /\ tag c <> "subpath")
         (children xml).

Lemma reparsed_inv (e e' : Element) :
  reparsed e e' ->
  tag e' = tag e /\ attrib e' = attrib e /\ Forall2 reparsed (children e) (children e') /\
  (children e = [] -> strip_text e' = strip_text e).
Proof.
  intros [t a x x' c c' Hc Hx]. simpl. repeat split; [done|].
  intros Hnil. specialize (Hx Hnil). unfold strip_text. simpl.
  destruct x as [s|], x' as [s'|]; simpl in Hx; by subst.
Qed.

Lemma has_tag_reparsed (t : string) (e e' : Element) :
  reparsed e e' -> has_tag t e' = has_tag t e.
Proof. intros (Ht & _)%reparsed_inv. unfold has_tag. by rewrite Ht. Qed.

Lemma find_reparsed (t : string) (l l' : list Element) :
  Forall2 reparsed l l' ->
  option_Forall2 reparsed (List.find (has_tag t) l) (List.find (has_tag t) l').
Proof.
  induction 1 as [|e e' l l' He _ IH]; simpl; [constructor|].
  rewrite (has_tag_reparsed t e e' He).
  destruct (has_tag t e); [by constructor | exact IH].
Qed.

Lemma filter_reparsed (p : Element -> bool) (l l' : list Element) :
  (forall e e', reparsed e e' -> p e' = p e) ->
  Forall2 reparsed l l' ->
  Forall2 reparsed (List.filter p l) (List.filter p l').
Proof.
  intros Hp. induction 1 as [|e e' l l' He _ IH]; simpl; [constructor|].
  rewrite (Hp e e' He). destruct (p e); [by constructor | exact IH].
Qed.

Lemma find_elem (p : Element -> bool) (l : list Element) (e : Element) :
  List.find p l = Some e -> e ∈ l /\ p e = true.
Proof.
  intros Hf. apply List.find_some in Hf as [Hin Hp]. by apply list_elem_of_In in Hin.
Qed.

(** The text a block takes from the child [t] is the same in both trees. *)
Lemma find_text_reparsed (t : string) (xml xml' : Element) :
  reparsed xml xml' -> flat xml -> t <> "owner" ->
  strip_text <$> find t xml' = strip_text <$> find t xml.
Proof.
  intros (_ & _ & Hc & _)%reparsed_inv Hflat Ht. unfold find.
  pose proof (find_reparsed t _ _ Hc) as Hrel.
  destruct (List.find (has_tag t) (children xml)) as [e|] eqn:Hf;
    inversion Hrel as [? e' He|]; subst; [|done].
  apply find_elem in Hf as [Hin Htag].
  unfold flat in Hflat. rewrite Forall_forall in Hflat.
  destruct (Hflat e Hin) as ([Ho|Hleaf] & _).
  - unfold has_tag in Htag. apply bool_decide_eq_true in Htag. congruence.
  - simpl. f_equal. by apply reparsed_inv in He as (_ & _ & _ & ->).
Qed.

Lemma bind_ext {A B : Type} (c : Log A) (k k' : A -> Log B) :
  (forall a, k a = k' a) -> py.bind c k = py.bind c k'.
Proof. intros Hk. destruct c as [l [a|e]]; simpl; [by rewrite Hk | done]. Qed.

Lemma match_find_text {A : Type} (t : string) (xml xml' : Element)
    (some : string -> A) (none : A) :
  strip_text <$> find t xml' = strip_text <$> find t xml ->
  match find t xml' with Some e => some (strip_text e) | None => none end =
  match find t xml with Some e => some (strip_text e) | None => none end.
Proof.
  destruct (find t xml'), (find t xml); simpl; intros Heq; try discriminate;
    [by injection Heq as -> | done].
Qed.

Lemma read_name_reparsed (xml xml' : Element) :
  reparsed xml xml' -> flat xml -> read_name xml' = read_name xml.
Proof.
  intros Hr Hflat. unfold read_name.
  pose proof (reparsed_inv _ _ Hr) as (_ & -> & _).
  apply (match_find_text "name" xml xml' (fun s => ret (encode s))).
  by apply find_text_reparsed.
Qed.

Lemma read_description_reparsed (xml xml' : Element) (ign : Z) (n : string) :
  reparsed xml xml' -> flat xml -> read_description xml' ign n = read_description xml ign n.
Proof.
  intros Hr Hflat. unfold read_description.
  apply (match_find_text "description" xml xml' (fun s => ret (encode (sub_whitespace s)))).
  by apply find_text_reparsed.
Qed.

Lemma read_homepage_reparsed (xml xml' : Element) :
  reparsed xml xml' -> flat xml -> read_homepage xml' = read_homepage xml.
Proof.
  intros Hr Hflat. unfold read_homepage.
  pose proof (find_text_reparsed "homepage" xml xml' Hr Hflat) as Hh.
  pose proof (find_text_reparsed "link" xml xml' Hr Hflat) as Hl.
  destruct (find "homepage" xml'), (find "homepage" xml); simpl in Hh;
    try (specialize (Hh ltac:(done)); discriminate Hh).
  - specialize (Hh ltac:(done)). injection Hh as ->. reflexivity.
  - destruct (find "link" xml'), (find "link" xml); simpl in Hl;
      specialize (Hl ltac:(done)); try discriminate Hl; [|done].
    injection Hl as ->. reflexivity.
Qed.

Lemma read_irc_reparsed (xml xml' : Element) :
  reparsed xml xml' -> flat xml ->
  (fun e => encode (strip_text e)) <$> find "irc" xml' =
  (fun e => encode (strip_text e)) <$> find "irc" xml.
Proof.
  intros Hr Hflat.
  pose proof (find_text_reparsed "irc" xml xml' Hr Hflat ltac:(done)) as Hi.
  destruct (find "irc" xml'), (find "irc" xml); simpl in *; congruence.
Qed.

Lemma find_hint_none (t : string) (xml : Element) :
  flat xml -> t = "branch" \/ t = "subpath" -> find t xml = None.
Proof.
  intros Hflat Ht. unfold find.
  destruct (List.find (has_tag t) (children xml)) as [e|] eqn:Hf; [|done].
  apply find_elem in Hf as [Hin Htag]. unfold flat in Hflat.
  rewrite Forall_forall in Hflat. destruct (Hflat e Hin) as (_ & _ & Hb & Hs).
  apply bool_decide_eq_true in Htag. destruct Ht; congruence.
Qed.

Lemma read_hint_reparsed (t : string) (xml xml' : Element) :
  reparsed xml xml' -> flat xml -> t = "branch" \/ t = "subpath" ->
  read_hint t xml' = read_hint t xml.
Proof.
  intros Hr Hflat Ht. unfold read_hint.
  pose proof (reparsed_inv _ _ Hr) as (_ & -> & Hc & _).
  pose proof (find_reparsed t _ _ Hc) as Hrel. fold (find t xml) (find t xml') in Hrel.
  rewrite (find_hint_none t xml Hflat Ht) in *. by inversion Hrel.
Qed.

Lemma findall_elem (t : string) (xml e : Element) :
  e ∈ findall t xml -> e ∈ children xml /\ tag e = t.
Proof.
  unfold findall. rewrite list_elem_of_In, List.filter_In, <- list_elem_of_In.
  intros [Hin Htag]. split; [done|]. by apply bool_decide_eq_true in Htag.
Qed.

Lemma findall_reparsed (t : string) (xml xml' : Element) :
  reparsed xml xml' -> Forall2 reparsed (findall t xml) (findall t xml').
Proof.
  intros (_ & _ & Hc & _)%reparsed_inv. unfold findall.
  apply filter_reparsed; [apply has_tag_reparsed | exact Hc].
Qed.

Lemma findall_leaves (t : string) (xml : Element) :
  flat xml -> t <> "owner" -> Forall (fun e => children e = []) (findall t xml).
Proof.
  intros Hflat Ht. apply Forall_forall. intros e [Hin Htag]%findall_elem.
  unfold flat in Hflat. rewrite Forall_forall in Hflat.
  destruct (Hflat e Hin) as ([?|?] & _); [congruence | done].
Qed.

Lemma source_elems_reparsed (xml xml' : Element) :
  reparsed xml xml' -> Forall2 reparsed (source_elems xml) (source_elems xml').
Proof.
  intros Hr. unfold source_elems.
  pose proof (findall_reparsed "source" xml xml' Hr) as Hs.
  pose proof (reparsed_inv _ _ Hr) as (_ & -> & _).
  destruct Hs as [|e e' l l' He Hl].
  - destruct (attrib xml !! "src"), (attrib xml !! "type"); repeat constructor; done.
  - apply (filter_reparsed _ (e :: l) (e' :: l')); [|by constructor].
    intros a a' (_ & -> & _)%reparsed_inv. done.
Qed.

Lemma source_elems_leaves (xml : Element) :
  flat xml -> Forall (fun e => children e = []) (source_elems xml).
Proof.
  intros Hflat. unfold source_elems.
  pose proof (findall_leaves "source" xml Hflat ltac:(done)) as Hl.
  destruct (findall "source" xml) as [|e l].
  - destruct (attrib xml !! "src"), (attrib xml !! "type"); repeat constructor.
  - apply Forall_forall. intros a Ha. rewrite Forall_forall in Hl. apply Hl.
    apply list_elem_of_In, List.filter_In in Ha as [Ha _]. by apply list_elem_of_In.
Qed.

Lemma create_overlay_source_reparsed (n : string) (b : option string) (e e' : Element) :
  reparsed e e' -> children e = [] ->
  create_overlay_source n b e' = create_overlay_source n b e.
Proof.
  intros (_ & Ha & _ & Hx)%reparsed_inv Hleaf. unfold create_overlay_source.
  by rewrite Ha, (Hx Hleaf).
Qed.

Lemma mapM_reparsed {B : Type} (f : Element -> Log B) (l l' : list Element) :
  Forall2 reparsed l l' ->
  Forall (fun e => forall e', reparsed e e' -> f e' = f e) l ->
  mapM f l' = mapM f l.
Proof.
  induction 1 as [|e e' l l' He _ IH]; intros Hf; [done|].
  apply Forall_cons in Hf as [Hfe Hfl]. simpl. by rewrite (Hfe e' He), (IH Hfl).
Qed.

Lemma map_text_reparsed (l l' : list Element) :
  Forall2 reparsed l l' -> Forall (fun e => children e = []) l ->
  (fun e => encode (strip_text e)) <$> l' = (fun e => encode (strip_text e)) <$> l.
Proof.
  induction 1 as [|e e' l l' He _ IH]; intros Hl; [done|].
  apply Forall_cons in Hl as [Hle Hll]. rewrite !fmap_cons.
  apply reparsed_inv in He as (_ & _ & _ & Hx). by rewrite (Hx Hle), (IH Hll).
Qed.

Lemma find_leaf_text_reparsed (t : string) (l l' : list Element) :
  Forall2 reparsed l l' -> Forall (fun e => children e = []) l ->
  strip_text <$> List.find (has_tag t) l' = strip_text <$> List.find (has_tag t) l.
Proof.
  intros Hrel Hl. pose proof (find_reparsed t _ _ Hrel) as Hf.
  destruct (List.find (has_tag t) l) as [e|] eqn:He;
    inversion Hf as [? e' Hee|]; subst; [|done].
  apply find_elem in He as [Hin _]. rewrite Forall_forall in Hl.
  simpl. f_equal. apply reparsed_inv in Hee as (_ & _ & _ & Hx). by apply Hx, Hl.
Qed.

Lemma read_owner_reparsed (xml xml' : Element) (ign : Z) (n : string) :
  reparsed xml xml' -> flat xml -> read_owner xml' ign n = read_owner xml ign n.
Proof.
  intros Hr Hflat. unfold read_owner.
  pose proof (reparsed_inv _ _ Hr) as (_ & -> & Hc & _).
  pose proof (find_reparsed "owner" _ _ Hc) as Hrel.
  fold (find "owner" xml) (find "owner" xml') in Hrel.
  destruct (find "owner" xml) as [o|] eqn:Ho; inversion Hrel as [? o' Hoo|]; subst; [|done].
  apply find_elem in Ho as [Hin _].
  unfold flat in Hflat. rewrite Forall_forall in Hflat.
  destruct (Hflat o Hin) as (_ & Hleaves & _).
  apply reparsed_inv in Hoo as (_ & _ & Hkids & _).
  pose proof (find_leaf_text_reparsed "email" _ _ Hkids Hleaves) as Hemail.
  pose proof (find_leaf_text_reparsed "name" _ _ Hkids Hleaves) as Hname.
  fold (find "email" o) (find "email" o') in Hemail.
  fold (find "name" o) (find "name" o') in Hname.
  simpl.
  destruct (find "email" o') as [e'|], (find "email" o) as [e|]; simpl in *;
    try discriminate Hemail; [|done].
  injection Hemail as ->.
  destruct (find "name" o') as [m'|], (find "name" o) as [m|]; simpl in *;
    try discriminate Hname; [|done].
  by injection Hname as ->.
Qed.

(** [from_xml] does not tell a tree from what reading its text gives. *)
Lemma from_xml_reparsed (xml xml' : Element) (ign : Z) :
  reparsed xml xml' -> flat xml -> from_xml xml' ign = from_xml xml ign.
Proof.
  intros Hr Hflat. unfold from_xml.
  rewrite (read_name_reparsed xml xml' Hr Hflat).
  apply bind_ext. intros self_name.
  pose proof (source_elems_reparsed xml xml' Hr) as Hs.
  rewrite <- (Forall2_length _ _ _ Hs).
  apply bind_ext. intros _.
  rewrite (read_hint_reparsed "branch" xml xml' Hr Hflat) by by left.
  apply bind_ext. intros self_branch.
  rewrite (mapM_reparsed _ _ _ Hs).
  2:{ eapply Forall_impl; [apply source_elems_leaves, Hflat|].
      intros e He e' Hee. by apply create_overlay_source_reparsed. }
  apply bind_ext. intros self_sources.
  rewrite (read_hint_reparsed "subpath" xml xml' Hr Hflat) by by right.
  apply bind_ext. intros self_subpath.
  rewrite (read_owner_reparsed xml xml' ign self_name Hr Hflat).
  apply bind_ext. intros owner.
  rewrite (read_description_reparsed xml xml' ign self_name Hr Hflat).
  apply bind_ext. intros self_description.
  unfold read_quality, read_priority.
  rewrite (read_homepage_reparsed xml xml' Hr Hflat).
  rewrite (read_irc_reparsed xml xml' Hr Hflat).
  rewrite (map_text_reparsed _ _ (findall_reparsed "feed" xml xml' Hr)
             (findall_leaves "feed" xml Hflat ltac:(done))).
  pose proof (reparsed_inv _ _ Hr) as (_ & -> & _).
  reflexivity.
Qed.

(** *** The tree [to_xml] builds, and what [from_xml] makes of it *)

Definition repo_attrs (o : Overlay) : gmap string string :=
  <["priority" := str_int (priority o)]>
    (<["quality" := quality o]>
       (match status o with Some st => {[ "status" := st ]} | None => ∅ end)).

Definition source_node (s : OverlaySource) : Element :=
  Elem "source" {[ "type" := type_key (source.class s) ]} (Some (src s)) [].

Definition feed_node (i : string) : Element := leaf "feed" (Some i).

Definition optional_node (t : string) (x : option string) : list Element :=
  match x with
  | Some s => [leaf t (Some s)]
  | None => []
  end.

Definition owner_node (o : Overlay) : Element :=
  Elem "owner" ∅ None (leaf "email" (owner_email o) :: optional_node "name" (owner_name o)).

Definition repo_children (o : Overlay) : list Element :=
  [leaf "name" (Some (name o)); leaf "description" (Some (description o))] ++
  optional_node "homepage" (homepage o) ++ optional_node "irc" (irc o) ++
  [owner_node o] ++ (source_node <$> sources o) ++ (feed_node <$> feeds o).

(** The hooks of the sources of [o] leave the element as it is. *)
Definition silent_hooks (o : Overlay) : Prop :=
  forall s repo, s ∈ sources o -> to_xml_hook s repo = repo.

Lemma foldl_append {A : Type} (f : A -> Element) (l : list A) :
  forall t a x c,
    foldl (fun r i => append (f i) r) (Elem t a x c) l = Elem t a x (c ++ (f <$> l)).
Proof.
  induction l as [|i l IH]; intros t a x c; simpl; [by rewrite app_nil_r|].
  by rewrite IH, <- app_assoc.
Qed.

Lemma foldl_silent_hooks (l : list OverlaySource) (repo : Element) :
  (forall s r, s ∈ l -> to_xml_hook s r = r) ->
  foldl (fun r i => to_xml_hook i r) repo l = repo.
Proof.
  revert repo. induction l as [|s l IH]; intros repo Hl; simpl; [done|].
  rewrite Hl by apply list_elem_of_here. apply IH.
  intros s' r Hs'. apply Hl. by apply list_elem_of_further.
Qed.

Lemma to_xml_shape (o : Overlay) :
  silent_hooks o -> to_xml o = Elem "repo" (repo_attrs o) None (repo_children o).
Proof.
  intros Hhooks. unfold to_xml, repo_children, owner_node, repo_attrs.
  destruct (homepage o), (irc o), (owner_name o); simpl;
    rewrite foldl_append, foldl_silent_hooks, foldl_append by (intros; by apply Hhooks);
    simpl; by rewrite <- ?app_assoc.
Qed.

Lemma find_fmap_other {A : Type} (f : A -> Element) (tg t : string) (l : list A)
    (rest : list Element) :
  (forall a, tag (f a) = tg) -> tg <> t ->
  List.find (has_tag t) ((f <$> l) ++ rest) = List.find (has_tag t) rest.
Proof.
  intros Hf Hne. induction l as [|a l IH]; simpl; [done|].
  unfold has_tag at 1. rewrite Hf, bool_decide_eq_false_2 by done. exact IH.
Qed.

Lemma filter_fmap_other {A : Type} (f : A -> Element) (tg t : string) (l : list A)
    (rest : list Element) :
  (forall a, tag (f a) = tg) -> tg <> t ->
  List.filter (has_tag t) ((f <$> l) ++ rest) = List.filter (has_tag t) rest.
Proof.
  intros Hf Hne. induction l as [|a l IH]; simpl; [done|].
  unfold has_tag at 1. rewrite Hf, bool_decide_eq_false_2 by done. exact IH.
Qed.

Lemma filter_fmap_same {A : Type} (f : A -> Element) (tg : string) (l : list A)
    (rest : list Element) :
  (forall a, tag (f a) = tg) ->
  List.filter (has_tag tg) ((f <$> l) ++ rest) = (f <$> l) ++ List.filter (has_tag tg) rest.
Proof.
  intros Hf. induction l as [|a l IH]; simpl; [done|].
  unfold has_tag at 1. rewrite Hf, bool_decide_eq_true_2 by done. f_equal. exact IH.
Qed.

Lemma source_node_tag (s : OverlaySource) : tag (source_node s) = "source".
Proof. reflexivity. Qed.

Lemma feed_node_tag (i : string) : tag (feed_node i) = "feed".
Proof. reflexivity. Qed.

(** The tree [to_xml] builds for [o], when the hooks are silent. *)
Definition written (o : Overlay) : Element :=
  Elem "repo" (repo_attrs o) None (repo_children o).

(** A tag is looked up among the nodes that come after the owner node. *)
Lemma find_tail (t : string) (o : Overlay) :
  t <> "source" -> t <> "feed" ->
  List.find (has_tag t) ((source_node <$> sources o) ++ (feed_node <$> feeds o)) = None.
Proof.
  intros Hs Hf.
  rewrite (find_fmap_other source_node "source") by (done || apply source_node_tag).
  rewrite <- (app_nil_r (feed_node <$> feeds o)).
  by rewrite (find_fmap_other feed_node "feed") by (done || apply feed_node_tag).
Qed.

Ltac find_in_written o :=
  unfold find, written, repo_children, optional_node; cbn [children];
  destruct (homepage o), (irc o); cbn [app List.find has_tag tag leaf owner_node];
  repeat (rewrite ?bool_decide_eq_true_2, ?bool_decide_eq_false_2 by done);
  rewrite ?find_tail by done.

Lemma written_find_name (o : Overlay) :
  find "name" (written o) = Some (leaf "name" (Some (name o))).
Proof. by find_in_written o. Qed.

Lemma written_find_description (o : Overlay) :
  find "description" (written o) = Some (leaf "description" (Some (description o))).
Proof. by find_in_written o. Qed.

Lemma written_find_owner (o : Overlay) : find "owner" (written o) = Some (owner_node o).
Proof. by find_in_written o. Qed.

Lemma written_find_homepage (o : Overlay) :
  find "homepage" (written o) = (fun h => leaf "homepage" (Some h)) <$> homepage o.
Proof. by find_in_written o. Qed.

Lemma written_find_irc (o : Overlay) :
  find "irc" (written o) = (fun i => leaf "irc" (Some i)) <$> irc o.
Proof. by find_in_written o. Qed.

Lemma written_find_none (t : string) (o : Overlay) :
  t = "link" \/ t = "branch" \/ t = "subpath" -> find t (written o) = None.
Proof. intros [->|[->| ->]]; by find_in_written o. Qed.

Lemma filter_tail_source (o : Overlay) :
  List.filter (has_tag "source") ((source_node <$> sources o) ++ (feed_node <$> feeds o))
  = source_node <$> sources o.
Proof.
  rewrite (filter_fmap_same source_node "source") by apply source_node_tag.
  rewrite <- (app_nil_r (feed_node <$> feeds o)).
  rewrite (filter_fmap_other feed_node "feed") by (done || apply feed_node_tag).
  apply app_nil_r.
Qed.

Lemma filter_tail_feed (o : Overlay) :
  List.filter (has_tag "feed") ((source_node <$> sources o) ++ (feed_node <$> feeds o))
  = feed_node <$> feeds o.
Proof.
  rewrite (filter_fmap_other source_node "source") by (done || apply source_node_tag).
  rewrite <- (app_nil_r (feed_node <$> feeds o)) at 1.
  rewrite (filter_fmap_same feed_node "feed") by apply feed_node_tag.
  apply app_nil_r.
Qed.

Ltac findall_in_written o :=
  unfold findall, written, repo_children, optional_node; cbn [children];
  destruct (homepage o), (irc o); cbn [app List.filter has_tag tag leaf owner_node];
  repeat (rewrite ?bool_decide_eq_true_2, ?bool_decide_eq_false_2 by done).

Lemma written_findall_source (o : Overlay) :
  findall "source" (written o) = source_node <$> sources o.
Proof. findall_in_written o; apply filter_tail_source. Qed.

Lemma written_findall_feed (o : Overlay) :
  findall "feed" (written o) = feed_node <$> feeds o.
Proof. findall_in_written o; apply filter_tail_feed. Qed.

Lemma written_flat (o : Overlay) : flat (written o).
Proof.
  unfold flat, written, repo_children, owner_node, optional_node. cbn [children].
  rewrite !Forall_app, !Forall_fmap. repeat split.
  - repeat constructor; simpl; auto; discriminate.
  - destruct (homepage o); repeat constructor; simpl; auto; discriminate.
  - destruct (irc o); repeat constructor; simpl; auto; discriminate.
  - destruct (owner_name o); repeat constructor; simpl; auto; discriminate.
  - apply Forall_forall. intros s _. simpl. repeat split; auto; discriminate.
  - apply Forall_forall. intros i _. simpl. repeat split; auto; discriminate.
Qed.

(** What [from_xml] makes of the tree written for [o]. *)
Definition reread_source (s : OverlaySource) : OverlaySource :=
  {| source.class := default (source.class s) (OVERLAY_TYPES !! type_key (source.class s));
     src := encode (strip (src s)) |}.

Definition reread (o : Overlay) : Overlay :=
  {| name := encode (strip (name o));
     branch := Some ""; subpath := Some "";
     sources := reread_source <$> sources o;
     owner_email := Some (encode (match owner_email o with Some e => strip e | None => "" end));
     owner_name := (fun n => encode (strip n)) <$> owner_name o;
     description := encode (sub_whitespace (strip (description o)));
     status := encode <$> status o;
     quality := if bool_decide (quality o ∈ QUALITY_LEVELS)
                then encode (quality o) else "experimental";
     priority := priority o;
     homepage := (fun h => encode (strip h)) <$> homepage o;
     feeds := (fun i => encode (strip i)) <$> feeds o;
     irc := (fun i => encode (strip i)) <$> irc o |}.

(** The types of the sources of [o] are types of the registry. *)
Definition known_types (o : Overlay) : Prop :=
  forall s, s ∈ sources o -> is_Some (OVERLAY_TYPES !! type_key (source.class s)).

Lemma bind_ret_l {A B : Type} (a : A) (k : A -> Log B) : py.bind (py.ret a) k = k a.
Proof. unfold py.bind, py.ret. by destruct (k a). Qed.

Lemma repo_attrs_status (o : Overlay) : repo_attrs o !! "status" = status o.
Proof.
  unfold repo_attrs. rewrite !lookup_insert_ne by done.
  destruct (status o); [apply lookup_singleton_eq | apply lookup_empty].
Qed.

Lemma repo_attrs_quality (o : Overlay) : repo_attrs o !! "quality" = Some (quality o).
Proof. unfold repo_attrs. rewrite lookup_insert_ne by done. apply lookup_insert_eq. Qed.

Lemma repo_attrs_priority (o : Overlay) :
  repo_attrs o !! "priority" = Some (str_int (priority o)).
Proof. apply lookup_insert_eq. Qed.

Lemma repo_attrs_other (o : Overlay) (t : string) :
  t <> "priority" -> t <> "quality" -> t <> "status" -> repo_attrs o !! t = None.
Proof.
  intros Hp Hq Hs. unfold repo_attrs. rewrite !lookup_insert_ne by done.
  destruct (status o); [by apply lookup_singleton_ne | apply lookup_empty].
Qed.

Lemma filter_typed (l : list OverlaySource) :
  List.filter (fun e => bool_decide (is_Some (attrib e !! "type"))) (source_node <$> l)
  = source_node <$> l.
Proof.
  induction l as [|s l IH]; [done|]. rewrite fmap_cons. simpl.
  rewrite lookup_singleton_eq, bool_decide_eq_true_2 by eauto. f_equal. exact IH.
Qed.

Lemma create_sources_written (n b : string) (l : list OverlaySource) :
  (forall s, s ∈ l -> is_Some (OVERLAY_TYPES !! type_key (source.class s))) ->
  mapM (create_overlay_source n (Some b)) (source_node <$> l) = ret (reread_source <$> l).
Proof.
  induction l as [|s l IH]; intros Hl; [done|]. rewrite !fmap_cons. cbn [mapM].
  rewrite IH by (intros s' Hs'; by apply Hl, list_elem_of_further).
  destruct (Hl s (list_elem_of_here _ _)) as [c Hc].
  unfold create_overlay_source, reread_source. simpl.
  rewrite lookup_singleton_eq, Hc. simpl.
  unfold source.new. by destruct (init_reads_branch c).
Qed.

Lemma attrib_written (o : Overlay) : attrib (written o) = repo_attrs o.
Proof. reflexivity. Qed.

Lemma source_elems_written (o : Overlay) :
  sources o <> [] -> source_elems (written o) = source_node <$> sources o.
Proof.
  intros Hne. unfold source_elems. rewrite written_findall_source.
  destruct (sources o) as [|s ss]; [done|]. exact (filter_typed (s :: ss)).
Qed.

(** Reading the written tree of an overlay that has a source, of known
    types: no message, no exception, and the overlay [reread o]. *)
Lemma from_xml_written (o : Overlay) (ign : Z) :
  sources o <> [] -> known_types o ->
  from_xml (written o) ign = ([], Ok (reread o)).
Proof.
  intros Hne Hknown. unfold from_xml.
  unfold read_name. rewrite written_find_name, bind_ret_l.
  rewrite (source_elems_written o Hne).
  rewrite bool_decide_eq_false_2 by (rewrite length_fmap; by destruct (sources o)).
  rewrite bind_ret_l.
  unfold read_hint. rewrite !written_find_none by auto.
  rewrite !attrib_written, !repo_attrs_other by done. rewrite bind_ret_l.
  rewrite create_sources_written by exact Hknown. rewrite !bind_ret_l.
  unfold read_owner. rewrite written_find_owner.
  unfold read_description. rewrite written_find_description.
  unfold read_priority, read_quality, read_homepage.
  rewrite !attrib_written.
  rewrite repo_attrs_priority, repo_attrs_quality, repo_attrs_status, int_of_str_str_int.
  rewrite written_find_homepage, written_find_irc, written_findall_feed.
  rewrite (written_find_none "link") by auto.
  unfold reread, owner_node, optional_node. rewrite <- list_fmap_compose.
  destruct (owner_name o), (owner_email o), (homepage o), (irc o); reflexivity.
Qed.

(** *** Stores that survive the round trip *)

(** White space at the ends of [s] is what [strip] removes. *)
Definition clean (s : string) : Prop := strip s = s.

(** The fields of [o] are as [from_xml] leaves them: texts without white
    space at the ends, white space in the description collapsed, an owner
    e-mail that is a text. *)
Definition normalised (o : Overlay) : Prop :=
  clean (name o) /\
  sub_whitespace (strip (description o)) = description o /\
  (forall h, homepage o = Some h -> clean h) /\
  (exists e, owner_email o = Some e /\ clean e) /\
  (forall n, owner_name o = Some n -> clean n) /\
  (forall s, s ∈ sources o -> clean (src s)).

(** What the round trip asks of an overlay of the store. *)
Definition writable (o : Overlay) : Prop :=
  normalised o /\ silent_hooks o /\ sources o <> [] /\ known_types o.

Lemma contains_true (i : OverlaySource) (l : list OverlaySource) :
  contains i l = true <-> exists e, e ∈ l /\ source_eq i e = true.
Proof.
  unfold contains. rewrite existsb_exists.
  split; intros (e & He & Heq); exists e; (split; [by apply list_elem_of_In | done]).
Qed.

Lemma reread_equal (o : Overlay) :
  (forall s, encode s = s) ->
  (forall a b, src a = src b -> source_eq a b = true) ->
  normalised o ->
  Overlay_eq (reread o) o = true /\ name (reread o) = name o.
Proof.
  intros Henc Hsrc (Hname & Hdesc & Hhome & (e & Hemail & He) & Howner & Hsources).
  assert (forall s, s ∈ sources o -> src (reread_source s) = src s) as Hloc
    by (intros s Hs; simpl; by rewrite Henc, (Hsources s Hs)).
  split; [|by simpl; rewrite Henc].
  apply Overlay_eq_true. simpl. rewrite !Henc, Hemail, He.
  split; [done|]. split.
  { destruct (homepage o) as [h|] eqn:Hh; simpl; [|done]. by rewrite Henc, (Hhome h). }
  split; [done|]. split; [done|]. split.
  { destruct (owner_name o) as [n|] eqn:Hn; simpl; [|done]. by rewrite Henc, (Howner n). }
  split; [done|]. split.
  { destruct (status o); simpl; by rewrite ?Henc. }
  intros i Hi. simpl in Hi. rewrite !contains_true. simpl.
  apply elem_of_app in Hi as [Hi|Hi].
  - apply list_elem_of_fmap in Hi as (s & -> & Hs). split.
    + exists (reread_source s). split; [|by apply Hsrc].
      apply list_elem_of_fmap. by exists s.
    + exists s. split; [done|]. by apply Hsrc, Hloc.
  - split.
    + exists (reread_source i). split; [|by apply Hsrc; symmetry; apply Hloc].
      apply list_elem_of_fmap. by exists i.
    + exists i. by split; [|apply Hsrc].
Qed.

Lemma read_nodes_written (ign : Z) (os : list Overlay) :
  forall nodes' m,
    Forall2 reparsed (to_xml <$> os) nodes' ->
    Forall (fun o => silent_hooks o /\ sources o <> [] /\ known_types o) os ->
    exists msgs,
      read_nodes ign nodes' m = (Ok tt, foldl store_overlay m (reread <$> os), msgs).
Proof.
  induction os as [|o os IH]; intros nodes' m Hrel Hos.
  - apply Forall2_nil_inv_l in Hrel as ->. by exists [].
  - rewrite fmap_cons in Hrel.
    apply Forall2_cons_inv_l in Hrel as (node' & rest' & Hnode & Hrest & ->).
    apply Forall_cons in Hos as [(Hhooks & Hne & Hknown) Hos].
    rewrite (to_xml_shape o Hhooks) in Hnode. fold (written o) in Hnode.
    cbn [read_nodes].
    rewrite (from_xml_reparsed _ _ ign Hnode (written_flat o)).
    rewrite (from_xml_written o ign Hne Hknown).
    destruct (IH rest' (<[name (reread o) := reread o]> m) Hrest Hos) as [msgs ->].
    by eexists.
Qed.

(** Storing, from nothing, what reading back makes of the values of a
    store: every name is bound to what reading back makes of its entity. *)
Lemma lookup_reread (m : gmap string Overlay) (k : string) :
  keyed m -> (forall k o, m !! k = Some o -> name (reread o) = name o) ->
  foldl store_overlay ∅ (reread <$> values m) !! k = reread <$> m !! k.
Proof.
  intros Hkeyed Hname. rewrite lookup_store_overlays, lookup_empty.
  assert (forall o', o' ∈ reread <$> values m ->
                     exists o, o' = reread o /\ m !! name o' = Some o) as Hin.
  { intros o' (o & -> & Ho)%list_elem_of_fmap. exists o. split; [done|].
    unfold values in Ho. apply list_elem_of_fmap in Ho as ([k' o2] & -> & Hko).
    apply elem_of_map_to_list in Hko. cbn [snd].
    by rewrite (Hname _ _ Hko), (Hkeyed _ _ Hko). }
  destruct (last_named k (reread <$> values m)) as [o'|] eqn:Hl.
  - apply last_named_name in Hl as [Hk Ho'].
    destruct (Hin o' Ho') as (o & -> & Ho). rewrite Hk in Ho. by rewrite Ho.
  - destruct (m !! k) as [o|] eqn:Hk; [|done]. exfalso.
    rewrite last_named_none in Hl. apply (Hl (reread o)).
    + apply list_elem_of_fmap. exists o. split; [done|]. unfold values.
      apply list_elem_of_fmap. exists (k, o). split; [done|]. by apply elem_of_map_to_list.
    + by rewrite (Hname _ _ Hk), (Hkeyed _ _ Hk).
Qed.

Lemma reparsed_tags (t : string) (l l' : list Element) :
  Forall2 reparsed l l' -> Forall (fun e => tag e = t) l -> Forall (fun e => tag e = t) l'.
Proof.
  induction 1 as [|e e' l l' He _ IH]; intros Hl; [constructor|].
  apply Forall_cons in Hl as [Ht Hl]. constructor; [|by apply IH].
  apply reparsed_inv in He as (-> & _). exact Ht.
Qed.

Lemma filter_tagged (t t' : string) (l : list Element) :
  Forall (fun e => tag e = t) l ->
  List.filter (has_tag t') l = if bool_decide (t = t') then l else [].
Proof.
  induction 1 as [|e l He _ IH]; simpl; [by case_bool_decide|].
  unfold has_tag at 1. rewrite He, IH. by case_bool_decide.
Qed.

(** C3, as the code has it.  A store whose overlays are stored under their
    names, have fields as [from_xml] leaves them, at least one source, types
    of the registry and hooks that add nothing: when [write] succeeds, the
    file holds a text which [read], on a store that holds nothing yet,
    parses into a store equal to the original.  This is on an [encode] that
    leaves text as it is, a source equality that holds of sources with the
    same location, a set whose iteration gives the names put into it, and
    an XML layer that parses the written text into the written tree (same
    tags, attributes and children, same text in elements without children,
    no text and empty text being one). *)
Theorem write_read_round_trip (db self : DbBase) (path : string) (fs fs' : FS)
    (document : Element) :
  (forall s, encode s = s) ->
  (forall a b, src a = src b -> source_eq a b = true) ->
  set_list_sound ->
  keyed (overlays db) ->
  (forall k o, overlays db !! k = Some o -> writable o) ->
  overlays self = ∅ ->
  write db path fs = Ok fs' ->
  ET_fromstring (write_text db) = inr document ->
  reparsed (write_tree db) document ->
  exists text db' msgs,
    files fs' !! path = Some text /\
    read self text path = (Ok tt, db', msgs) /\
    DbBase_eq db' db = Ok true.
Proof.
  intros Henc Hsrc Hset Hkeyed Hall Hempty Hwrite Hparse Hrel.
  assert (Forall writable (values (overlays db))) as Hvalues.
  { apply Forall_forall. intros o ([k o'] & -> & Hko)%list_elem_of_fmap.
    apply elem_of_map_to_list in Hko. by eapply Hall. }
  exists (write_text db). unfold read. rewrite Hparse.
  inversion Hrel as [t a x x' c c' Hkids _ Ht Hdoc]. subst.
  assert (overlay_nodes (Elem "repositories" {["version" := "1.0"]} x' c') = c') as ->.
  { unfold overlay_nodes, findall. cbn [children].
    assert (Forall (fun e => tag e = "repo") c') as Htags.
    { eapply reparsed_tags; [exact Hkids|]. apply Forall_fmap.
      eapply Forall_impl; [exact Hvalues|]. intros o (_ & Hhooks & _). simpl.
      by rewrite (to_xml_shape o Hhooks). }
    by rewrite !(filter_tagged "repo" _ c' Htags). }
  destruct (read_nodes_written (ignore self) (values (overlays db)) c' (overlays self) Hkids)
    as [msgs ->].
  { eapply Forall_impl; [exact Hvalues|]. by intros o (_ & ? & ? & ?). }
  rewrite Hempty. eexists _, _. split; [|split; [reflexivity|]].
  - unfold write, write_file in Hwrite.
    destruct (_ || _); [discriminate|]. injection Hwrite as <-. apply lookup_insert_eq.
  - assert (forall k, foldl store_overlay ∅ (reread <$> values (overlays db)) !! k
                      = reread <$> overlays db !! k) as Hlook.
    { intros k. apply lookup_reread; [done|]. intros k' o Ho.
      destruct (Hall k' o Ho) as (Hnorm & _). by apply reread_equal. }
    unfold DbBase_eq. cbn [overlays set_overlays]. apply eq_keys_true, Forall_forall.
    intros k Hk. apply Hset, elem_of_app in Hk.
    assert (is_Some (overlays db !! k)) as [o Ho].
    { destruct Hk as [Hk|Hk]; apply elem_of_keys in Hk; [|done].
      rewrite Hlook in Hk. by apply fmap_is_Some in Hk. }
    exists (reread o), o. rewrite Hlook, Ho. split; [done|]. split; [done|].
    destruct (Hall k o Ho) as (Hnorm & _). by apply reread_equal.
Qed.

End RoundTrip.

(** ** The two ways to construct an overlay *)

Section Construction.

Import ET overlay.

Context `{Externals}.

(** An overlay definition, whatever form it is given in.  A source is a
    type and a location. *)
Record definition : Type := {
  def_name : string;
  def_sources : list (string * string);
  def_owner_name : option string;
  def_owner_email : option string;
  def_description : option string;
  def_status : option string;
  def_quality : option string;
  def_priority : option Z;
  def_homepage : option string;
  def_feeds : list string;
  def_irc : option string
}.

Definition def_source_node (s : string * string) : Element :=
  Elem "source" {[ "type" := s.1 ]} (Some s.2) [].

Definition def_owner_nodes (d : definition) : list Element :=
  match def_owner_name d, def_owner_email d with
  | None, None => []
  | n, e => [Elem "owner" ∅ None (optional_node "email" e ++ optional_node "name" n)]
  end.

Definition set_attribute (k : string) (v : option string) (a : gmap string string)
    : gmap string string :=
  match v with
  | Some x => <[k := x]> a
  | None => a
  end.

Definition def_attrs (d : definition) : gmap string string :=
  set_attribute "status" (def_status d)
    (set_attribute "quality" (def_quality d)
       (set_attribute "priority" (str_int <$> def_priority d) ∅)).

Definition def_children (d : definition) : list Element :=
  [leaf "name" (Some (def_name d))] ++
  optional_node "description" (def_description d) ++
  optional_node "homepage" (def_homepage d) ++ optional_node "irc" (def_irc d) ++
  def_owner_nodes d ++ (def_source_node <$> def_sources d) ++ (feed_node <$> def_feeds d).

(** The definition as a node of a structured document. *)
Definition as_node (d : definition) : Element := Elem "repo" (def_attrs d) None (def_children d).

(** The definition as a plain key/value mapping. *)
Definition as_mapping (d : definition) : ovl_dict :=
  {| d_name := Some (def_name d);
     d_sources := Some ((fun s => (s.2, s.1, "")) <$> def_sources d);
     d_owner_name := def_owner_name d;
     d_owner_email := def_owner_email d;
     d_description := def_description d;
     d_status := def_status d;
     d_quality := Some (default "" (def_quality d));
     d_priority := match def_priority d with Some p => PInt p | None => PNone end;
     d_homepage := def_homepage d;
     d_feeds := def_feeds d;
     d_irc := def_irc d |}.

(** The definitions on which the two constructions are compared: texts
    without white space at the ends; at least one source, each of a type of
    the registry whose constructor does not read [parent.branch]; an owner
    name and an owner e-mail given together or not at all; a status that is
    not the empty text and a priority that is not 0. *)
Definition comparable (d : definition) : Prop :=
  clean (def_name d) /\
  def_sources d <> [] /\
  (forall s, s ∈ def_sources d ->
     clean s.2 /\ exists c, OVERLAY_TYPES !! s.1 = Some c /\ init_reads_branch c = false) /\
  (forall n, def_owner_name d = Some n -> clean n) /\
  (forall e, def_owner_email d = Some e -> clean e) /\
  (def_owner_name d = None <-> def_owner_email d = None) /\
  (forall x, def_description d = Some x -> clean x) /\
  def_status d <> Some "" /\
  def_priority d <> Some 0 /\
  (forall h, def_homepage d = Some h -> clean h) /\
  (forall i, i ∈ def_feeds d -> clean i) /\
  (forall i, def_irc d = Some i -> clean i).

(** The source objects both constructions build. *)
Definition def_source (s : string * string) : OverlaySource :=
  {| source.class := default GitOverlay (OVERLAY_TYPES !! s.1); src := encode s.2 |}.

(** The overlay both constructions build, but for [branch], [subpath] and
    the e-mail of a definition that has none. *)
Definition built (d : definition) (branch_ : option string) (no_email : option string)
    : Overlay :=
  {| name := encode (def_name d);
     branch := branch_; subpath := branch_;
     sources := def_source <$> def_sources d;
     owner_email := match def_owner_email d with Some e => Some (encode e) | None => no_email end;
     owner_name := encode <$> def_owner_name d;
     description := default "" ((fun x => encode (sub_whitespace x)) <$> def_description d);
     status := encode <$> def_status d;
     quality := match def_quality d with
                | Some q => if bool_decide (q ∈ QUALITY_LEVELS) then encode q else "experimental"
                | None => "experimental"
                end;
     priority := default 50 (def_priority d);
     homepage := encode <$> def_homepage d;
     feeds := encode <$> def_feeds d;
     irc := encode <$> def_irc d |}.

(** The check of a field that may be missing. *)
Definition check_field {A : Type} (field : option A) (ignore : Z) (raised warned : string)
    : Log unit :=
  match field with
  | Some _ => ret tt
  | None => missing_field ignore raised warned
  end.

Lemma bind_assoc {A B C : Type} (c : Log A) (f : A -> Log B) (g : B -> Log C) :
  py.bind (py.bind c f) g = py.bind c (fun a => py.bind (f a) g).
Proof.
  destruct c as [l [a|e]]; simpl; [|done].
  destruct (f a) as [l1 [b|e]]; simpl; [|done].
  destruct (g b) as [l2 r]. by rewrite app_assoc.
Qed.

Lemma bind_tell {B : Type} (m : message) (k : unit -> Log B) :
  py.bind (tell m) k = (m :: (k tt).1, (k tt).2).
Proof. unfold py.bind, tell. by destruct (k tt). Qed.

Lemma bind_tell_eq {B : Type} (m : message) (k k' : unit -> Log B) :
  k tt = k' tt -> py.bind (tell m) k = py.bind (tell m) k'.
Proof. intros Hk. by rewrite !bind_tell, Hk. Qed.

Lemma bind_raise {A B : Type} (e : exn) (k : A -> Log B) : py.bind (py.raise e) k = py.raise e.
Proof. reflexivity. Qed.

Ltac run_log :=
  repeat (rewrite ?bind_assoc, ?bind_raise, ?bind_tell, ?bind_ret_l).

Lemma empty_not_level : "" ∉ QUALITY_LEVELS.
Proof. intros Hq. apply (bool_decide_eq_true_2 _) in Hq. vm_compute in Hq. discriminate Hq. Qed.

Lemma quality_level_not_empty (q : string) :
  bool_decide (q ≠ "") && bool_decide (q ∈ QUALITY_LEVELS) = bool_decide (q ∈ QUALITY_LEVELS).
Proof.
  destruct (bool_decide (q ∈ QUALITY_LEVELS)) eqn:Hq; [|by rewrite andb_false_r].
  rewrite andb_true_r. apply bool_decide_eq_true_2. intros ->.
  vm_compute in Hq. discriminate Hq.
Qed.

Lemma create_dict_sources (n : string) (l : list (string * string)) :
  (forall s, s ∈ l -> exists c, OVERLAY_TYPES !! s.1 = Some c /\ init_reads_branch c = false) ->
  mapM (create_dict_overlay_source n None) ((fun s => (s.2, s.1, "")) <$> l)
  = ret (def_source <$> l).
Proof.
  induction l as [|s l IH]; intros Hl; [done|]. rewrite !fmap_cons. cbn [mapM].
  rewrite IH by (intros s' Hs'; by apply Hl, list_elem_of_further).
  destruct (Hl s (list_elem_of_here _ _)) as (c & Hc & Hinit).
  unfold create_dict_overlay_source, def_source, source.new. rewrite Hc, Hinit. reflexivity.
Qed.

(** [from_dict] on a comparable definition: the trace of the mapping, the
    two checks, then the overlay, without [branch] and [subpath]. *)
Lemma from_dict_as_mapping (d : definition) (ign : Z) :
  comparable d ->
  from_dict (as_mapping d) ign =
  (do! tell (debug ("Overlay from_dict(); overlay" +:+ str_dict (as_mapping d)) None) in
   do! check_field (def_owner_email d) ign
         ("Overlay from_dict(), " +:+ dq +:+ encode (def_name d) +:+ dq +:+
          " is missing an " +:+ dq +:+ "owner.email" +:+ dq +:+ " entry!")
         ("Overlay from_dict(), " +:+ dq +:+ encode (def_name d) +:+ dq +:+
          " is missing an " +:+ dq +:+ "owner.email" +:+ dq +:+ " entry!") in
   do! check_field (def_description d) ign
         ("Overlay from_dict(), " +:+ dq +:+ encode (def_name d) +:+ dq +:+
          " is missing a " +:+ dq +:+ "description" +:+ dq +:+ " entry!")
         ("Overlay from_dict(), " +:+ dq +:+ encode (def_name d) +:+ dq +:+
          " is missing a " +:+ dq +:+ "description" +:+ dq +:+ " entry!") in
   ret (built d None None)).
Proof.
  intros (_ & _ & Hsrc & _ & _ & Howner & _ & Hstatus & Hprio & _).
  unfold from_dict. apply bind_tell_eq. cbv beta.
  unfold as_mapping, built. cbn [d_name d_sources d_owner_name d_owner_email
    d_description d_status d_quality d_priority d_homepage d_feeds d_irc].
  rewrite !bind_ret_l.
  rewrite create_dict_sources by (intros s Hs; by destruct (Hsrc s Hs)).
  rewrite bind_ret_l.
  assert (match def_status d with
          | Some s => if bool_decide (s = "") then None else Some (encode s)
          | None => None
          end = encode <$> def_status d) as ->.
  { destruct (def_status d) as [s|]; [|done].
    rewrite bool_decide_eq_false_2; [done | congruence]. }
  rewrite quality_level_not_empty.
  assert ((if priority_truth match def_priority d with Some p => PInt p | None => PNone end
           then match match def_priority d with Some p => PInt p | None => PNone end with
                | PNone => ret 50
                | PInt n => ret n
                | PStr p =>
                    match int_of_str p with
                    | Some n => ret n
                    | None => raise (ValueError ("invalid literal for int() with base 10: '" +:+ p +:+ "'"))
                    end
                end
           else ret 50) = ret (default 50 (def_priority d))) as Hp.
  { destruct (def_priority d) as [p|]; [|done]. simpl.
    destruct (Z.eqb_spec p 0); [congruence | done]. }
  unfold check_field, missing_field.
  destruct (def_owner_name d) as [n|], (def_owner_email d) as [e|];
    try (by (destruct Howner as [Ho1 Ho2]; first [specialize (Ho1 eq_refl) | specialize (Ho2 eq_refl)]));
    destruct (def_description d) as [x|], (def_quality d) as [q|]; cbn [default];
    repeat case_bool_decide; run_log; rewrite ?Hp; run_log; try reflexivity; try done;
    by destruct empty_not_level.
Qed.

Lemma lookup_set_attribute_ne (k k' : string) (v : option string) (a : gmap string string) :
  k <> k' -> set_attribute k v a !! k' = a !! k'.
Proof. intros Hne. destruct v; simpl; [by rewrite lookup_insert_ne | done]. Qed.

Lemma lookup_set_attribute_eq (k : string) (v : option string) (a : gmap string string) :
  a !! k = None -> set_attribute k v a !! k = v.
Proof. intros Ha. destruct v; simpl; [apply lookup_insert_eq | done]. Qed.

Lemma def_attrs_status (d : definition) : def_attrs d !! "status" = def_status d.
Proof.
  unfold def_attrs. apply lookup_set_attribute_eq.
  by rewrite !lookup_set_attribute_ne, lookup_empty.
Qed.

Lemma def_attrs_quality (d : definition) : def_attrs d !! "quality" = def_quality d.
Proof.
  unfold def_attrs. rewrite lookup_set_attribute_ne by done.
  apply lookup_set_attribute_eq. by rewrite lookup_set_attribute_ne, lookup_empty.
Qed.

Lemma def_attrs_priority (d : definition) :
  def_attrs d !! "priority" = str_int <$> def_priority d.
Proof.
  unfold def_attrs. rewrite !lookup_set_attribute_ne by done.
  apply lookup_set_attribute_eq, lookup_empty.
Qed.

Lemma def_attrs_other (d : definition) (t : string) :
  t <> "priority" -> t <> "quality" -> t <> "status" -> def_attrs d !! t = None.
Proof.
  intros Hp Hq Hs. unfold def_attrs. by rewrite !lookup_set_attribute_ne, lookup_empty.
Qed.

Lemma def_source_node_tag (s : string * string) : tag (def_source_node s) = "source".
Proof. reflexivity. Qed.

Lemma def_find_tail (t : string) (d : definition) :
  t <> "source" -> t <> "feed" ->
  List.find (has_tag t) ((def_source_node <$> def_sources d) ++ (feed_node <$> def_feeds d))
  = None.
Proof.
  intros Hs Hf.
  rewrite (find_fmap_other def_source_node "source") by (done || apply def_source_node_tag).
  rewrite <- (app_nil_r (feed_node <$> def_feeds d)).
  by rewrite (find_fmap_other feed_node "feed") by (done || apply feed_node_tag).
Qed.

Lemma def_filter_tail_source (d : definition) :
  List.filter (has_tag "source")
              ((def_source_node <$> def_sources d) ++ (feed_node <$> def_feeds d))
  = def_source_node <$> def_sources d.
Proof.
  rewrite (filter_fmap_same def_source_node "source") by apply def_source_node_tag.
  rewrite <- (app_nil_r (feed_node <$> def_feeds d)).
  rewrite (filter_fmap_other feed_node "feed") by (done || apply feed_node_tag).
  apply app_nil_r.
Qed.

Lemma def_filter_tail_feed (d : definition) :
  List.filter (has_tag "feed")
              ((def_source_node <$> def_sources d) ++ (feed_node <$> def_feeds d))
  = feed_node <$> def_feeds d.
Proof.
  rewrite (filter_fmap_other def_source_node "source") by (done || apply def_source_node_tag).
  rewrite <- (app_nil_r (feed_node <$> def_feeds d)) at 1.
  rewrite (filter_fmap_same feed_node "feed") by apply feed_node_tag.
  apply app_nil_r.
Qed.

Ltac in_node d :=
  unfold find, findall, as_node, def_children, def_owner_nodes, optional_node; cbn [children];
  destruct (def_description d), (def_homepage d), (def_irc d), (def_owner_name d),
    (def_owner_email d);
  cbn [app List.find List.filter has_tag tag leaf];
  repeat (rewrite ?bool_decide_eq_true_2, ?bool_decide_eq_false_2 by done);
  rewrite ?def_find_tail, ?def_filter_tail_source, ?def_filter_tail_feed by done.

Lemma node_find_name (d : definition) :
  find "name" (as_node d) = Some (leaf "name" (Some (def_name d))).
Proof. by in_node d. Qed.

Lemma node_find_description (d : definition) :
  find "description" (as_node d) = (fun x => leaf "description" (Some x)) <$> def_description d.
Proof. by in_node d. Qed.

Lemma node_find_homepage (d : definition) :
  find "homepage" (as_node d) = (fun x => leaf "homepage" (Some x)) <$> def_homepage d.
Proof. by in_node d. Qed.

Lemma node_find_irc (d : definition) :
  find "irc" (as_node d) = (fun x => leaf "irc" (Some x)) <$> def_irc d.
Proof. by in_node d. Qed.

Lemma node_find_owner (d : definition) : find "owner" (as_node d) = head (def_owner_nodes d).
Proof. by in_node d. Qed.

Lemma node_find_none (t : string) (d : definition) :
  t = "link" \/ t = "branch" \/ t = "subpath" -> find t (as_node d) = None.
Proof. intros [->|[->| ->]]; by in_node d. Qed.

Lemma node_findall_source (d : definition) :
  findall "source" (as_node d) = def_source_node <$> def_sources d.
Proof. by in_node d. Qed.

Lemma node_findall_feed (d : definition) :
  findall "feed" (as_node d) = feed_node <$> def_feeds d.
Proof. by in_node d. Qed.

Lemma def_filter_typed (l : list (string * string)) :
  List.filter (fun e => bool_decide (is_Some (attrib e !! "type"))) (def_source_node <$> l)
  = def_source_node <$> l.
Proof.
  induction l as [|s l IH]; [done|]. rewrite fmap_cons. simpl.
  rewrite lookup_singleton_eq, bool_decide_eq_true_2 by eauto. f_equal. exact IH.
Qed.

Lemma node_source_elems (d : definition) :
  def_sources d <> [] -> source_elems (as_node d) = def_source_node <$> def_sources d.
Proof.
  intros Hne. unfold source_elems. rewrite node_findall_source.
  destruct (def_sources d) as [|s ss]; [done|]. exact (def_filter_typed (s :: ss)).
Qed.

Lemma create_node_sources (n b : string) (l : list (string * string)) :
  (forall s, s ∈ l -> clean s.2 /\ exists c, OVERLAY_TYPES !! s.1 = Some c /\
                                             init_reads_branch c = false) ->
  mapM (create_overlay_source n (Some b)) (def_source_node <$> l) = ret (def_source <$> l).
Proof.
  induction l as [|s l IH]; intros Hl; [done|]. rewrite !fmap_cons. cbn [mapM].
  rewrite IH by (intros s' Hs'; by apply Hl, list_elem_of_further).
  destruct (Hl s (list_elem_of_here _ _)) as (Hclean & c & Hc & Hinit).
  unfold create_overlay_source, def_source, source.new, strip_text. simpl.
  rewrite lookup_singleton_eq, Hc, Hinit, Hclean. reflexivity.
Qed.

(** [from_xml] on a comparable definition: the two checks, then the
    overlay, with empty [branch] and [subpath]. *)
Lemma from_xml_as_node (d : definition) (ign : Z) :
  comparable d ->
  from_xml (as_node d) ign =
  (do! check_field (def_owner_email d) ign
         ("Overlay  from_xml(), " +:+ dq +:+ encode (def_name d) +:+ dq +:+
          " is missing an " +:+ dq +:+ "owner.email" +:+ dq +:+ " entry!")
         ("Overlay " +:+ dq +:+ encode (def_name d) +:+ dq +:+
          " is missing a " +:+ dq +:+ "owner.email" +:+ dq +:+ " entry!") in
   do! check_field (def_description d) ign
         ("Overlay  from_xml(), " +:+ dq +:+ encode (def_name d) +:+ dq +:+
          " is missing a description" +:+ dq +:+ " entry!")
         ("Overlay " +:+ dq +:+ encode (def_name d) +:+ dq +:+
          " is missing a " +:+ dq +:+ "description" +:+ dq +:+ " entry!") in
   ret (built d (Some "") (Some ""))).
Proof.
  intros (Hname & Hne & Hsrc & Hon & Hoe & Howner & Hdesc & _ & _ & Hhome & Hfeeds & Hirc).
  unfold from_xml.
  unfold read_name. rewrite node_find_name. unfold strip_text at 1. cbn [text leaf].
  rewrite Hname, bind_ret_l, (node_source_elems d Hne).
  rewrite bool_decide_eq_false_2 by (rewrite length_fmap; by destruct (def_sources d)).
  rewrite bind_ret_l.
  unfold read_hint. rewrite !node_find_none by auto.
  change (attrib (as_node d)) with (def_attrs d).
  rewrite !def_attrs_other by done. rewrite bind_ret_l.
  rewrite create_node_sources by exact Hsrc. rewrite !bind_ret_l.
  unfold read_owner, read_description, read_priority, read_quality, read_homepage.
  change (attrib (as_node d)) with (def_attrs d).
  rewrite node_find_owner, node_find_description, node_find_homepage, node_find_irc,
    node_findall_feed, (node_find_none "link") by auto.
  rewrite def_attrs_priority, def_attrs_quality, def_attrs_status,
    (def_attrs_other d "contact") by done.
  assert ((fun e => encode (strip_text e)) <$> (feed_node <$> def_feeds d)
          = encode <$> def_feeds d) as ->.
  { rewrite <- list_fmap_compose. apply list_fmap_ext. intros _ i Hi%list_elem_of_lookup_2.
    simpl. unfold strip_text. simpl. by rewrite (Hfeeds i Hi). }
  unfold check_field, missing_field, built, def_owner_nodes, optional_node, strip_text.
  destruct (def_owner_name d) as [n|] eqn:En, (def_owner_email d) as [e|] eqn:Ee;
    try (by (destruct Howner as [Ho1 Ho2]; first [specialize (Ho1 eq_refl) | specialize (Ho2 eq_refl)]));
    destruct (def_description d) as [x|] eqn:Ex, (def_priority d) as [p|],
      (def_homepage d) as [h|] eqn:Eh, (def_irc d) as [i|] eqn:Ei;
    simpl; rewrite ?int_of_str_str_int, ?(Hon _ eq_refl), ?(Hoe _ eq_refl),
      ?(Hdesc _ eq_refl), ?(Hhome _ eq_refl), ?(Hirc _ eq_refl);
    repeat case_bool_decide; run_log; reflexivity.
Qed.

(** A message without its text. *)
Definition kind_of (m : message) : string * option Z :=
  match m with
  | debug _ l => ("debug", l)
  | info _ l => ("info", l)
  | warn _ l => ("warn", l)
  | error _ => ("error", None)
  end.

(** The recommended fields the definition lacks. *)
Definition missing_fields (d : definition) : nat :=
  (match def_owner_email d with Some _ => 0 | None => 1 end +
   match def_description d with Some _ => 0 | None => 1 end)%nat.

(** The two overlays agree on every field but [branch], [subpath] and
    [owner_email]. *)
Definition agree (o1 o2 : Overlay) : Prop :=
  name o1 = name o2 /\ sources o1 = sources o2 /\ owner_name o1 = owner_name o2 /\
  description o1 = description o2 /\ status o1 = status o2 /\ quality o1 = quality o2 /\
  priority o1 = priority o2 /\ homepage o1 = homepage o2 /\ feeds o1 = feeds o2 /\
  irc o1 = irc o2.

(** C6, as the code has it.  On a comparable definition, given as a node
    and as a mapping, and at every ignore level: [from_dict] first sends a
    debug message with the representation of the mapping, which [from_xml]
    has no counterpart of; after it the two constructions send the same
    messages up to their text (at level 1 one warning at verbosity 4 for
    each missing recommended field, at any other level none); both raise an
    [Exception] when the level is 0 and a recommended field is missing, and
    otherwise both build an overlay; the two overlays agree on name,
    sources, owner name, description, status, quality, priority, homepage,
    feeds and irc, and on the owner e-mail when the definition has one. *)
Theorem constructions_agree (d : definition) (ign : Z) :
  comparable d ->
  (exists rest,
     (from_dict (as_mapping d) ign).1 =
     debug ("Overlay from_dict(); overlay" +:+ str_dict (as_mapping d)) None :: rest /\
     kind_of <$> (from_xml (as_node d) ign).1 = kind_of <$> rest)
  /\ kind_of <$> (from_xml (as_node d) ign).1 =
     (if bool_decide (ign = 1) then replicate (missing_fields d) ("warn", Some 4) else [])
  /\ (ign = 0 /\ missing_fields d <> 0%nat ->
      exists tx td, (from_xml (as_node d) ign).2 = Raise (Exception tx) /\
                    (from_dict (as_mapping d) ign).2 = Raise (Exception td))
  /\ (~ (ign = 0 /\ missing_fields d <> 0%nat) ->
      exists o1 o2, (from_xml (as_node d) ign).2 = Ok o1 /\
                    (from_dict (as_mapping d) ign).2 = Ok o2 /\
                    agree o1 o2 /\
                    (is_Some (def_owner_email d) -> owner_email o1 = owner_email o2)).
Proof.
  intros Hd. rewrite (from_xml_as_node d ign Hd), (from_dict_as_mapping d ign Hd).
  unfold check_field, missing_field, missing_fields, built, agree.
  destruct (def_owner_email d) as [e|], (def_description d) as [x|];
    repeat case_bool_decide; try lia; run_log; simpl;
    (split; [by eexists|]); (split; [reflexivity|]); split;
    try (intros [? ?]; first [lia | done | by eexists _, _]);
    try (intros Hnot; first [by destruct Hnot | by (eexists _, _; repeat split)]).
Qed.

End Construction.

(** ** The properties at work on the concrete machine *)

Module example.

Import ET overlay os dbbase db reference.

(** A store that has read nothing yet. *)
Definition empty_store (c : db_class) (ign : Z) : DbBase :=
  {| dbbase.class := c; paths := []; ignore := ign; ignore_init_read_errors := false;
     overlays := ∅ |}.

Definition q (s : string) : string := dq +:+ s +:+ dq.

(** A catalog in the format [write] produces, with the overlay of the
    doctests. *)
Definition global_overlays : string :=
  "<?xml version=" +:+ q "1.0" +:+ " encoding=" +:+ q "UTF-8" +:+ "?>" +:+ nl +:+
  "<repositories version=" +:+ q "1.0" +:+ ">" +:+ nl +:+
  "  <repo quality=" +:+ q "experimental" +:+ " priority=" +:+ q "50" +:+ ">" +:+ nl +:+
  "    <name>wrobel-stable</name>" +:+ nl +:+
  "    <description>A collection of ebuilds from Gunnar Wrobel [wrobel@gentoo.org].</description>" +:+ nl +:+
  "    <owner>" +:+ nl +:+
  "      <email>nobody@gentoo.org</email>" +:+ nl +:+
  "    </owner>" +:+ nl +:+
  "    <source type=" +:+ q "rsync" +:+ ">rsync://gunnarwrobel.de/wrobel-stable</source>" +:+ nl +:+
  "  </repo>" +:+ nl +:+
  "</repositories>" +:+ nl.

(** A second catalog: it defines [wrobel-stable] again, with another
    source, and one more overlay. *)
Definition mirror_overlays : string :=
  "<repositories version=" +:+ q "1.0" +:+ ">" +:+ nl +:+
  "  <repo quality=" +:+ q "stable" +:+ " priority=" +:+ q "10" +:+ ">" +:+ nl +:+
  "    <name>wrobel-stable</name>" +:+ nl +:+
  "    <description>The mirror.</description>" +:+ nl +:+
  "    <owner><email>mirror@gentoo.org</email></owner>" +:+ nl +:+
  "    <source type=" +:+ q "git" +:+ ">git://mirror.example.org/wrobel-stable.git</source>" +:+ nl +:+
  "  </repo>" +:+ nl +:+
  "  <repo quality=" +:+ q "testing" +:+ " priority=" +:+ q "50" +:+ ">" +:+ nl +:+
  "    <name>sunrise</name>" +:+ nl +:+
  "    <description>User contributed ebuilds.</description>" +:+ nl +:+
  "    <owner><email>sunrise@gentoo.org</email></owner>" +:+ nl +:+
  "    <source type=" +:+ q "svn" +:+ ">svn://overlays.gentoo.org/proj/sunrise</source>" +:+ nl +:+
  "  </repo>" +:+ nl +:+
  "</repositories>" +:+ nl.

(** A catalog in the old format: the overlay is described by attributes,
    here with a space before the contact address. *)
Definition legacy_overlays : string :=
  "<layman>" +:+ nl +:+
  "  <overlay name=" +:+ q "wrobel" +:+
  " src=" +:+ q "https://overlays.gentoo.org/svn/dev/wrobel" +:+
  " type=" +:+ q "svn" +:+ " contact=" +:+ q " nobody@gentoo.org" +:+
  " status=" +:+ q "official" +:+ ">" +:+ nl +:+
  "    <description>Test</description>" +:+ nl +:+
  "  </overlay>" +:+ nl +:+
  "</layman>" +:+ nl.

(** A text that is not a document. *)
Definition broken_overlays : string := "<repositories><repo>".

(** The store after reading [text]. *)
Definition loaded (text : string) : DbBase :=
  (read (empty_store class_DB 0) text "overlays.xml").1.2.

Definition wrobel_stable : Overlay :=
  {| name := "wrobel-stable"; branch := Some ""; subpath := Some "";
     sources := [{| source.class := rsync; src := "rsync://gunnarwrobel.de/wrobel-stable" |}];
     owner_email := Some "nobody@gentoo.org"; owner_name := None;
     description := "A collection of ebuilds from Gunnar Wrobel [wrobel@gentoo.org].";
     status := None; quality := "experimental"; priority := 50;
     homepage := None; feeds := []; irc := None |}.

(** A file system with the two catalogs. *)
Definition disk : FS :=
  {| files := {[ "/etc/layman/global.xml" := global_overlays;
                 "/etc/layman/mirror.xml" := mirror_overlays ]};
     dirs := {[ "/etc/layman" ]}; readonly := ∅ |}.

Definition empty_disk : FS := {| files := ∅; dirs := {[ "/var/lib/layman" ]}; readonly := ∅ |}.

(** Remote catalogs. *)
Definition url : string := "http://www.gentoo.org/proj/en/overlays/repositories.xml".

Definition last_run : string := "Sat, 30 Dec 2006 15:54:50 GMT".

(** A server that answers every request with the same response. *)
Definition server (answer : fetch) : Host := {| urlopen _ _ := answer; getuser := "root" |}.

(** A server that knows the time stamp [since] of its document. *)
Definition conditional_server (since body : string) : Host :=
  {| urlopen _ header :=
       if bool_decide (header = Some since) then HTTPError 304 "Not Modified"
       else Response {[ "last-modified" := since ]} body;
     getuser := "root" |}.

(** A [RemoteDB] for [url], on the file system [f]. *)
Definition remote (f : FS) : RemoteDB :=
  {| store := empty_store class_RemoteDB 0; urls := [url];
     cache_prefix := "/var/lib/layman/cache"; fs := f; db.output := [] |}.

(** The file system after an earlier run that cached [body] at [stamp]. *)
Definition cached (body stamp : string) : FS :=
  {| files := {[ mpath (remote empty_disk) url := body;
                 tpath (remote empty_disk) url := stamp ]};
     dirs := {[ "/var/lib/layman" ]}; readonly := ∅ |}.

End example.

Section Examples.

Import ET overlay os dbbase db reference example.

Lemma first_seen_from (l : list string) :
  forall acc x,
    x ∈ foldl (fun acc x => if bool_decide (x ∈ acc) then acc else acc ++ [x]) acc l
    <-> x ∈ acc \/ x ∈ l.
Proof.
  induction l as [|y l IH]; intros acc x; simpl.
  - rewrite elem_of_nil. tauto.
  - rewrite IH, elem_of_cons. case_bool_decide as Hy.
    + split; [tauto|]. intros [?|[->|?]]; auto.
    + rewrite elem_of_app, list_elem_of_singleton. tauto.
Qed.

(** The first-seen order is an order of the set. *)
Lemma first_seen_sound : set_list_sound.
Proof.
  intros l x. simpl. unfold first_seen. rewrite first_seen_from, elem_of_nil. tauto.
Qed.

(** Two stores that differ at [a] and of which only the first holds [b]. *)
Definition entity (n d : string) : Overlay :=
  {| name := n; branch := Some ""; subpath := Some "";
     sources := [{| source.class := rsync; src := "rsync://example.org/" +:+ n |}];
     owner_email := Some "nobody@gentoo.org"; owner_name := None;
     description := d; status := None; quality := "experimental"; priority := 50;
     homepage := None; feeds := []; irc := None |}.

Definition store_of (l : list Overlay) : DbBase :=
  set_overlays (empty_store class_DB 0) (foldl (fun m o => <[name o := o]> m) ∅ l).

Definition local_store : DbBase := store_of [entity "a" "the first"; entity "b" "another"].
Definition other_store : DbBase := store_of [entity "a" "the second"].
Definition same_names_store : DbBase :=
  store_of [entity "a" "the first"; entity "b" "changed"].

(** C7, the claim as stated fails: [b] is in one store only, yet the
    comparison returns [False], because the set of names is iterated from [a]
    and the entities at [a] differ. *)
Lemma DbBase_eq_returns_False :
  in_one_only local_store other_store "b" /\
  DbBase_eq local_store other_store = Ok false.
Proof.
  split; [|by vm_compute]. left. split; [|by vm_compute].
  eexists. by vm_compute.
Qed.

Lemma DbBase_eq_answers_witness :
  (exists r, DbBase_eq local_store same_names_store = Ok r) /\
  (DbBase_eq local_store same_names_store = Ok true <->
   equal_entities local_store same_names_store).
Proof.
  apply (proj1 (DbBase_eq_answers local_store same_names_store first_seen_sound)).
  intros k. unfold local_store, same_names_store, store_of. simpl.
  rewrite !lookup_insert_is_Some'. tauto.
Defined.

(** The store after loading the two catalogs of [disk]. *)
Definition catalog_paths : list string := ["/etc/layman/global.xml"; "/etc/layman/mirror.xml"].

Definition installed : DbBase :=
  match (DbBase_init class_DB catalog_paths 0 false disk).1 with
  | Ok d => d
  | Raise _ => empty_store class_DB 0
  end.

(** The tree of a text. *)
Definition document_of (text : string) : Element :=
  match fromstring text with
  | inr e => e
  | inl _ => Elem "" ∅ None []
  end.

Lemma select_after_load_witness :
  (forall o, overlays installed !! "sunrise" = Some o ->
             select installed "sunrise" =
             (Ok o, [debug ("DbBase.select(), overlay = " +:+ "sunrise") (Some 5)])
             /\ name o = "sunrise")
  /\ (overlays installed !! "sunrise" = None ->
      select installed "sunrise" =
      (Raise (UnknownOverlayException "sunrise"),
       [debug ("DbBase.select(), overlay = " +:+ "sunrise") (Some 5);
        debug ("DbBase.select(), unknown overlay = " +:+ "sunrise") (Some 4);
        debug ("DbBase.select(), known overlays = " +:+ join ", " (keys (overlays installed)))
              (Some 4)])
      /\ str_exn (UnknownOverlayException "sunrise") =
         "Exception: Overlay " +:+ dq +:+ "sunrise" +:+ dq +:+ " does not exist.").
Proof.
  eapply (select_after_load class_DB catalog_paths 0 false disk installed).
  vm_compute. reflexivity.
Defined.

Lemma load_later_document_wins_witness :
  exists os1 os2,
    parsed 0 (overlay_nodes (document_of global_overlays)) os1 /\
    parsed 0 (overlay_nodes (document_of mirror_overlays)) os2 /\
    (forall X o1 o2, o1 ∈ os1 -> o2 ∈ os2 -> name o1 = X -> name o2 = X ->
        exists o, overlays installed !! X = Some o /\ o ∈ os2 /\ last_named X os2 = Some o) /\
    (forall Y, (forall o2, o2 ∈ os2 -> name o2 <> Y) ->
        overlays installed !! Y = last_named Y os1).
Proof.
  eapply (load_later_document_wins class_DB "/etc/layman/global.xml" "/etc/layman/mirror.xml"
            0 false disk global_overlays mirror_overlays).
  - vm_compute. reflexivity.
  - vm_compute. reflexivity.
  - vm_compute. reflexivity.
  - vm_compute. reflexivity.
  - vm_compute. reflexivity.
Defined.

(** A response whose body is not a document: [cache] raises and the file
    system keeps the catalog cached before. *)
Lemma cache_unparsable_raises_witness :
  exists e' self',
    @cache externals (server (Response ∅ broken_overlays))
           (remote (cached global_overlays last_run)) = (Raise e', self') /\
    files (fs self') = files (cached global_overlays last_run) /\
    files (fs self') !! mpath (remote (cached global_overlays last_run)) url =
    files (cached global_overlays last_run) !! mpath (remote (cached global_overlays last_run)) url.
Proof.
  eapply (@cache_unparsable_raises externals (server (Response ∅ broken_overlays))
            (remote (cached global_overlays last_run))
            (remote (cached global_overlays last_run)) [] [] url).
  - reflexivity.
  - reflexivity.
  - vm_compute. reflexivity.
  - vm_compute. reflexivity.
  - reflexivity.
  - vm_compute. reflexivity.
Defined.

(** C5, the claim as stated fails: the server answers with a changed
    document and neither a [last-modified] nor a [date] header; [cache]
    writes the content file, reports an update, and writes no sidecar. *)
Lemma cache_writes_no_sidecar :
  (@cache externals (server (Response ∅ global_overlays)) (remote empty_disk)).1 = Ok true /\
  files (fs (@cache externals (server (Response ∅ global_overlays)) (remote empty_disk)).2)
    !! mpath (remote empty_disk) url = Some global_overlays /\
  files (fs (@cache externals (server (Response ∅ global_overlays)) (remote empty_disk)).2)
    !! tpath (remote empty_disk) url = None.
Proof. by vm_compute. Qed.

Lemma cache_conditional_witness :
  (exists self',
      @cache_url externals (conditional_server last_run mirror_overlays)
                 (remote (cached global_overlays last_run)) url
                 {| has_updates := false; timestamp := None |} =
      (Ok {| has_updates := false; timestamp := Some (Some last_run) |}, self') /\
      fs self' = cached global_overlays last_run /\
      store self' = empty_store class_RemoteDB 0)
  /\ (exists self',
      @cache_url externals (conditional_server last_run mirror_overlays)
                 (remote empty_disk) url {| has_updates := false; timestamp := None |} =
      (Ok {| has_updates := true;
             timestamp := Some (response_timestamp {[ "last-modified" := last_run ]}) |},
       self') /\
      files (fs self') !! mpath (remote empty_disk) url = Some mirror_overlays /\
      files (fs self') !! tpath (remote empty_disk) url =
      match response_timestamp {[ "last-modified" := last_run ]} with
      | Some t => Some t
      | None => files (fs (remote empty_disk)) !! tpath (remote empty_disk) url
      end).
Proof.
  split.
  - eapply (proj1 (@cache_conditional externals (conditional_server last_run mirror_overlays)
                     (remote (cached global_overlays last_run)))).
    + vm_compute. reflexivity.
    + reflexivity.
  - eapply (proj1 (proj2 (@cache_conditional externals
                            (conditional_server last_run mirror_overlays)
                            (remote empty_disk)))
              url {| has_updates := false; timestamp := None |} None None
              {[ "last-modified" := last_run ]} mirror_overlays).
    + vm_compute. reflexivity.
    + vm_compute. reflexivity.
    + reflexivity.
    + vm_compute. reflexivity.
    + left. vm_compute. reflexivity.
    + repeat split; vm_compute; try discriminate; intros Hin; by apply (bool_decide_eq_true_2 _) in Hin.
    + repeat split; vm_compute; try discriminate; intros Hin; by apply (bool_decide_eq_true_2 _) in Hin.
Defined.

(** The store read from the catalog in the old format. *)
Definition legacy_store : DbBase := loaded legacy_overlays.

Definition local_list : string := "/var/lib/layman/overlays.xml".

(** C3, the claim as stated fails: the store read from the old-format
    catalog holds one overlay with one source; written and read back, its
    owner e-mail has lost the leading space and the stores are not equal. *)
Lemma round_trip_not_equal :
  Forall (fun o => length (sources o) = 1%nat) (values (overlays legacy_store)) /\
  (exists fs', write legacy_store local_list empty_disk = Ok fs' /\
               files fs' !! local_list = Some (write_text legacy_store)) /\
  (read (empty_store class_DB 0) (write_text legacy_store) local_list).1.1 = Ok tt /\
  DbBase_eq (read (empty_store class_DB 0) (write_text legacy_store) local_list).1.2
            legacy_store = Ok false.
Proof.
  split; [by vm_compute; repeat constructor|].
  split; [eexists; split; by vm_compute|].
  split; by vm_compute.
Qed.

(** A store with the overlay of the doctests. *)
Definition stable_store : DbBase :=
  set_overlays (empty_store class_DB 0) {[ "wrobel-stable" := wrobel_stable ]}.

Lemma wrobel_stable_writable : writable wrobel_stable.
Proof.
  split; [|split; [|split]].
  - split; [reflexivity|]. split; [reflexivity|]. split; [discriminate|].
    split; [eexists; split; reflexivity|]. split; [discriminate|].
    intros s ->%list_elem_of_singleton. reflexivity.
  - intros s repo _. reflexivity.
  - discriminate.
  - intros s ->%list_elem_of_singleton. vm_compute. eexists. reflexivity.
Qed.

Lemma write_read_round_trip_witness :
  exists text db' msgs,
    files {| files := <[local_list := write_text stable_store]> (files empty_disk);
             dirs := dirs empty_disk; readonly := readonly empty_disk |} !! local_list
    = Some text /\
    read (empty_store class_DB 0) text local_list = (Ok tt, db', msgs) /\
    DbBase_eq db' stable_store = Ok true.
Proof.
  eapply (write_read_round_trip stable_store (empty_store class_DB 0) local_list empty_disk _
            (document_of (write_text stable_store))).
  - reflexivity.
  - intros a b Hab. simpl. by apply bool_decide_eq_true_2.
  - exact first_seen_sound.
  - intros k o Hk. cbn [stable_store overlays set_overlays] in Hk.
    apply lookup_singleton_Some in Hk as [<- <-]. reflexivity.
  - intros k o Hk. cbn [stable_store overlays set_overlays] in Hk.
    apply lookup_singleton_Some in Hk as [<- <-]. exact wrobel_stable_writable.
  - reflexivity.
  - reflexivity.
  - vm_compute. reflexivity.
  - vm_compute.
    repeat first [ apply reparsed_Elem | apply List.Forall2_cons | apply List.Forall2_nil
                 | (intros; reflexivity) | (intros; discriminate) ].
Defined.

(** A definition without an owner. *)
Definition sunrise : definition :=
  {| def_name := "sunrise";
     def_sources := [("svn", "svn://overlays.gentoo.org/proj/sunrise")];
     def_owner_name := None; def_owner_email := None;
     def_description := Some "User contributed ebuilds.";
     def_status := None; def_quality := Some "testing"; def_priority := Some 50;
     def_homepage := None; def_feeds := []; def_irc := None |}.

(** C6, the claim as stated fails: for a definition without an owner
    e-mail, at the level that ignores it, the overlay made from the node has
    the empty text as e-mail and the overlay made from the mapping has
    [None]. *)
Lemma constructions_differ :
  exists o1 o2,
    (from_xml (as_node sunrise) 2).2 = Ok o1 /\
    (from_dict (as_mapping sunrise) 2).2 = Ok o2 /\
    owner_email o1 = Some "" /\ owner_email o2 = None.
Proof. eexists _, _. by vm_compute. Qed.

Lemma sunrise_comparable : comparable sunrise.
Proof.
  split; [reflexivity|]. split; [discriminate|]. split.
  { intros s ->%list_elem_of_singleton. split; [reflexivity|].
    vm_compute. eexists. split; reflexivity. }
  split; [discriminate|]. split; [discriminate|]. split; [done|].
  split; [by intros x [= <-]|]. split; [discriminate|]. split; [discriminate|].
  split; [discriminate|]. split; [|discriminate].
  intros i Hi. by apply elem_of_nil in Hi.
Qed.

Lemma constructions_agree_witness :
  (exists rest,
     (from_dict (as_mapping sunrise) 1).1 =
     debug ("Overlay from_dict(); overlay" +:+ str_dict (as_mapping sunrise)) None :: rest /\
     kind_of <$> (from_xml (as_node sunrise) 1).1 = kind_of <$> rest)
  /\ kind_of <$> (from_xml (as_node sunrise) 1).1 =
     (if bool_decide (1 = 1) then replicate (missing_fields sunrise) ("warn", Some 4) else [])
  /\ (1 = 0 /\ missing_fields sunrise <> 0%nat ->
      exists tx td, (from_xml (as_node sunrise) 1).2 = Raise (Exception tx) /\
                    (from_dict (as_mapping sunrise) 1).2 = Raise (Exception td))
  /\ (~ (1 = 0 /\ missing_fields sunrise <> 0%nat) ->
      exists o1 o2, (from_xml (as_node sunrise) 1).2 = Ok o1 /\
                    (from_dict (as_mapping sunrise) 1).2 = Ok o2 /\
                    agree o1 o2 /\
                    (is_Some (def_owner_email sunrise) -> owner_email o1 = owner_email o2)).
Proof. exact (constructions_agree sunrise 1 sunrise_comparable). Defined.

End Examples.

(** ** More on overlay entities *)

Section EntityFacts.

Import ET overlay.

Context `{Externals}.

Lemma same_sources_sym (a b : Overlay) : same_sources a b -> same_sources b a.
Proof.
  intros Hs i Hi. apply elem_of_app in Hi.
  destruct (Hs i) as [Ha Hb]; [apply elem_of_app; tauto | done].
Qed.

(** X1.  [Overlay.__eq__] is symmetric: [a == b] and [b == a] give the same
    answer, whatever the equality of source objects is. *)
Theorem Overlay_eq_sym (a b : Overlay) : Overlay_eq a b = Overlay_eq b a.
Proof.
  apply Bool.eq_iff_eq_true. rewrite !Overlay_eq_true.
  split; intros (Hd & Hh & Hn & He & Ho & Hp & Hst & Hs);
    repeat (split; [congruence|]); by apply same_sources_sym.
Qed.

(** X2.  When the equality of source objects is transitive, so is
    [Overlay.__eq__]. *)
Theorem Overlay_eq_trans (a b c : Overlay) :
  (forall x y z, source_eq x y = true -> source_eq y z = true -> source_eq x z = true) ->
  Overlay_eq a b = true -> Overlay_eq b c = true -> Overlay_eq a c = true.
Proof.
  intros Htrans. rewrite !Overlay_eq_true.
  intros (Hd & Hh & Hn & He & Ho & Hp & Hst & Hab)
         (Hd' & Hh' & Hn' & He' & Ho' & Hp' & Hst' & Hbc).
  repeat (split; [congruence|]). intros i Hin. split.
  - apply elem_of_app in Hin as [Hi|Hi].
    + apply Hab, elem_of_app. by left.
    + destruct (Hbc i) as [Hb _]; [apply elem_of_app; by right|].
      apply contains_true in Hb as (j & Hj & Hij).
      destruct (Hab j) as [Ha _]; [apply elem_of_app; by right|].
      apply contains_true in Ha as (k & Hk & Hjk).
      apply contains_true. exists k. split; [done|]. by eapply Htrans.
  - apply elem_of_app in Hin as [Hi|Hi].
    + destruct (Hab i) as [_ Hb]; [apply elem_of_app; by left|].
      apply contains_true in Hb as (j & Hj & Hij).
      destruct (Hbc j) as [_ Hc]; [apply elem_of_app; by left|].
      apply contains_true in Hc as (k & Hk & Hjk).
      apply contains_true. exists k. split; [done|]. by eapply Htrans.
    + apply Hbc, elem_of_app. by right.
Qed.

(** X3.  A definition without a name: the message of the exception the
    methods mean to raise reads [self.name], which is not assigned yet, so
    [from_xml] and [from_dict] raise an [AttributeError] at every ignore
    level; [from_xml] has sent nothing to the output by then, [from_dict]
    its debug message with the representation of the mapping and nothing
    else. *)
Theorem nameless_definition (xml : Element) (overlay : ovl_dict) (ign : Z) :
  (find "name" xml = None -> attrib xml !! "name" = None ->
   from_xml xml ign =
   ([], Raise (AttributeError "'Overlay' object has no attribute 'name'")))
  /\ (d_name overlay = None ->
      from_dict overlay ign =
      ([debug ("Overlay from_dict(); overlay" +:+ str_dict overlay) None],
       Raise (AttributeError "'Overlay' object has no attribute 'name'"))).
Proof.
  split.
  - intros Hf Ha. unfold from_xml, read_name. by rewrite Hf, Ha.
  - intros Hn. unfold from_dict. by rewrite Hn.
Qed.

Lemma read_name_log (xml : Element) :
  read_name xml = raise no_name \/ exists n, read_name xml = ret n.
Proof.
  unfold read_name. destruct (find "name" xml); [right; by eexists|].
  destruct (attrib xml !! "name"); [right; by eexists | by left].
Qed.

(** X4.  A source is required at every ignore level: when no [source] child
    of the node carries a [type], and the node has no [source] child or lacks
    one of the attributes [src] and [type], [from_xml] raises the
    [Exception] about the missing source entry, also at the levels that let
    a missing owner or description pass. *)
Theorem from_xml_needs_source (xml : Element) (ign : Z) (n : string) :
  Forall (fun e => attrib e !! "type" = None) (findall "source" xml) ->
  (findall "source" xml = [] -> attrib xml !! "src" = None \/ attrib xml !! "type" = None) ->
  read_name xml = ret n ->
  from_xml xml ign =
  ([], Raise (Exception ("Overlay from_xml(), " +:+ dq +:+ n +:+ dq +:+
                         " is missing a " +:+ dq +:+ "source" +:+ dq +:+ " entry!"))).
Proof.
  intros Hall Hattr Hn.
  assert (source_elems xml = []) as Hnone.
  { unfold source_elems. destruct (findall "source" xml) as [|e l] eqn:Hf.
    - destruct (Hattr eq_refl) as [-> | ->]; [done|]. by destruct (attrib xml !! "src").
    - clear Hf Hattr. induction Hall as [|e' l' He' _ IH]; [done|].
      simpl. rewrite He'. rewrite bool_decide_eq_false_2 by (by intros [? ?]). apply IH. }
  unfold from_xml. rewrite Hn, bind_ret_l, Hnone. reflexivity.
Qed.






End EntityFacts.

(** ** More on catalog stores *)

Section MoreStoreFacts.

Import ET overlay os dbbase.

Context `{Externals}.

(** *** What [from_xml] sends to the output *)

(** A warning at level 4, the only kind of message [from_xml] sends. *)
Definition level_4_warning (m : message) : Prop := exists t, m = warn t (Some 4).

Lemma bind_log {A B : Type} (c : Log A) (k : A -> Log B) (P : message -> Prop) :
  Forall P c.1 -> (forall a, Forall P (k a).1) -> Forall P (py.bind c k).1.
Proof.
  intros Hc Hk. destruct c as [l [a|e]]; simpl in *; [|done].
  specialize (Hk a). destruct (k a) as [l' r]. simpl in *. by apply Forall_app.
Qed.

Lemma missing_field_log (ign : Z) (raised warned : string) :
  Forall level_4_warning (missing_field ign raised warned).1.
Proof.
  unfold missing_field. repeat case_bool_decide; simpl; repeat constructor. by eexists.
Qed.

Lemma create_sources_log (n : string) (b : option string) (l : list Element) :
  Forall level_4_warning (mapM (create_overlay_source n b) l).1.
Proof.
  induction l as [|e l IH]; simpl; [constructor|].
  apply bind_log.
  - unfold create_overlay_source. destruct (attrib e !! "type"); [|constructor].
    destruct (OVERLAY_TYPES !! _); constructor.
  - intros a. apply bind_log; [done | constructor].
Qed.

Lemma from_xml_log (xml : Element) (ign : Z) :
  Forall level_4_warning (from_xml xml ign).1.
Proof.
  unfold from_xml.
  apply bind_log.
  { unfold read_name. destruct (find "name" xml); [constructor|].
    destruct (attrib xml !! "name"); constructor. }
  intros n. apply bind_log; [case_bool_decide; constructor|]. intros _.
  assert (forall t, Forall level_4_warning (read_hint t xml).1) as Hhint.
  { intros t. unfold read_hint, text_strip. destruct (find t xml) as [node|].
    - destruct (text node); constructor.
    - destruct (attrib xml !! t); constructor. }
  apply bind_log; [apply Hhint|]. intros b.
  apply bind_log; [apply create_sources_log|]. intros ss.
  apply bind_log; [apply Hhint|]. intros sp.
  apply bind_log.
  { unfold read_owner. destruct (_ ≫= _) as [[? ?]|]; [constructor|].
    destruct (attrib xml !! "contact"); [constructor|].
    apply bind_log; [apply missing_field_log | constructor]. }
  intros ow. apply bind_log.
  { unfold read_description. destruct (find "description" xml); [constructor|].
    apply bind_log; [apply missing_field_log | constructor]. }
  intros d. apply bind_log; [|constructor].
  unfold read_priority. destruct (attrib xml !! "priority") as [p|]; [|constructor].
  destruct (int_of_str p); constructor.
Qed.

(** What [read] sends: the warnings of [from_xml] and the trace of each
    node, a debug message at level 9. *)
Definition read_message (m : message) : Prop :=
  level_4_warning m \/ exists t, m = debug t (Some 9).

Lemma read_nodes_log (ign : Z) (nodes : list Element) :
  forall m, Forall read_message (read_nodes ign nodes m).2.
Proof.
  induction nodes as [|node nodes IH]; intros m; simpl; [constructor|].
  pose proof (from_xml_log node ign) as Hnode.
  apply (Forall_impl _ read_message) in Hnode; [|by left].
  destruct (from_xml node ign) as [l [o|e]]; simpl in *.
  - specialize (IH (<[name o := o]> m)).
    destruct (read_nodes ign nodes _) as [[r m'] l']. simpl in *.
    apply Forall_cons. split; [right; by eexists|]. by apply Forall_app.
  - apply Forall_cons. split; [right; by eexists | done].
Qed.

Lemma read_log (self : DbBase) (text origin : string) :
  Forall read_message (read self text origin).2.
Proof.
  unfold read. destruct (ET_fromstring text) as [err|document].
  - destruct (_broken_catalog_hint _); constructor.
  - pose proof (read_nodes_log (ignore self) (overlay_nodes document) (overlays self)) as Hl.
    by destruct (read_nodes _ _ _) as [[r m] l].
Qed.

Lemma init_paths_log (l : list string) (fs : FS) :
  forall self path_found r self' msgs,
    init_paths self l path_found fs = (Ok r, self', msgs) ->
    Forall read_message msgs /\
    (r = true <-> path_found = true \/ exists p, p ∈ l /\ path_exists p fs = true).
Proof.
  induction l as [|path l IH]; intros self path_found r self' msgs Hi; simpl in Hi.
  - injection Hi as <- _ <-. split; [constructor|]. split; [by left|].
    intros [?|(p & Hp & _)]; [done | by apply elem_of_nil in Hp].
  - destruct (path_exists path fs) eqn:He; simpl in Hi.
    + destruct (dbbase.read_file self path fs) as [[[[]|e] self1] msgs1] eqn:Hr; [|discriminate].
      destruct (init_paths self1 l true fs) as [[r2 self2] msgs2] eqn:Hrest.
      injection Hi as -> -> <-.
      destruct (IH _ _ _ _ _ Hrest) as [Hlog Hfound]. split.
      * apply Forall_app. split; [|done].
        apply read_file_ok in Hr as (text & _ & Hr).
        pose proof (read_log self text path) as Hl. by rewrite Hr in Hl.
      * split; [|intros _; apply Hfound; by left].
        intros _. right. exists path. split; [by left | done].
    + destruct (IH _ _ _ _ _ Hi) as [Hlog Hfound]. split; [done|].
      rewrite Hfound. split; intros [?|(p & Hp & Hpe)]; auto.
      * right. exists p. split; [by right | done].
      * apply elem_of_cons in Hp as [->|Hp]; [congruence|]. right. by exists p.
Qed.

Lemma init_paths_absent (l : list string) (fs : FS) (self : DbBase) (path_found : bool) :
  (forall p, p ∈ l -> path_exists p fs = false) ->
  init_paths self l path_found fs = (Ok path_found, self, []).
Proof.
  induction l as [|path l IH]; intros Hl; simpl; [done|].
  rewrite (Hl path) by (by left). simpl. apply IH. intros p Hp. apply Hl. by right.
Qed.

(** The warning of [__init__] about the missing files. *)
Definition not_found (l : list string) : message :=
  warn ("Warning: an installed db file was not found at: " +:+ str_list l) None.

(** X7.  [DbBase.__init__] warns that no installed db file was found exactly
    when none of its paths exists: then the store is empty and the warning
    is the only message after the first trace; when a path exists and the
    files are read, the warning is not sent. *)
Theorem DbBase_init_not_found (c : db_class) (l : list string) (ign : Z) (iire : bool)
    (fs : FS) :
  ((forall p, p ∈ l -> path_exists p fs = false) ->
   DbBase_init c l ign iire fs =
   (Ok {| dbbase.class := c; paths := l; ignore := ign; ignore_init_read_errors := iire;
          overlays := ∅ |},
    [debug "Initializing overlay list handler" (Some 8); not_found l]))
  /\ (forall db msgs,
        DbBase_init c l ign iire fs = (Ok db, msgs) ->
        (not_found l ∈ msgs <-> forall p, p ∈ l -> path_exists p fs = false)).
Proof.
  split.
  - intros Hl. unfold DbBase_init. by rewrite init_paths_absent.
  - intros db msgs. unfold DbBase_init.
    destruct (init_paths _ l false fs) as [[[found|e] self'] msgs'] eqn:Hi; [|discriminate].
    intros [= <- <-]. destruct (init_paths_log _ _ _ _ _ _ _ Hi) as [Hlog Hfound].
    assert (not_found l ∉ msgs') as Hnot.
    { intros Hin. rewrite Forall_forall in Hlog.
      by destruct (Hlog _ Hin) as [[t [=]]|[t [=]]]. }
    rewrite elem_of_cons, elem_of_app. destruct found.
    + split.
      * intros [[=]|[?|Hin]]; [done | by apply elem_of_nil in Hin].
      * intros Hnone. destruct Hfound as [Hfound _].
        destruct (Hfound eq_refl) as [[=]|(p & Hp & Hpe)]. rewrite (Hnone p Hp) in Hpe. done.
    + split; [|intros _; right; right; by left].
      intros _ p Hp. destruct (path_exists p fs) eqn:Hpe; [|done].
      destruct Hfound as [_ Hfound]. discriminate Hfound. right. by exists p.
Qed.

(** *** A catalog with a faulty entry *)

Lemma read_nodes_faulty (ign : Z) (pre : list Element) (os : list Overlay) :
  parsed ign pre os ->
  forall bad post e m,
    (from_xml bad ign).2 = Raise e ->
    exists msgs,
      read_nodes ign (pre ++ bad :: post) m = (Raise e, foldl store_overlay m os, msgs).
Proof.
  induction 1 as [|node o pre os Ho _ IH]; intros bad post e m Hbad; simpl.
  - destruct (from_xml bad ign) as [l r]. simpl in Hbad. subst r. by eexists.
  - destruct (from_xml node ign) as [l r]. simpl in Ho. subst r.
    destruct (IH bad post e (<[name o := o]> m) Hbad) as (msgs & ->). by eexists.
Qed.

(** X8.  [read] is not all or nothing.  When an overlay node of the document
    cannot be made an overlay, [read] raises the exception of that node as
    it is; the overlays of the nodes before it are in the store, each under
    its name, and the nodes after it are not looked at. *)
Theorem read_faulty_entry (self : DbBase) (text origin : string) (document bad : Element)
    (pre post : list Element) (os : list Overlay) (e : exn) :
  ET_fromstring text = inr document ->
  overlay_nodes document = pre ++ bad :: post ->
  parsed (ignore self) pre os ->
  (from_xml bad (ignore self)).2 = Raise e ->
  exists msgs,
    read self text origin =
    (Raise e, set_overlays self (foldl store_overlay (overlays self) os), msgs) /\
    forall k, foldl store_overlay (overlays self) os !! k =
              match last_named k os with
              | Some o => Some o
              | None => overlays self !! k
              end.
Proof.
  intros Hdoc Hnodes Hpre Hbad. unfold read. rewrite Hdoc, Hnodes.
  destruct (read_nodes_faulty _ _ _ Hpre bad post e (overlays self) Hbad) as (msgs & ->).
  exists msgs. split; [done|]. intros k. apply lookup_store_overlays.
Qed.

(** X9.  A path that exists and cannot be read ends [__init__] with an
    exception, whatever [ignore_init_read_errors] says: without the flag the
    error is reported and raised again; with the flag [read_file] goes on to
    read a [document] that was never bound, an [UnboundLocalError].  The
    paths after it are not read. *)
Theorem DbBase_init_unreadable (c : db_class) (pre post : list string) (p : string)
    (ign : Z) (iire : bool) (fs : FS) :
  (forall q, q ∈ pre -> path_exists q fs = false) ->
  p ∈ dirs fs -> files fs !! p = None ->
  exists e,
    DbBase_init c (pre ++ p :: post) ign iire fs =
    (Raise e,
     debug "Initializing overlay list handler" (Some 8) ::
     if iire then []
     else [error ("Failed to read the overlay list at (" +:+ dq +:+ p +:+ dq +:+ ")")])
    /\ (if iire then e = UnboundLocalError "document" else exists m, e = IOError m).
Proof.
  intros Hpre Hdir Hfile.
  assert (forall self found,
            init_paths self (pre ++ p :: post) found fs =
            init_paths self (p :: post) found fs) as Hskip.
  { intros self found. induction pre as [|q pre IH]; [done|]. simpl.
    rewrite (Hpre q) by (by left). simpl. apply IH. intros q' Hq'. apply Hpre. by right. }
  unfold DbBase_init. rewrite Hskip. cbn [init_paths].
  assert (path_exists p fs = true) as ->.
  { unfold path_exists. rewrite (bool_decide_eq_true_2 (p ∈ dirs fs)) by done.
    apply orb_true_r. }
  cbn [negb]. unfold dbbase.read_file, os.read_file. rewrite Hfile. simpl.
  destruct iire; simpl; eexists; (split; [reflexivity|]); [done | by eexists].
Qed.

(** *** Reading a catalog again *)

Lemma read_nodes_run (ign : Z) (nodes : list Element) (os : list Overlay) :
  parsed ign nodes os ->
  forall m, exists msgs, read_nodes ign nodes m = (Ok tt, foldl store_overlay m os, msgs).
Proof.
  induction 1 as [|node o nodes os Ho _ IH]; intros m; simpl; [by eexists|].
  destruct (from_xml node ign) as [l r]. simpl in Ho. subst r.
  destruct (IH (<[name o := o]> m)) as [msgs ->]. by eexists.
Qed.

Lemma last_named_twice (k : string) (os : list Overlay) :
  last_named k (os ++ os) = last_named k os.
Proof.
  unfold last_named. rewrite List.filter_app.
  destruct (List.filter _ os) as [|o l] eqn:Hf; [done|].
  rewrite last_app. by destruct (last (o :: l)) eqn:Hl.
Qed.

Lemma store_overlays_twice (m : gmap string Overlay) (os : list Overlay) :
  foldl store_overlay (foldl store_overlay m os) os = foldl store_overlay m os.
Proof.
  apply map_eq. intros k. rewrite <- foldl_app, !lookup_store_overlays, last_named_twice.
  done.
Qed.

(** X10.  Reading the same catalog a second time changes nothing in the
    store: a [read] that returned returns again and leaves the store as the
    first [read] left it. *)
Theorem read_again (self self' : DbBase) (text origin : string) (msgs : list message) :
  read self text origin = (Ok tt, self', msgs) ->
  exists msgs', read self' text origin = (Ok tt, self', msgs').
Proof.
  intros Hr.
  apply read_ok in Hr as (document & os & Hdoc & Hos & ->).
  unfold read. rewrite Hdoc. cbn [ignore overlays set_overlays].
  destruct (read_nodes_run _ _ _ Hos (foldl store_overlay (overlays self) os)) as [msgs' ->].
  exists msgs'. by rewrite store_overlays_twice.
Qed.

End MoreStoreFacts.

(** ** More on the equality of stores *)

Section MoreStoreEqFacts.

Import overlay dbbase.

Context `{Externals}.

(** X11.  A store is equal to itself as soon as every source of its
    overlays is equal to itself. *)
Theorem DbBase_eq_refl (a : DbBase) :
  set_list_sound ->
  (forall k o s, overlays a !! k = Some o -> s ∈ sources o -> source_eq s s = true) ->
  DbBase_eq a a = Ok true.
Proof.
  intros Hset Hrefl. unfold DbBase_eq. apply eq_keys_true, Forall_forall.
  intros k Hk. apply elem_of_both_keys in Hk; [|done].
  assert (is_Some (overlays a !! k)) as [o Ho] by tauto.
  exists o, o. split; [done|]. split; [done|].
  apply Overlay_eq_true. repeat (split; [done|]).
  intros i Hi. assert (contains i (sources o) = true); [|done].
  assert (i ∈ sources o) as Hin by (apply elem_of_app in Hi; tauto).
  apply contains_true. exists i. split; [done|]. by apply (Hrefl k o).
Qed.

End MoreStoreEqFacts.

(** ** More on the remote catalog cache *)

Section MoreCacheFacts.

Import ET overlay os dbbase db.

Context `{Externals} `{Host}.

(** *** [check_path] *)

Lemma check_path_loop_answer (l : list string) (f : FS) :
  forall is_ok,
    (check_path_loop l is_ok f).1 = true <->
    is_ok = true /\
    forall p, p ∈ l -> path_exists p f = true -> access_W_OK p f = true.
Proof.
  induction l as [|path l IH]; intros is_ok; simpl.
  - split; [intros ->; split; [done|]; by intros p ?%elem_of_nil | by intros [-> _]].
  - destruct (path_exists path f) eqn:He, (access_W_OK path f) eqn:Hw; simpl.
    + rewrite IH. split; intros [-> Hl]; (split; [done|]); intros p Hp.
      * apply elem_of_cons in Hp as [->|Hp]; [done | by apply Hl].
      * apply Hl. by right.
    + destruct (check_path_loop l false f) as [r msgs] eqn:Hrest. simpl.
      pose proof (IH false) as IHf. rewrite Hrest in IHf. simpl in IHf. split.
      * intros Hr. apply IHf in Hr as [[=] _].
      * intros [_ Hl]. specialize (Hl path (list_elem_of_here _ _) He). congruence.
    + rewrite IH. split; intros [-> Hl]; (split; [done|]); intros p Hp.
      * apply elem_of_cons in Hp as [->|Hp]; [congruence | by apply Hl].
      * apply Hl. by right.
    + rewrite IH. split; intros [-> Hl]; (split; [done|]); intros p Hp.
      * apply elem_of_cons in Hp as [->|Hp]; [congruence | by apply Hl].
      * apply Hl. by right.
Qed.

Lemma check_path_loop_quiet (l : list string) (f : FS) :
  forall is_ok, (check_path_loop l is_ok f).1 = true -> (check_path_loop l is_ok f).2 = [].
Proof.
  induction l as [|path l IH]; intros is_ok; simpl; [done|].
  destruct (path_exists path f && negb (access_W_OK path f)); [|apply IH].
  pose proof (check_path_loop_answer l f false) as Hf.
  destruct (check_path_loop l false f) as [r msgs]. simpl in *.
  intros Hr. apply Hf in Hr as [[=] _].
Qed.

(** X12.  [check_path] answers [True] exactly when every path it is given
    either does not exist or may be written; it then sends nothing but its
    trace.  One path that exists and may not be written makes the answer
    [False], whatever the other paths are. *)
Theorem check_path_answer (l : list string) (f : FS) :
  ((check_path l f).1 = true <->
   forall p, p ∈ l -> path_exists p f = true -> access_W_OK p f = true)
  /\ ((check_path l f).1 = true ->
      (check_path l f).2 = [debug ("RemoteDB.check_path; paths = " +:+ str_list l) (Some 8)]).
Proof.
  unfold check_path.
  pose proof (check_path_loop_answer l f true) as Ha.
  pose proof (check_path_loop_quiet l f true) as Hq.
  destruct (check_path_loop l true f) as [r msgs]. simpl in *. split.
  - rewrite Ha. split; [by intros [_ ?] | by split].
  - intros Hr. by rewrite (Hq Hr).
Qed.

(** *** The files [cache] works on *)

(** From [self] to [self'] nothing changed on the file system but, at most,
    the content file and the sidecar of [url] and the set of directories. *)
Definition touches_only (url : string) (self self' : RemoteDB) : Prop :=
  cache_prefix self' = cache_prefix self /\
  urls self' = urls self /\
  readonly (fs self') = readonly (fs self) /\
  forall p, p <> mpath self url -> p <> tpath self url ->
            files (fs self') !! p = files (fs self) !! p.

Lemma write_file_frame (p c : string) (f f' : FS) :
  write_file p c f = Ok f' ->
  readonly f' = readonly f /\ dirs f' = dirs f /\
  files f' !! p = Some c /\ forall q, q <> p -> files f' !! q = files f !! q.
Proof.
  unfold write_file. destruct (_ || _); [discriminate|]. intros [= <-]. simpl.
  repeat split; [apply lookup_insert_eq|]. intros q Hq. by apply lookup_insert_ne.
Qed.

Lemma storage_frame (d : string) (f f1 : FS) :
  (if negb (path_exists d f) then makedirs d f else Ok f) = Ok f1 ->
  files f1 = files f /\ readonly f1 = readonly f /\ path_exists d f1 = true.
Proof.
  destruct (path_exists d f) eqn:He; simpl.
  - by intros [= <-].
  - unfold makedirs. case_bool_decide; [discriminate|]. intros [= <-]. simpl.
    repeat split. unfold path_exists. simpl.
    rewrite (bool_decide_eq_true_2 (d ∈ {[d]} ∪ dirs f)) by set_solver. apply orb_true_r.
Qed.

Lemma path_exists_write_file (d p c : string) (f f' : FS) :
  write_file p c f = Ok f' -> path_exists d f = true -> path_exists d f' = true.
Proof.
  unfold write_file. destruct (_ || _); [discriminate|]. intros [= <-].
  unfold path_exists. simpl. intros [Hf|Hd]%orb_true_iff; apply orb_true_iff; [left | by right].
  apply bool_decide_eq_true_1 in Hf. apply bool_decide_eq_true_2.
  destruct (decide (d = p)) as [->|Hne];
    [rewrite lookup_insert_eq; by eexists | by rewrite lookup_insert_ne].
Qed.

Lemma commit_frame (self self' : RemoteDB) (url : string) (vars : locals)
    (ts : option string) (body : string) (r : result locals) :
  commit self url vars ts body = (r, self') ->
  touches_only url self self' /\
  (forall vars', r = Ok vars' -> path_exists (dirname (mpath self url)) (fs self') = true).
Proof.
  unfold commit, say, touches_only. cbv zeta. cbn [fs update store].
  rewrite ?mpath_update, ?tpath_update.
  match goal with
  | |- context [if ?c then makedirs ?d ?f else Ok ?f] =>
      destruct (if c then makedirs d f else Ok f) as [fs1|e1] eqn:Hdir
  end.
  2:{ intros [= <- <-]. simpl. by repeat split. }
  apply storage_frame in Hdir as (Hf1 & Hr1 & Hd1).
  destruct (read (store self) body url) as [[[[]|e] d] msgs].
  2:{ destruct (is_Exception e); intros [= <- <-]; simpl; rewrite Hf1; by repeat split. }
  rewrite ?mpath_update, ?tpath_update.
  destruct (write_file (mpath self url) body fs1) as [fs2|e2] eqn:Hw2.
  2:{ intros [= <- <-]; simpl; rewrite Hf1; by repeat split. }
  pose proof (path_exists_write_file _ _ _ _ _ Hw2 Hd1) as Hd2.
  apply write_file_frame in Hw2 as (Hr2 & _ & _ & Hf2).
  destruct ts as [t|]; rewrite ?mpath_update, ?tpath_update.
  - destruct (write_file (tpath self url) t fs2) as [fs3|e3] eqn:Hw3.
    + pose proof (path_exists_write_file _ _ _ _ _ Hw3 Hd2) as Hd3.
      apply write_file_frame in Hw3 as (Hr3 & _ & _ & Hf3).
      intros [= <- <-]. simpl. split; [|done]. repeat split; [congruence|].
      intros p Hm Ht. rewrite Hf3, Hf2 by done. by rewrite Hf1.
    + intros [= <- <-]. simpl. split; [|done]. repeat split; [congruence|].
      intros p Hm Ht. rewrite Hf2 by done. by rewrite Hf1.
  - intros [= <- <-]. simpl. split; [|done]. repeat split; [congruence|].
    intros p Hm Ht. rewrite Hf2 by done. by rewrite Hf1.
Qed.

Lemma touches_only_refl (url : string) (self : RemoteDB) (msgs : list message) :
  touches_only url self (say self msgs).
Proof. by repeat split. Qed.

Lemma cache_url_frame (self self' : RemoteDB) (url : string) (vars : locals)
    (r : result locals) :
  cache_url self url vars = (r, self') -> touches_only url self self'.
Proof.
  unfold cache_url.
  change (previous_timestamp (say self _) url vars) with (previous_timestamp self url vars).
  destruct (previous_timestamp self url vars) as [[since ts]|e]; [|by intros [= <- <-]].
  match goal with |- context [check_path ?l ?f] => destruct (check_path l f) as [is_ok cmsgs] end.
  destruct is_ok; cbn [negb]; [|by intros [= <- <-]].
  destruct (urlopen url since) as [headers body|code msg|reason|e].
  - intros Hc. apply commit_frame in Hc as [Hc _]. exact Hc.
  - case_bool_decide; [destruct ts|]; by intros [= <- <-].
  - by intros [= <- <-].
  - by intros [= <- <-].
Qed.

Lemma cache_loop_frame (l : list string) :
  forall self self' vars r,
    cache_loop self l vars = (r, self') ->
    cache_prefix self' = cache_prefix self /\
    urls self' = urls self /\
    readonly (fs self') = readonly (fs self) /\
    forall p, (forall url, url ∈ l -> p <> mpath self url /\ p <> tpath self url) ->
              files (fs self') !! p = files (fs self) !! p.
Proof.
  induction l as [|url l IH]; intros self self' vars r Hrun; simpl in Hrun.
  - by injection Hrun as <- <-.
  - destruct (cache_url self url vars) as [[vars1|e] self1] eqn:Hurl.
    + apply cache_url_frame in Hurl as (Hp1 & Hu1 & Hr1 & Hf1).
      apply IH in Hrun as (Hp2 & Hu2 & Hr2 & Hf2).
      repeat split; [congruence.. |].
      intros p Hp. rewrite Hf2.
      * apply Hf1; apply Hp; by left.
      * intros url' Hin. unfold mpath, tpath, filepath. rewrite Hp1.
        apply Hp. by right.
    + injection Hrun as <- <-. apply cache_url_frame in Hurl as (Hp1 & Hu1 & Hr1 & Hf1).
      repeat split; [done.. |]. intros p Hp. apply Hf1; apply Hp; by left.
Qed.

(** X13.  Whatever the servers answer and however [cache] ends, by returning
    or by raising, a file that is neither the content file nor the sidecar
    of a configured URL holds afterwards what it held before, and no path
    has become read-only or writable. *)
Theorem cache_touches_own_files (self self' : RemoteDB) (r : result bool) (p : string) :
  cache self = (r, self') ->
  (forall url, url ∈ urls self -> p <> mpath self url /\ p <> tpath self url) ->
  files (fs self') !! p = files (fs self) !! p /\ readonly (fs self') = readonly (fs self).
Proof.
  unfold cache.
  destruct (cache_loop self (urls self) _) as [[vars|e] s] eqn:Hloop;
    intros [= <- <-] Hp; apply cache_loop_frame in Hloop as (_ & _ & Hr & Hf);
    (split; [by apply Hf | done]).
Qed.

(** *** A cache file that may not be written *)

(** The sidecar of [url], if there is one, can be read. *)
Definition sidecar_readable (self : RemoteDB) (url : string) : Prop :=
  path_exists (tpath self url) (fs self) = true -> is_Some (files (fs self) !! tpath self url).

Lemma previous_timestamp_ok (self : RemoteDB) (url : string) (vars : locals) :
  sidecar_readable self url ->
  exists since ts, previous_timestamp self url vars = Ok (since, ts) /\
                   (path_exists (tpath self url) (fs self) = false ->
                    since = None /\ ts = timestamp vars).
Proof.
  intros Hside. unfold previous_timestamp, os.read_file.
  destruct (path_exists (tpath self url) (fs self)) eqn:He.
  - destruct (Hside He) as [t ->]. by eexists _, _.
  - by eexists _, _.
Qed.

(** X14.  A content file that exists and may not be written: the iteration
    for its URL asks the server nothing, leaves the file system and the
    store as they are and [has_updates] as it is, and warns about the
    missing permission. *)
Theorem cache_url_not_writable (self : RemoteDB) (url : string) (vars : locals) :
  sidecar_readable self url ->
  path_exists (mpath self url) (fs self) = true ->
  access_W_OK (mpath self url) (fs self) = false ->
  exists vars' self',
    cache_url self url vars = (Ok vars', self') /\
    has_updates vars' = has_updates vars /\
    fs self' = fs self /\ store self' = store self /\
    output self' =
    output self ++
    [debug "Generating cache path." (Some 6);
     debug ("RemoteDB.check_path; paths = " +:+ str_list [mpath self url]) (Some 8);
     warn ("You do not have permission to update the cache (" +:+ mpath self url +:+ ").") None]
    ++ (if bool_decide (getuser ≠ "root") then [warn ("Hint: You are not root." +:+ nl) None]
        else []).
Proof.
  intros Hside He Hw. unfold cache_url.
  change (previous_timestamp (say self _) url vars) with (previous_timestamp self url vars).
  destruct (previous_timestamp_ok self url vars Hside) as (since & ts & -> & _).
  change (check_path [mpath (say self _) url] (fs (say self _)))
    with (check_path [mpath self url] (fs self)).
  unfold check_path. cbn [check_path_loop]. rewrite He, Hw. cbn [negb andb].
  eexists _, _. split; [reflexivity|]. cbn [has_updates fs store output say update].
  repeat split. rewrite <- !app_assoc. simpl. by rewrite app_nil_r.
Qed.

(** *** Servers that do not answer *)

(** The answer is an HTTP error other than 304 or another [IOError]. *)
Definition network_error (a : fetch) : Prop :=
  match a with
  | HTTPError code _ => code <> 304
  | URLError _ => True
  | _ => False
  end.

Lemma cache_url_network_error (self : RemoteDB) (url : string) (vars : locals) :
  sidecar_readable self url ->
  (forall since, network_error (urlopen url since)) ->
  exists vars' self',
    cache_url self url vars = (Ok vars', self') /\
    has_updates vars' = has_updates vars /\
    fs self' = fs self /\ store self' = store self /\
    cache_prefix self' = cache_prefix self.
Proof.
  intros Hside Hnet. unfold cache_url.
  change (previous_timestamp (say self _) url vars) with (previous_timestamp self url vars).
  destruct (previous_timestamp_ok self url vars Hside) as (since & ts & -> & _).
  match goal with |- context [check_path ?l ?f] => destruct (check_path l f) as [is_ok cmsgs] end.
  destruct is_ok; cbn [negb]; [|by eexists _, _].
  specialize (Hnet since).
  destruct (urlopen url since) as [headers body|code msg|reason|e]; simpl in Hnet; try done.
  - rewrite bool_decide_eq_false_2 by done. by eexists _, _.
  - by eexists _, _.
Qed.

Lemma cache_loop_network_error (l : list string) :
  forall self vars,
    (forall url, url ∈ l -> sidecar_readable self url) ->
    (forall url since, url ∈ l -> network_error (urlopen url since)) ->
    exists vars' self',
      cache_loop self l vars = (Ok vars', self') /\
      has_updates vars' = has_updates vars /\
      fs self' = fs self /\ store self' = store self.
Proof.
  induction l as [|url l IH]; intros self vars Hside Hnet; simpl.
  - by eexists _, _.
  - destruct (cache_url_network_error self url vars) as (vars1 & self1 & -> & Hu & Hf & Hs & Hp).
    { apply Hside. by left. }
    { intros since. apply Hnet. by left. }
    destruct (IH self1 vars1) as (vars2 & self2 & -> & Hu2 & Hf2 & Hs2).
    { intros url' Hin. unfold sidecar_readable, tpath, filepath. rewrite Hp, Hf.
      apply Hside. by right. }
    { intros url' since Hin. apply Hnet. by right. }
    eexists _, _. split; [reflexivity|]. repeat split; congruence.
Qed.

(** X15.  Servers that cannot be reached or that answer with an HTTP error
    (other than 304) do not make [cache] raise: it returns [False] and
    leaves the file system and the store as they were, so the catalogs
    cached before stay in use. *)
Theorem cache_network_errors (self : RemoteDB) :
  (forall url, url ∈ urls self -> sidecar_readable self url) ->
  (forall url since, url ∈ urls self -> network_error (urlopen url since)) ->
  exists self',
    cache self = (Ok false, self') /\ fs self' = fs self /\ store self' = store self.
Proof.
  intros Hside Hnet. unfold cache.
  destruct (cache_loop_network_error (urls self) self
              {| has_updates := false; timestamp := None |} Hside Hnet)
    as (vars' & self' & -> & Hu & Hf & Hs).
  exists self'. simpl in Hu. by rewrite Hu.
Qed.

(** *** Not modified, with no timestamp at hand *)

(** X16.  The first URL has no sidecar, so the request carries no
    [If-Modified-Since]; when the server still answers 304, the message
    about the time of the last change reads the local [timestamp], which was
    never bound: [cache] ends with an [UnboundLocalError] and has changed no
    file. *)
Theorem cache_not_modified_unbound (self : RemoteDB) (url msg : string) (rest : list string) :
  urls self = url :: rest ->
  path_exists (tpath self url) (fs self) = false ->
  (check_path [mpath self url] (fs self)).1 = true ->
  urlopen url None = HTTPError 304 msg ->
  exists self',
    cache self = (Raise (UnboundLocalError "timestamp"), self') /\ fs self' = fs self.
Proof.
  intros Hurls Hside Hcheck Hfetch. unfold cache. rewrite Hurls. cbn [cache_loop].
  unfold cache_url.
  change (previous_timestamp (say self _) url ?v) with (previous_timestamp self url v).
  unfold previous_timestamp. rewrite Hside. cbn [timestamp].
  change (check_path [mpath (say self _) url] (fs (say self _)))
    with (check_path [mpath self url] (fs self)).
  destruct (check_path [mpath self url] (fs self)) as [is_ok cmsgs].
  simpl in Hcheck. subst is_ok. cbn [negb]. rewrite Hfetch.
  rewrite bool_decide_eq_true_2 by done. by eexists.
Qed.

(** *** The storage directory *)

(** X17.  The server answered with a body.  When the iteration returns, the
    directory of the content file exists.  When that directory is missing and
    cannot be created, the iteration raises an [OSError] before the body is
    looked at: the store and the files are as they were. *)
Theorem cache_url_storage (self : RemoteDB) (url : string) (vars : locals)
    (since : option string) (ts : option (option string))
    (headers : gmap string string) (body : string) :
  previous_timestamp self url vars = Ok (since, ts) ->
  (check_path [mpath self url] (fs self)).1 = true ->
  urlopen url since = Response headers body ->
  (forall vars' self',
      cache_url self url vars = (Ok vars', self') ->
      path_exists (dirname (mpath self url)) (fs self') = true)
  /\ (path_exists (dirname (mpath self url)) (fs self) = false ->
      dirname (mpath self url) ∈ readonly (fs self) ->
      exists m self',
        cache_url self url vars = (Raise (OSError m), self') /\
        fs self' = fs self /\ store self' = store self).
Proof.
  intros Hprev Hcheck Hfetch.
  rewrite (cache_url_fetch self url vars since ts Hprev Hcheck headers body Hfetch). split.
  - intros vars' self' Hc. apply commit_frame in Hc as [_ Hd].
    cbn [say] in Hd. rewrite ?mpath_update in Hd. by eapply Hd.
  - intros Hmissing Hro. unfold commit, say. cbn [fs update store].
    rewrite ?mpath_update. rewrite Hmissing. cbn [negb]. unfold makedirs.
    rewrite bool_decide_eq_true_2 by done. by eexists _, _.
Qed.

End MoreCacheFacts.

(** ** [Overlay.sync] and [Overlay.delete] after [Overlay.add] *)

Section UpkeepFacts.

Import overlay upkeep.

Context {W : Type} `{Backend W} `{Maintainer W}.

(** A loop of [add] that returns 0 has kept exactly one of the candidates. *)
Lemma add_loop_narrows (base : string) (l : list OverlaySource) :
  forall (res : Z) (first_s : bool) (st st' : add_state),
    res <> 0 ->
    add_loop base l res first_s st = (Ok 0, st') ->
    exists s, s ∈ l /\ sources (self st') = [s] /\ name (self st') = name (self st).
Proof.
  induction l as [|s l IH]; intros res first_s st st' Hres Hrun; simpl in Hrun.
  - injection Hrun as -> _. done.
  - destruct (source_add s base (world st)) as [[r|e] w].
    + case_bool_decide as Hr.
      * injection Hrun as _ <-. exists s. split; [by left | done].
      * apply IH in Hrun as (s' & Hin & Hs & Hn); [|done].
        exists s'. split; [by right | done].
    + destruct (is_Exception e); [|discriminate].
      apply IH in Hrun as (s' & Hin & Hs & Hn); [|done].
      exists s'. split; [by right | done].
Qed.

(** X18.  [sync] and [delete] assert that the overlay has exactly one
    source.  After an [add] that returned 0 the assertion holds: both call
    the one source [add] has kept, a candidate of the overlay, and return
    what it returns.  On an overlay with no source or with several, both
    raise an [AssertionError] and no source is called. *)
Theorem sync_after_add (base : string) (st st' : add_state) :
  (add base st = (Ok 0, st') ->
   exists s,
     s ∈ sources (self st) /\
     Overlay_sync base st' =
     (Done (source_sync s base (world st')).1,
      {| self := self st'; world := (source_sync s base (world st')).2;
         output := output st' ++
                   [debug ("overlay.sync(); name = " +:+ name (self st)) (Some 4)] |}) /\
     Overlay_delete base st' =
     (Done (source_delete s base (world st')).1,
      {| self := self st'; world := (source_delete s base (world st')).2;
         output := output st' |}))
  /\ (length (sources (self st)) <> 1%nat ->
      Overlay_sync base st =
      (AssertionError,
       {| self := self st; world := world st;
          output := output st ++
                    [debug ("overlay.sync(); name = " +:+ name (self st)) (Some 4)] |}) /\
      Overlay_delete base st = (AssertionError, st)).
Proof.
  split.
  - intros Hadd. unfold add in Hadd.
    apply add_loop_narrows in Hadd as (s & Hin & Hs & Hn); [|done].
    exists s. split; [done|]. unfold Overlay_sync, Overlay_delete. rewrite Hs, Hn.
    destruct (source_sync s base (world st')), (source_delete s base (world st')). done.
  - intros Hlen. unfold Overlay_sync, Overlay_delete.
    destruct (sources (self st)) as [|s [|s' l]]; done.
Qed.

End UpkeepFacts.

(** ** [DbBase.add_new] *)

Section AddNewFacts.

Import ET overlay os dbbase additions.

Context `{Externals}.

(** Every mapping of [ds] is made an overlay of [os]. *)
Definition built_from (ign : Z) (ds : list ovl_dict) (os : list Overlay) : Prop :=
  Forall2 (fun d o => (from_dict d ign).2 = Ok o) ds os.

Lemma add_dicts_ok (ign : Z) (ds : list ovl_dict) :
  forall m m' msgs,
    add_dicts ign ds m = (Ok tt, m', msgs) ->
    exists os, built_from ign ds os /\ m' = foldl store_overlay m os.
Proof.
  induction ds as [|d ds IH]; intros m m' msgs Hr; simpl in Hr.
  - injection Hr as <- _. exists []. split; [constructor | reflexivity].
  - destruct (from_dict d ign) as [l [o|e]] eqn:Hd; [|discriminate].
    destruct (add_dicts ign ds (<[name o:=o]> m)) as [[r m''] l'] eqn:Hrest.
    injection Hr as -> -> _.
    destruct (IH _ _ _ Hrest) as (os & Hos & ->).
    exists (o :: os). split; [|reflexivity].
    constructor; [by rewrite Hd | done].
Qed.

(** X19.  [add_new] with a document and with mappings reads the document
    first and the mappings after it: when it returns, a name carried by an
    overlay made from a mapping is bound to the last such overlay, whatever
    the document says; else a name carried by an overlay of the document is
    bound to the last such overlay; any other name keeps what the store held.
    One mapping is treated as a list of one. *)
Theorem add_new_mappings_last (self self' : DbBase) (text : string) (origin : option string)
    (ds : list ovl_dict) (document : Element) (msgs : list message) :
  ET_fromstring text = inr document ->
  add_new self (Some text) origin (Some (dict_list ds)) = (Ok tt, self', msgs) ->
  (exists os1 os2,
      parsed (ignore self) (overlay_nodes document) os1 /\
      built_from (ignore self) ds os2 /\
      forall k, overlays self' !! k =
                match last_named k os2 with
                | Some o => Some o
                | None => match last_named k os1 with
                          | Some o => Some o
                          | None => overlays self !! k
                          end
                end)
  /\ (forall d, add_new self (Some text) origin (Some (one_dict d)) =
                add_new self (Some text) origin (Some (dict_list [d]))).
Proof.
  intros Hdoc Hrun. split; [|reflexivity].
  unfold add_new in Hrun.
  destruct (read self text (default "None" origin)) as [[[[]|e] self1] msgs1] eqn:Hread;
    [|discriminate].
  apply read_ok in Hread as (document' & os1 & Hdoc' & Hos1 & ->).
  assert (document' = document) as -> by congruence.
  unfold _add_from_dict in Hrun. cbn [ignore overlays set_overlays] in Hrun.
  destruct (add_dicts _ ds _) as [[r m] l] eqn:Hdicts.
  injection Hrun as -> <- _.
  apply add_dicts_ok in Hdicts as (os2 & Hos2 & ->).
  exists os1, os2. split; [done|]. split; [done|].
  intros k. cbn [overlays set_overlays]. by rewrite !lookup_store_overlays.
Qed.

End AddNewFacts.

(** ** [DB] *)

Section LocalDbFacts.

Import ET overlay os dbbase upkeep localdb.

Context `{Externals}.

(** X20.  [DB.__init__] passes the keyword [quiet] to [DbBase.__init__],
    which has no such parameter: the call raises a [TypeError] before the
    base class does anything.  So [DB.__init__] never returns an object; it
    raises that [TypeError], or the error of [int] on the quietness, after
    its first trace and without reading the file system. *)
Theorem DB_init_raises (config_ : Config) (fs : FS) :
  exists e,
    DB_init config_ fs =
    (Raise e,
     [debug ("DB.__init__(): config['local_list'] = " +:+ local_list config_) (Some 3)])
    /\ (forall q, int_of_value (quietness config_) = Ok q ->
                  e = TypeError "__init__() got an unexpected keyword argument 'quiet'")
    /\ (forall e', int_of_value (quietness config_) = Raise e' -> e = e').
Proof.
  unfold DB_init. destruct (int_of_value (quietness config_)) as [q|e'].
  - eexists. split; [reflexivity|]. split; [done | discriminate].
  - exists e'. split; [reflexivity|]. split; [discriminate | by intros ? [= <-]].
Qed.

Context {W : Type} `{Maintainer W} `{MakeConf W}.

(** X21.  [DB.delete].  For an overlay whose name is not installed it
    reports the error and returns [False]; object, files and backends stay
    as they are.  For an installed name, when the overlay has one source and
    [MakeConf] and the write go through, the entry is removed and the local
    list is written without it whatever status the source's [delete]
    returned; the result is [True], and the name can no longer be selected. *)
Theorem DB_delete_removes (self : DB) (overlay : Overlay) (f : FS) (w : W) :
  (overlays (base self) !! name overlay = None ->
   DB_delete self overlay f w =
   (Done (Ok false), self, f, w,
    [error ("No local overlay named " +:+ dq +:+ name overlay +:+ dq +:+ "!")]))
  /\ (forall s w1 r w2 f' b w3,
        is_Some (overlays (base self) !! name overlay) ->
        sources overlay = [s] ->
        MakeConf_new (overlays (base self)) w = (Ok tt, w1) ->
        source_delete s (storage (config self)) w1 = (Ok r, w2) ->
        write (base (without self (name overlay))) (path self) f = Ok f' ->
        MakeConf_delete (overlays (base (without self (name overlay)))) overlay w2
        = (Ok b, w3) ->
        DB_delete self overlay f w =
        (Done (Ok true), without self (name overlay), f', w3, []) /\
        files f' !! path self = Some (write_text (base (without self (name overlay)))) /\
        overlays (base (without self (name overlay))) !! name overlay = None /\
        (forall k, k <> name overlay ->
                   overlays (base (without self (name overlay))) !! k =
                   overlays (base self) !! k) /\
        (select (base (without self (name overlay))) (name overlay)).1 =
        Raise (UnknownOverlayException (name overlay))).
Proof.
  split.
  - intros Hnone. unfold DB_delete. rewrite bool_decide_eq_false_2; [done|].
    rewrite elem_of_keys, Hnone. by intros [? ?].
  - intros s w1 r w2 f' b w3 Hin Hs Hnew Hdel Hwrite Hmc.
    assert (overlays (base (without self (name overlay))) !! name overlay = None) as Hgone.
    { unfold without. cbn [base overlays set_overlays]. apply lookup_delete_eq. }
    split; [|split; [|split; [done|split]]].
    + unfold DB_delete. rewrite bool_decide_eq_true_2 by (by apply elem_of_keys).
      rewrite Hnew. unfold Overlay_delete. cbn [overlay.self world overlay.output].
      rewrite Hs, Hdel. cbn [world overlay.output]. by rewrite Hwrite, Hmc.
    + unfold write in Hwrite.
      destruct (write_file _ _ f) as [f1|e] eqn:Hw; [|by destruct (is_Exception e)].
      injection Hwrite as <-. unfold write_file in Hw.
      destruct (_ || _); [discriminate|]. injection Hw as <-. apply lookup_insert_eq.
    + intros k Hk. unfold without. cbn [base overlays set_overlays].
      by apply lookup_delete_ne.
    + unfold select. rewrite bool_decide_eq_false_2; [done|].
      rewrite elem_of_keys, Hgone. by intros [? ?].
Qed.

End LocalDbFacts.

(** ** Git sources *)

Section GitFacts.

Import overlay git.

Lemma endswith_slash_app (s : string) : endswith_slash (s +:+ "/") = true.
Proof.
  induction s as [|c s IH]; [done|]. simpl.
  destruct (s +:+ "/") eqn:Hs; [by destruct s | done].
Qed.

(** X22.  [fix_git_source] gives a source whose text before the first colon
    is [http] a slash at its end, unless it has one, and leaves every other
    source as it is; applied to its own result it changes nothing. *)
Theorem fix_git_source_slash (source_ : string) :
  (before_colon source_ = "http" -> endswith_slash (fix_git_source source_) = true)
  /\ (before_colon source_ = "http" -> endswith_slash source_ = false ->
      fix_git_source source_ = source_ +:+ "/")
  /\ (before_colon source_ <> "http" -> fix_git_source source_ = source_)
  /\ fix_git_source (fix_git_source source_) = fix_git_source source_.
Proof.
  unfold fix_git_source.
  destruct (String.eqb_spec (before_colon source_) "http") as [Hh|Hh].
  - destruct (endswith_slash source_) eqn:He.
    + split; [done|]. split; [done|]. split; [done|].
      by rewrite (proj2 (String.eqb_eq _ _) Hh), He.
    + split; [intros _; apply endswith_slash_app|]. split; [done|]. split; [done|].
      destruct (String.eqb _ "http"); [|done]. by rewrite endswith_slash_app.
  - split; [done|]. split; [done|]. split; [done|].
    by rewrite (proj2 (String.eqb_neq _ _) Hh).
Qed.

Context {W : Type} `{Shell W}.

(** X23.  [GitOverlay.add].  When git is not supported it returns 1 and
    runs no command.  When it is, the status of [git clone] is traced and
    then dropped: whatever that status is, the result of [add] is what
    [postsync] makes of the status of [set_user]. *)
Theorem git_add_status (self : GitOverlay) (base : string) (w w0 : W) :
  (supported w = (false, w0) -> add self base w = (Ok 1, w0, []))
  /\ (forall cloned w1 user w2 msgs,
        supported w = (true, w0) ->
        run_command (clone_args self (path [base; name (parent self)])) base w0
        = (Ok cloned, w1) ->
        set_user self (path [base; name (parent self)]) w1 = (Ok user, w2, msgs) ->
        add self base w =
        ((postsync user (path [base; name (parent self)]) w2).1,
         (postsync user (path [base; name (parent self)]) w2).2,
         debug ("cloned git repo...success=" +:+ str_int cloned) (Some 8) :: msgs)).
Proof.
  split.
  - intros Hs. unfold add. by rewrite Hs.
  - intros cloned w1 user w2 msgs Hs Hclone Huser. unfold add.
    rewrite Hs, Hclone, Huser. by destruct (postsync user _ w2).
Qed.

(** X24.  [set_user] sets the user name and then the e-mail address.  When
    setting the name returns a status other than 0, that status is the
    result and the second command is not run; when it returns 0 the result
    is that of the second command. *)
Theorem set_user_stops (self : GitOverlay) (target : string) (w w1 : W) (failure : Z) :
  run_command ["config"; "user.name"; quoted (git_user (config self))] target w
  = (Ok failure, w1) ->
  (failure <> 0 ->
   exists msgs, set_user self target w = (Ok failure, w1, msgs))
  /\ (failure = 0 ->
      exists msgs,
        set_user self target w =
        ((run_command ["config"; "user.email"; quoted (git_email (config self))] target w1).1,
         (run_command ["config"; "user.email"; quoted (git_email (config self))] target w1).2,
         msgs)).
Proof.
  intros Hname. unfold set_user. rewrite Hname. split.
  - intros Hf. apply Z.eqb_neq in Hf. rewrite Hf. by eexists.
  - intros ->. simpl. destruct (run_command _ target w1). by eexists.
Qed.

End GitFacts.

(** ** Definitions that cannot be built *)

Section UnbuiltFacts.

Import ET overlay.

Context `{Externals}.

Lemma create_dict_sources_branch (n : string) (pre : list (string * string * string)) :
  (forall x, x ∈ pre ->
             exists c, OVERLAY_TYPES !! x.1.2 = Some c /\ init_reads_branch c = false) ->
  forall s t sub c post,
    OVERLAY_TYPES !! t = Some c -> init_reads_branch c = true ->
    mapM (create_dict_overlay_source n None) (pre ++ (s, t, sub) :: post) =
    ([], Raise (AttributeError "'Overlay' object has no attribute 'branch'")).
Proof.
  induction pre as [|[[s0 t0] sub0] pre IH]; intros Hpre s t sub c post Hc Hinit; simpl.
  - unfold source.new. by rewrite Hc, Hinit.
  - destruct (Hpre (s0, t0, sub0)) as (c0 & Hc0 & Hinit0); [by left|]. simpl in Hc0.
    rewrite Hc0. unfold source.new at 1. rewrite Hinit0.
    rewrite (IH (fun x Hx => Hpre x (list_elem_of_further _ _ _ Hx)) s t sub c post Hc Hinit).
    reflexivity.
Qed.

(** X25.  [from_dict] never sets [branch], and the constructor of a git
    source reads it from its parent.  So a mapping with a source of a type
    whose constructor reads the branch, the sources before it being of other
    registered types, is never made an overlay: [from_dict] raises an
    [AttributeError] at every ignore level, its debug message with the
    representation of the mapping being all it has sent. *)
Theorem from_dict_reads_branch (overlay : ovl_dict) (ign : Z) (n s t sub : string)
    (pre post : list (string * string * string)) (c : SourceClass) :
  d_name overlay = Some n ->
  d_sources overlay = Some (pre ++ (s, t, sub) :: post) ->
  (forall x, x ∈ pre ->
             exists c', OVERLAY_TYPES !! x.1.2 = Some c' /\ init_reads_branch c' = false) ->
  OVERLAY_TYPES !! t = Some c -> init_reads_branch c = true ->
  from_dict overlay ign =
  ([debug ("Overlay from_dict(); overlay" +:+ str_dict overlay) None],
   Raise (AttributeError "'Overlay' object has no attribute 'branch'")).
Proof.
  intros Hn Hs Hpre Hc Hinit. unfold from_dict. rewrite bind_tell. cbv beta.
  rewrite Hn, Hs, !bind_ret_l.
  by rewrite (create_dict_sources_branch (encode n) pre Hpre s t sub c post Hc Hinit).
Qed.

(** X26.  The text of a [branch] child is stripped where it stands, not
    through [strip_text]: a node with an empty [branch] child, whose text is
    [None], makes [from_xml] raise an [AttributeError] at every ignore level,
    while an empty [name] child would give the empty name. *)
Theorem from_xml_empty_branch (xml node : Element) (ign : Z) (n : string) :
  read_name xml = ret n -> source_elems xml <> [] ->
  find "branch" xml = Some node -> text node = None ->
  from_xml xml ign =
  ([], Raise (AttributeError "'NoneType' object has no attribute 'strip'")).
Proof.
  intros Hn Hs Hb Ht. unfold from_xml. rewrite Hn, bind_ret_l.
  rewrite bool_decide_eq_false_2.
  2:{ intros Hlen. by apply length_zero_iff_nil in Hlen. }
  rewrite bind_ret_l. unfold read_hint at 1. rewrite Hb. unfold text_strip. by rewrite Ht.
Qed.

End UnbuiltFacts.

(** ** A cache file that cannot be written after all *)

Section CommitFacts.

Import ET overlay os dbbase db.

Context `{Externals} `{Host}.

(** X27.  The fetched list is read into the store before the cache file is
    written.  When the list parses and the content file cannot be written,
    the iteration raises an [IOError] that names the file; no file has
    changed, but the store already holds the overlays of the fetched list. *)
Theorem cache_url_write_fails (self : RemoteDB) (url : string) (vars : locals)
    (since : option string) (ts : option (option string))
    (headers : gmap string string) (body : string) (d : DbBase) (msgs : list message) :
  previous_timestamp self url vars = Ok (since, ts) ->
  (check_path [mpath self url] (fs self)).1 = true ->
  urlopen url since = Response headers body ->
  path_exists (dirname (mpath self url)) (fs self) = true ->
  read (store self) body url = (Ok tt, d, msgs) ->
  mpath self url ∈ readonly (fs self) ->
  exists m self',
    cache_url self url vars =
    (Raise (IOError ("Failed to temporarily cache overlays list in " +:+ mpath self url +:+
                     nl +:+ "Error was:" +:+ nl +:+ m)), self') /\
    fs self' = fs self /\ store self' = d.
Proof.
  intros Hprev Hcheck Hfetch Hdir Hread Hro.
  rewrite (cache_url_fetch self url vars since ts Hprev Hcheck headers body Hfetch).
  unfold commit, say. cbv zeta. cbn [fs update store]. rewrite ?mpath_update.
  rewrite Hdir. cbn [negb]. rewrite Hread. rewrite ?mpath_update.
  unfold write_file. rewrite (bool_decide_eq_true_2 (mpath self url ∈ readonly (fs self))) by done.
  cbn [orb]. by eexists _, _.
Qed.

End CommitFacts.

(** ** The further properties at work on the concrete machine *)

Module scripts.

Import ET overlay os dbbase db upkeep localdb reference example.

(** Sources that record what they are asked to do; the location decides the
    status, as for [add]. *)
#[export] Instance maintainer : Maintainer (list string) := {
  source_sync s base w :=
    (if bool_decide (src s = "ok") then Ok 0 else Ok 1, w ++ ["sync " +:+ src s]);
  source_delete s base w :=
    (if bool_decide (src s = "ok") then Ok 0 else Ok 1, w ++ ["delete " +:+ src s])
}.

(** A [MakeConf] that records its calls and the names it is shown. *)
#[export] Instance makeconf : MakeConf (list string) := {
  MakeConf_new m w := (Ok tt, w ++ ["make.conf of " +:+ join "," (keys m)]);
  MakeConf_delete m o w := (Ok true, w ++ ["make.conf without " +:+ name o])
}.

(** A shell that records the commands it runs.  [git clone] fails with
    status 128; every other command succeeds. *)
#[export] Instance shell : git.Shell (list string) := {
  git.supported w := (true, w);
  git.run_command args cwd w :=
    (if bool_decide (head args = Some "clone") then Ok 128 else Ok 0,
     w ++ [join " " ("git" :: args)]);
  git.postsync status_ cwd w := (Ok status_, w);
  git.path l := join "/" l
}.

(** A catalog whose second overlay has no source. *)
Definition faulty_overlays : string :=
  "<repositories version=" +:+ q "1.0" +:+ ">" +:+ nl +:+
  "  <repo quality=" +:+ q "experimental" +:+ " priority=" +:+ q "50" +:+ ">" +:+ nl +:+
  "    <name>wrobel-stable</name>" +:+ nl +:+
  "    <description>A collection of ebuilds.</description>" +:+ nl +:+
  "    <owner><email>nobody@gentoo.org</email></owner>" +:+ nl +:+
  "    <source type=" +:+ q "rsync" +:+ ">rsync://gunnarwrobel.de/wrobel-stable</source>" +:+ nl +:+
  "  </repo>" +:+ nl +:+
  "  <repo quality=" +:+ q "testing" +:+ " priority=" +:+ q "50" +:+ ">" +:+ nl +:+
  "    <name>sunrise</name>" +:+ nl +:+
  "    <description>User contributed ebuilds.</description>" +:+ nl +:+
  "    <owner><email>sunrise@gentoo.org</email></owner>" +:+ nl +:+
  "    <source>svn://overlays.gentoo.org/proj/sunrise</source>" +:+ nl +:+
  "  </repo>" +:+ nl +:+
  "  <repo quality=" +:+ q "testing" +:+ " priority=" +:+ q "50" +:+ ">" +:+ nl +:+
  "    <name>last</name>" +:+ nl +:+
  "    <description>Never read.</description>" +:+ nl +:+
  "    <owner><email>last@gentoo.org</email></owner>" +:+ nl +:+
  "    <source type=" +:+ q "git" +:+ ">git://example.org/last.git</source>" +:+ nl +:+
  "  </repo>" +:+ nl +:+
  "</repositories>" +:+ nl.

(** A node without a name, and one whose only source has no type. *)
Definition nameless_node : Element :=
  Elem "repo" ∅ None [Elem "source" {[ "type" := "git" ]} (Some "git://example.org/x.git") []].

Definition untyped_node : Element :=
  Elem "repo" ∅ None
       [leaf "name" (Some "wrobel"); Elem "source" ∅ (Some "rsync://example.org/wrobel") []].



Definition nameless_mapping : ovl_dict :=
  {| d_name := None; d_sources := Some []; d_owner_name := None; d_owner_email := None;
     d_description := None; d_status := None; d_quality := Some ""; d_priority := PNone;
     d_homepage := None; d_feeds := []; d_irc := None |}.

(** A file system whose content file for [url] may not be written. *)
Definition locked : FS :=
  {| files := {[ mpath (remote empty_disk) url := global_overlays ]};
     dirs := {[ "/var/lib/layman" ]};
     readonly := {[ mpath (remote empty_disk) url ]} |}.

(** A file system without the storage directory, which may not be made. *)
Definition sealed : FS :=
  {| files := ∅; dirs := ∅; readonly := {[ "/var/lib/layman" ]} |}.

(** A [DB] object holding the overlays [a] and [b]. *)
Definition settings : localdb.Config :=
  {| local_list := "/var/lib/layman/overlays.xml"; nocheck := true; quietness := PInt 4;
     storage := "/var/lib/layman"; make_conf := true |}.

Definition local_db : DB :=
  {| base := local_store; localdb.config := settings; path := "/var/lib/layman/overlays.xml" |}.

(** A git source of the overlay [wrobel], on the branch [stable]. *)
Definition git_settings : git.Config :=
  {| git.git_addopts := ""; git.git_syncopts := ""; git.git_user := "layman";
     git.git_email := "layman@localhost"; git.quiet := true |}.

Definition wrobel_git : git.GitOverlay :=
  {| git.parent := scripted.candidate_overlay []; git.src := "http://example.org/wrobel.git";
     git.config := git_settings; git.branch := "stable" |}.

End scripts.

Section MoreExamples.

Import ET overlay os dbbase db upkeep additions localdb scripted reference example scripts.

Lemma source_eq_trans (x y z : OverlaySource) :
  source_eq x y = true -> source_eq y z = true -> source_eq x z = true.
Proof. simpl. rewrite !bool_decide_eq_true. congruence. Qed.

Lemma source_eq_src (a b : OverlaySource) : src a = src b -> source_eq a b = true.
Proof. intros Hab. simpl. by apply bool_decide_eq_true_2. Qed.

Lemma Overlay_eq_trans_witness :
  Overlay_eq wrobel_stable
             (set_priority (with_uncompared wrobel_stable "stable" ["feed"] None None None) 50)
  = true.
Proof.
  apply (Overlay_eq_trans wrobel_stable
           (with_uncompared wrobel_stable "stable" ["feed"] None None None)).
  - exact source_eq_trans.
  - reflexivity.
  - reflexivity.
Defined.

Lemma nameless_definition_witness :
  from_xml nameless_node 2 =
  ([], Raise (AttributeError "'Overlay' object has no attribute 'name'"))
  /\ from_dict nameless_mapping 2 =
     ([debug ("Overlay from_dict(); overlay" +:+ str_dict nameless_mapping) None],
      Raise (AttributeError "'Overlay' object has no attribute 'name'")).
Proof.
  split.
  - apply (proj1 (nameless_definition nameless_node nameless_mapping 2)); reflexivity.
  - apply (proj2 (nameless_definition nameless_node nameless_mapping 2)); reflexivity.
Defined.

Lemma from_xml_needs_source_witness :
  from_xml untyped_node 2 =
  ([], Raise (Exception ("Overlay from_xml(), " +:+ dq +:+ "wrobel" +:+ dq +:+
                         " is missing a " +:+ dq +:+ "source" +:+ dq +:+ " entry!"))).
Proof.
  apply (from_xml_needs_source untyped_node 2 "wrobel").
  - repeat constructor.
  - discriminate.
  - reflexivity.
Defined.



Lemma DbBase_init_not_found_witness :
  DbBase_init class_DB ["/var/lib/layman/overlays.xml"] 1 false empty_disk =
  (Ok {| dbbase.class := class_DB; paths := ["/var/lib/layman/overlays.xml"]; ignore := 1;
         ignore_init_read_errors := false; overlays := ∅ |},
   [debug "Initializing overlay list handler" (Some 8);
    not_found ["/var/lib/layman/overlays.xml"]]).
Proof.
  apply (proj1 (DbBase_init_not_found class_DB ["/var/lib/layman/overlays.xml"] 1 false
                  empty_disk)).
  intros p ->%list_elem_of_singleton. reflexivity.
Defined.

(** The overlay nodes of the faulty catalog and the overlay of the first. *)
Definition faulty_nodes : list Element := overlay_nodes (document_of faulty_overlays).

Definition first_overlay : Overlay :=
  match (from_xml (default nameless_node (head faulty_nodes)) 0).2 with
  | Ok o => o
  | Raise _ => wrobel_stable
  end.

Lemma read_faulty_entry_witness :
  exists msgs,
    read (empty_store class_DB 0) faulty_overlays "overlays.xml" =
    (Raise (Exception ("Overlay from_xml(), " +:+ dq +:+ "sunrise" +:+ dq +:+
                       " is missing a " +:+ dq +:+ "source" +:+ dq +:+ " entry!")),
     set_overlays (empty_store class_DB 0)
                  (foldl store_overlay (overlays (empty_store class_DB 0)) [first_overlay]),
     msgs) /\
    forall k, foldl store_overlay (overlays (empty_store class_DB 0)) [first_overlay] !! k =
              match last_named k [first_overlay] with
              | Some o => Some o
              | None => overlays (empty_store class_DB 0) !! k
              end.
Proof.
  apply (read_faulty_entry (empty_store class_DB 0) faulty_overlays "overlays.xml"
           (document_of faulty_overlays)
           (default nameless_node (faulty_nodes !! 1%nat))
           [default nameless_node (head faulty_nodes)] (drop 2 faulty_nodes)).
  - vm_compute. reflexivity.
  - vm_compute. reflexivity.
  - unfold parsed. apply List.Forall2_cons; [vm_compute; reflexivity | apply List.Forall2_nil].
  - vm_compute. reflexivity.
Defined.

Lemma DbBase_init_unreadable_witness :
  exists e,
    DbBase_init class_RemoteDB (["/var/cache/none.xml"] ++ "/etc/layman" :: catalog_paths)
                0 true disk =
    (Raise e, debug "Initializing overlay list handler" (Some 8) :: if true then [] else
       [error ("Failed to read the overlay list at (" +:+ dq +:+ "/etc/layman" +:+ dq +:+ ")")])
    /\ (if true then e = UnboundLocalError "document" else exists m, e = IOError m).
Proof.
  apply (DbBase_init_unreadable class_RemoteDB ["/var/cache/none.xml"] catalog_paths
           "/etc/layman" 0 true disk).
  - intros p ->%list_elem_of_singleton. reflexivity.
  - vm_compute. by apply (bool_decide_eq_true_1 _).
  - reflexivity.
Defined.

Lemma read_again_witness :
  exists msgs',
    read (loaded global_overlays) global_overlays "overlays.xml" =
    (Ok tt, loaded global_overlays, msgs').
Proof.
  eapply (read_again (empty_store class_DB 0)). vm_compute. reflexivity.
Defined.

Lemma DbBase_eq_refl_witness : DbBase_eq local_store local_store = Ok true.
Proof.
  apply (DbBase_eq_refl local_store first_seen_sound).
  intros k o s _ _. by apply source_eq_src.
Defined.

Lemma check_path_answer_witness :
  (@check_path externals (server (URLError "down")) [mpath (remote empty_disk) url] empty_disk).2
  = [debug ("RemoteDB.check_path; paths = " +:+ str_list [mpath (remote empty_disk) url])
           (Some 8)].
Proof.
  apply (proj2 (@check_path_answer externals (server (URLError "down"))
                  [mpath (remote empty_disk) url] empty_disk)).
  reflexivity.
Defined.

Lemma cache_touches_own_files_witness :
  files (fs (@cache externals (server (Response ∅ mirror_overlays)) (remote disk)).2)
    !! "/etc/layman/global.xml"
  = files (fs (remote disk)) !! "/etc/layman/global.xml" /\
  readonly (fs (@cache externals (server (Response ∅ mirror_overlays)) (remote disk)).2)
  = readonly (fs (remote disk)).
Proof.
  apply (@cache_touches_own_files externals (server (Response ∅ mirror_overlays))
           (remote disk) _
           (@cache externals (server (Response ∅ mirror_overlays)) (remote disk)).1).
  - by destruct (cache _).
  - intros u ->%list_elem_of_singleton. split; vm_compute; discriminate.
Defined.

Lemma cache_url_not_writable_witness :
  exists vars' self',
    @cache_url externals (server (Response ∅ mirror_overlays)) (remote locked) url
               {| has_updates := false; timestamp := None |} = (Ok vars', self') /\
    has_updates vars' = false /\
    fs self' = locked /\ store self' = store (remote locked) /\
    output self' =
    output (remote locked) ++
    [debug "Generating cache path." (Some 6);
     debug ("RemoteDB.check_path; paths = " +:+ str_list [mpath (remote locked) url]) (Some 8);
     warn ("You do not have permission to update the cache (" +:+ mpath (remote locked) url
           +:+ ").") None]
    ++ (if bool_decide (@getuser (server (Response ∅ mirror_overlays)) ≠ "root")
        then [warn ("Hint: You are not root." +:+ nl) None] else []).
Proof.
  apply (@cache_url_not_writable externals (server (Response ∅ mirror_overlays))
           (remote locked) url {| has_updates := false; timestamp := None |}).
  - intros Hex. vm_compute in Hex. discriminate.
  - vm_compute. reflexivity.
  - vm_compute. reflexivity.
Defined.

Lemma cache_network_errors_witness :
  exists self',
    @cache externals (server (URLError "timed out")) (remote (cached global_overlays last_run))
    = (Ok false, self') /\
    fs self' = cached global_overlays last_run /\
    store self' = store (remote (cached global_overlays last_run)).
Proof.
  apply (@cache_network_errors externals (server (URLError "timed out"))
           (remote (cached global_overlays last_run))).
  - intros u ->%list_elem_of_singleton _. vm_compute. by eexists.
  - intros u since _. exact I.
Defined.

Lemma cache_not_modified_unbound_witness :
  exists self',
    @cache externals (server (HTTPError 304 "Not Modified")) (remote empty_disk)
    = (Raise (UnboundLocalError "timestamp"), self') /\ fs self' = empty_disk.
Proof.
  apply (@cache_not_modified_unbound externals (server (HTTPError 304 "Not Modified"))
           (remote empty_disk) url "Not Modified" []).
  - reflexivity.
  - vm_compute. reflexivity.
  - vm_compute. reflexivity.
  - reflexivity.
Defined.

Lemma cache_url_storage_witness :
  exists m self',
    @cache_url externals (server (Response ∅ mirror_overlays)) (remote sealed) url
               {| has_updates := false; timestamp := None |} = (Raise (OSError m), self') /\
    fs self' = sealed /\ store self' = store (remote sealed).
Proof.
  apply (proj2 (@cache_url_storage externals (server (Response ∅ mirror_overlays))
                  (remote sealed) url {| has_updates := false; timestamp := None |}
                  None None ∅ mirror_overlays eq_refl eq_refl eq_refl)).
  - vm_compute. reflexivity.
  - vm_compute. by apply (bool_decide_eq_true_1 _).
Defined.

(** The state [add] leaves for the candidates [broken] and [ok]. *)
Definition added : @add_state (list string) :=
  (add "/var/lib/layman" (scripted.fresh [scripted.at_ scripted.rsync "broken";
                                          scripted.at_ scripted.rsync "ok"])).2.

Lemma sync_after_add_witness :
  exists s,
    s ∈ [scripted.at_ scripted.rsync "broken"; scripted.at_ scripted.rsync "ok"] /\
    Overlay_sync "/var/lib/layman" added =
    (Done (source_sync s "/var/lib/layman" (world added)).1,
     {| self := self added; world := (source_sync s "/var/lib/layman" (world added)).2;
        overlay.output := overlay.output added ++
                  [debug ("overlay.sync(); name = " +:+ "wrobel") (Some 4)] |}) /\
    Overlay_delete "/var/lib/layman" added =
    (Done (source_delete s "/var/lib/layman" (world added)).1,
     {| self := self added; world := (source_delete s "/var/lib/layman" (world added)).2;
        overlay.output := overlay.output added |}).
Proof.
  apply (proj1 (sync_after_add "/var/lib/layman"
                  (scripted.fresh [scripted.at_ scripted.rsync "broken";
                                   scripted.at_ scripted.rsync "ok"]) added)).
  reflexivity.
Defined.

(** The store after [add_new] with a catalog and the mapping of [sunrise]. *)
Definition merged : outcome unit :=
  add_new (empty_store class_DB 2) (Some mirror_overlays) None
          (Some (dict_list [as_mapping sunrise])).

Lemma add_new_mappings_last_witness :
  exists os1 os2,
    parsed 2 (overlay_nodes (document_of mirror_overlays)) os1 /\
    built_from 2 [as_mapping sunrise] os2 /\
    forall k, overlays merged.1.2 !! k =
              match last_named k os2 with
              | Some o => Some o
              | None => match last_named k os1 with
                        | Some o => Some o
                        | None => overlays (empty_store class_DB 2) !! k
                        end
              end.
Proof.
  refine (proj1 (add_new_mappings_last (empty_store class_DB 2) merged.1.2 mirror_overlays None
                   [as_mapping sunrise] (document_of mirror_overlays) merged.2 _ _)).
  - vm_compute. reflexivity.
  - vm_compute. reflexivity.
Defined.

Lemma DB_delete_removes_witness :
  DB_delete local_db (entity "a" "the first") empty_disk [] =
  (Done (Ok true), without local_db "a",
   {| files := {[ "/var/lib/layman/overlays.xml" := write_text (base (without local_db "a")) ]};
      dirs := dirs empty_disk; readonly := readonly empty_disk |},
   ["make.conf of a,b"; "delete rsync://example.org/a"; "make.conf without a"], []) /\
  (select (base (without local_db "a")) "a").1 = Raise (UnknownOverlayException "a").
Proof.
  destruct (proj2 (DB_delete_removes local_db (entity "a" "the first") empty_disk [])
              {| source.class := reference.rsync; src := "rsync://example.org/a" |}
              ["make.conf of a,b"] 1
              ["make.conf of a,b"; "delete rsync://example.org/a"]
              {| files := {[ "/var/lib/layman/overlays.xml" := write_text (base (without local_db "a")) ]};
                 dirs := dirs empty_disk; readonly := readonly empty_disk |}
              true
              ["make.conf of a,b"; "delete rsync://example.org/a"; "make.conf without a"])
    as (Hrun & _ & _ & _ & Hsel).
  - vm_compute. by eexists.
  - reflexivity.
  - vm_compute. reflexivity.
  - vm_compute. reflexivity.
  - vm_compute. reflexivity.
  - vm_compute. reflexivity.
  - split; [exact Hrun | exact Hsel].
Defined.

Lemma fix_git_source_slash_witness :
  git.endswith_slash (git.fix_git_source "http://example.org/wrobel.git") = true /\
  git.fix_git_source "git://example.org/wrobel.git" = "git://example.org/wrobel.git".
Proof.
  split.
  - apply (proj1 (fix_git_source_slash "http://example.org/wrobel.git")). reflexivity.
  - apply (proj1 (proj2 (proj2 (fix_git_source_slash "git://example.org/wrobel.git")))).
    discriminate.
Defined.

(** The machine after the clone of [wrobel_git], and what [set_user] leaves
    on it. *)
Definition cloned : list string :=
  (git.run_command (git.clone_args wrobel_git (git.path ["/var/lib/layman"; "wrobel"]))
                   "/var/lib/layman" []).2.

Definition configured : git.ran :=
  git.set_user wrobel_git (git.path ["/var/lib/layman"; "wrobel"]) cloned.

Lemma git_add_status_witness :
  git.add wrobel_git "/var/lib/layman" [] =
  ((git.postsync 0 (git.path ["/var/lib/layman"; name (git.parent wrobel_git)])
                 configured.1.2).1,
   (git.postsync 0 (git.path ["/var/lib/layman"; name (git.parent wrobel_git)])
                 configured.1.2).2,
   debug ("cloned git repo...success=" +:+ str_int 128) (Some 8) :: configured.2).
Proof.
  apply (proj2 (git_add_status wrobel_git "/var/lib/layman" [] []) 128 cloned 0).
  - reflexivity.
  - vm_compute. reflexivity.
  - vm_compute. reflexivity.
Defined.

Lemma set_user_stops_witness :
  exists msgs,
    git.set_user wrobel_git "/var/lib/layman/wrobel" [] =
    ((git.run_command ["config"; "user.email"; git.quoted "layman@localhost"]
        "/var/lib/layman/wrobel" ["git config user.name " +:+ q "layman"]).1,
     (git.run_command ["config"; "user.email"; git.quoted "layman@localhost"]
        "/var/lib/layman/wrobel" ["git config user.name " +:+ q "layman"]).2,
     msgs).
Proof.
  refine (proj2 (set_user_stops wrobel_git "/var/lib/layman/wrobel" []
                   ["git config user.name " +:+ q "layman"] 0 _) _).
  - vm_compute. reflexivity.
  - reflexivity.
Defined.

(** A mapping with a git source after an rsync source. *)
Definition git_mapping : ovl_dict :=
  {| d_name := Some "wrobel";
     d_sources := Some [("rsync://example.org/wrobel", "rsync", "");
                        ("git://example.org/wrobel.git", "git", "")];
     d_owner_name := None; d_owner_email := None;
     d_description := Some "Test"; d_status := None; d_quality := Some "";
     d_priority := PNone; d_homepage := None; d_feeds := []; d_irc := None |}.

Lemma from_dict_reads_branch_witness :
  from_dict git_mapping 2 =
  ([debug ("Overlay from_dict(); overlay" +:+ str_dict git_mapping) None],
   Raise (AttributeError "'Overlay' object has no attribute 'branch'")).
Proof.
  apply (from_dict_reads_branch git_mapping 2 "wrobel" "git://example.org/wrobel.git" "git" ""
           [("rsync://example.org/wrobel", "rsync", "")] [] GitOverlay).
  - reflexivity.
  - reflexivity.
  - intros x ->%list_elem_of_singleton. exists reference.rsync. split; reflexivity.
  - reflexivity.
  - reflexivity.
Defined.

(** A node with an empty [branch] child. *)
Definition branch_node : Element :=
  Elem "repo" ∅ None
       [leaf "name" (Some "wrobel");
        Elem "source" {[ "type" := "git" ]} (Some "git://example.org/wrobel.git") [];
        leaf "branch" None].

Lemma from_xml_empty_branch_witness :
  from_xml branch_node 2 =
  ([], Raise (AttributeError "'NoneType' object has no attribute 'strip'")).
Proof.
  apply (from_xml_empty_branch branch_node (leaf "branch" None) 2 "wrobel").
  - reflexivity.
  - discriminate.
  - reflexivity.
  - reflexivity.
Defined.

(** A file system on which the content file of [url] cannot be made. *)
Definition no_entry : FS :=
  {| files := ∅; dirs := {[ "/var/lib/layman" ]};
     readonly := {[ mpath (remote empty_disk) url ]} |}.

Lemma cache_url_write_fails_witness :
  exists m self',
    @cache_url externals (server (Response ∅ global_overlays)) (remote no_entry) url
               {| has_updates := false; timestamp := None |} =
    (Raise (IOError ("Failed to temporarily cache overlays list in " +:+
                     mpath (remote no_entry) url +:+
                     nl +:+ "Error was:" +:+ nl +:+ m)), self') /\
    fs self' = no_entry /\
    store self' = (read (empty_store class_RemoteDB 0) global_overlays url).1.2.
Proof.
  apply (@cache_url_write_fails externals (server (Response ∅ global_overlays))
           (remote no_entry) url {| has_updates := false; timestamp := None |}
           None None ∅ global_overlays
           (read (empty_store class_RemoteDB 0) global_overlays url).1.2
           (read (empty_store class_RemoteDB 0) global_overlays url).2).
  - reflexivity.
  - vm_compute. reflexivity.
  - reflexivity.
  - vm_compute. reflexivity.
  - vm_compute. reflexivity.
  - vm_compute. by apply (bool_decide_eq_true_1 _).
Defined.

End MoreExamples.
